(* ===== verification/_CoqProject ===== *)
-Q . S2P
Prelude.v
GoStrings.v
Coord.v
Registrar.v
Binding.v
Publisher.v
Watch.v
Discovery.v
System.v
Manager.v
Store.v
