(* ===== verification/Prelude.v ===== *)
(** * Verification of kiteq's coordination layer and storage interface

    Sources: src/binding/zk_manager.go (the [ZKManager] that registers
    brokers, publishers and subscriptions in ZooKeeper and watches them)
    and src/store/kite_store.go (the message entity and the storage
    interface).

    ** The program and how its parts interact

    A broker builds a [ZKManager] ([NewZKManager]), which dials the
    coordination service and ensures the root [/kiteq].  It publishes its
    presence ([PublishQServer]: an ephemeral [/kiteq/server/<topic>/<host>]
    per topic), publisher capabilities ([PublishTopics]) and subscription
    bindings ([PublishBindings]: the bindings grouped by topic, each group
    marshalled into the persistent leaf [/kiteq/sub/<topic>/<group>-bind]).
    All three go through the path registrar ([registePath],
    [traverseCreatePath], [innerCreatePath]), which creates the missing
    directories and the leaf.  Discovery ([GetQServerAndWatch],
    [GetBindAndWatch]) reads the tree, arms single-fire watches with a
    [Watcher]'s channel and starts, per topic path, a goroutine
    ([addWatch]) that receives the zk events of that channel and calls the
    broker's [IWatcher] callbacks.  The store side is a data type
    ([MessageEntity]) and an interface ([IKiteStore]) whose engine lives
    outside the repository.

    ** Files

    - Prelude.v (this file): the [error] type, a state monad [St] with
      early-return bind [x <-? c ;; k] (Go's [if err != nil { return }]),
      the loop combinator [st_for] for [for _, x := range xs] with early
      return and its refinement lemmas, the [preserves] framework for
      invariants, reflexive-transitive closure [star] with rule induction.
    - GoStrings.v: [strings.Split], [Join], [LastIndex] and the shape of
      the paths the code builds ([node_of], [dir_of]).
    - Coord.v: the zk client (external) from the spec: the node tree,
      watches delivering events to channel queues, and an oracle [zk_env]
      that decides, call by call, between success ([Calm]), a connection
      fault ([Fault]) and another client's update run first ([Race]); the
      tree invariant [wf].  An empty oracle is a calm service.
    - Registrar.v: [confirm_loop], [innerCreatePath], [traverse_loop],
      [traverseCreatePath], [registePath] (lines 153-224), the abstract
      specification [register_spec] and the refinement proof.
    - Binding.v: [Binding] and the codec, as classes [BindingCodec] and
      [BindingCodecLaws] (binding.go is not in the sources), the grouping
      loop [groupBind] (lines 115-125), and a byte codec that meets the
      round-trip law.
    - Publisher.v: the constants (lines 11-16), [PublishQServer],
      [PublishTopics], [publish_group], [PublishBindings] (lines 81-151);
      Go's random map order is a parameter [range].
    - Watch.v: [ZkEvent], [IWatcher] (a class), [Watcher], [NewWatcher],
      [getBindData], and the goroutine of [addWatch]: [handle_event] is
      its [switch], [dispatch] one iteration, [dispatch_loop] a run with
      fuel, and [sys_step] a step relation interleaving every started loop
      with other clients' updates (lines 22-46, 283-346).
    - Discovery.v: [GetQServerAndWatch], [GetBindAndWatch] and its loop
      [collect_binds] (lines 226-280), with the specification
      [bind_aggregate].
    - System.v: runs of the whole system ([star sys_step]): the loops'
      progress and liveness, the accounting [pending] (events queued on a
      channel plus watches armed with it), and the composition of
      discovery, the service and the loop, for every topic and group
      (Sections [Presence] and [BindLoop]).
    - Manager.v: [NewZKManager] (lines 48-79, its panics as the outcome
      [Panicked]) and [Close] (lines 348-350).  The service removes the
      ephemeral nodes of the closing session only: the state records
      them in [zk_own], which [Session.Create] extends and a delete
      shrinks; Section [OwnSince] follows that record through
      [PublishQServer].
    - Store.v: [MessageEntity], [String_] (Go's [String]), [GetBody], the two constructors
      (kite_store.go lines 9-72), [IKiteStore] as a class (lines 75-82),
      the contract of spec 4.7 as the class [KiteStoreContract], an
      in-memory store [MemStore] meeting it, and client theorems proved
      for every store that meets it.

    ** What is proved

    - Refinement and functional correctness with a calm service:
      [registePath_refines], [registePath_idempotent], [registePath_leaf],
      [PublishQServer_refines], [PublishTopics_refines] (both through
      the shared [register_each_refines]), [PublishBindings_writes] (for every map
      order), [GetQServerAndWatch_absent]/[_present],
      [GetBindAndWatch_aggregates], the end-to-end round trip
      [publish_discover_roundtrip], [NewZKManager_calm].
    - Equivalence: [PublishBindings_order_independent], the result of
      [PublishBindings] does not depend on Go's map iteration order;
      [is_bind_path_spec], the binding-leaf test is "the fifth segment
      contains [-bind] after its first byte" (through [LastIndex_pos] of
      GoStrings.v), not "ends in [-bind]" as spec 4.5 says.
    - Runs of the system: every started loop can drain its channel
      whatever the service does ([loop_drains], liveness); the events
      pending on a channel never increase ([sys_star_pending]); a broker
      leaving a topic reaches [ChildWatcher] with the new server list
      ([server_departure_notified], discovery, service and loop composed).
    - Types: [handle_event_kind_code], the [ZkEvent] the loop reports has
      the code of the native [zk.EventType] it received
      ([type ZkEvent zk.EventType]), whatever the service answers.
    - The dispatcher: FIFO handling and draining ([dispatch_loop_fifo]),
      re-arming ([handle_event_rearms]).
    - Error paths and bounds under any oracle: first-error abort
      ([PublishQServer_first_error]), the 1000 ms bound of the
      confirmation poll ([innerCreatePath_backoff_bound]), the root after a
      returned [NewZKManager] ([NewZKManager_root_present]).
    - The end of the session: after a calm presence registration,
      [Close] removes the presence leaves it created and keeps every
      node that is not the session's own ephemeral node, other clients'
      ephemeral nodes included ([PublishQServer_Close]).
    - Findings, each a theorem: the exists-then-create races
      ([innerCreatePath_create_race], [NewZKManager_root_race]); a failed
      child re-fetch loses child notifications for every later run of the
      system ([child_refetch_fault_loses_children], by rule induction on
      [sys_step]); for every registered topic and every group bound to
      it, an update of the group's binding leaf is never notified and
      the leaf's deletion is reported as the topic's deletion
      ([binding_update_not_notified],
      [group_leaf_delete_reported_as_topic_delete]); an outage looks like
      an unknown topic ([GetQServerAndWatch_fault_hides]); a marshalling
      failure leaves earlier topics written
      ([PublishBindings_partial_commit]); an entity can start committed
      ([string_entity_committed_on_save]); [GetBindAndWatch] leaves
      2 + (number of groups) events pending on the loop's channel, more
      than its capacity 10 exactly when the topic has more than eight
      groups ([GetBindAndWatch_pending]).

    ** Bounds and fuel

    The confirmation poll is the code's own bound: 5 iterations, sleeps of
    0..400 ms.  [dispatch_loop] takes fuel; with fuel at least the length
    of the channel's queue the loop drains it ([dispatch_loop_fifo]), and
    the goroutine otherwise blocks on the empty channel, which the model
    renders as stopping.
    The byte codec's decoder takes fuel [S (length data)], enough because
    every decoding step consumes a byte.  The infinite goroutine as a whole
    is the step relation [sys_step], not a function.

    ** Not modelled

    Logging; the wire protocol; the binding codec's real encoding and the
    storage engine (contracts only, spec 4.7 and 6); the capacity of the
    watcher channel as a blocking bound: a channel is an unbounded FIFO
    queue, the capacity 10 is only compared with the pending-event count,
    and what the zk client (an external library) holds up while one of
    its sends waits on a full channel is not modelled; the zk client's
    session expiry and reconnection beyond the oracle's faults; other
    clients' sessions ending; the behaviour of a loop after [Close]
    closes its channel. *)

From stdpp Require Export base gmap strings list.
From Stdlib Require Export String Ascii ZArith Lia.

(** [length] is the length of a list; the length of a string is
    [String.length]. *)
Abbreviation length := Datatypes.length.

(** Byte slices ([]byte) as lists of bytes. *)
Definition bytes := list Byte.byte.

(** ** Go [error] values seen by the coordination layer.
    [ErrNoNode], [ErrNodeExists], [ErrNotEmpty], [ErrNoChildrenForEphemerals],
    [ErrInvalidPath] and [ErrConnectionClosed] are the errors of the zk client;
    [ErrCodec] is an error of the binding codec (MarshalBinds/UmarshalBinds). *)
Inductive error :=
| ErrNoNode
| ErrNodeExists
| ErrNotEmpty
| ErrNoChildrenForEphemerals
| ErrInvalidPath
| ErrBadArguments
| ErrConnectionClosed
| ErrCodec (msg : string).

#[export] Instance error_eq_dec : EqDecision error.
Proof. solve_decision. Defined.

(** A Go result pair [(T, error)]: [Ok v] is [(v, nil)], [Err e] is a non-nil
    error.  A bare Go [error] return is [res unit]. *)
Inductive res (A : Type) :=
| Ok (a : A)
| Err (e : error).
Arguments Ok {A} a.
Arguments Err {A} e.

Definition is_ok {A} (r : res A) : bool :=
  match r with Ok _ => true | Err _ => false end.

(** ** A state monad over the world the code runs against.
    [St S A] is a computation that reads and updates a state [S]. *)
Definition St (S A : Type) := S → A * S.

Definition st_ret {S A} (a : A) : St S A := λ s, (a, s).
Definition st_bind {S A B} (c : St S A) (k : A → St S B) : St S B :=
  λ s, let '(a, s') := c s in k a s'.

Declare Scope kiteq_scope.
Delimit Scope kiteq_scope with kq.
Notation "x <- c ;; k" := (st_bind c (λ x, k))
  (at level 100, c at next level, right associativity) : kiteq_scope.
Notation "c ;; k" := (st_bind c (λ _, k))
  (at level 100, right associativity) : kiteq_scope.
Open Scope kiteq_scope.

(** Go's [if err != nil { return err }]: run [c], stop on an error. *)
Definition st_try {S A B} (c : St S (res A)) (k : A → St S (res B)) : St S (res B) :=
  r <- c ;; match r with Ok a => k a | Err e => st_ret (Err e) end.
Notation "x <-? c ;; k" := (st_try c (λ x, k))
  (at level 100, c at next level, right associativity) : kiteq_scope.

(** Monadic iteration over a Go slice with early return on the first error
    ([for _, x := range xs { if err := f(x); err != nil { return err } }]). *)
Fixpoint st_for {S A} (f : A → St S (res unit)) (xs : list A) : St S (res unit) :=
  match xs with
  | [] => st_ret (Ok tt)
  | x :: xs' => _ <-? f x ;; st_for f xs'
  end.

Create HintDb kiteq discriminated.
Create Rewrite HintDb kiteq_rw.

Lemma st_bind_run {S A B} (c : St S A) (k : A → St S B) s :
  st_bind c k s = k (c s).1 (c s).2.
Proof. unfold st_bind. by destruct (c s). Qed.

Lemma st_try_run {S A B} (c : St S (res A)) (k : A → St S (res B)) s :
  st_try c k s =
  match (c s).1 with Ok a => k a (c s).2 | Err e => (Err e, (c s).2) end.
Proof. unfold st_try, st_bind. by destruct (c s) as [[]]. Qed.

Lemma st_for_app {S A} (f : A → St S (res unit)) xs ys s :
  st_for f (xs ++ ys) s = st_try (st_for f xs) (λ _, st_for f ys) s.
Proof.
  revert s. induction xs as [|x xs IH]; intros s; simpl.
  - unfold st_try, st_bind, st_ret. by destruct (st_for f ys s).
  - rewrite !st_try_run. destruct (f x s) as [[[]|e] s'] eqn:E; simpl; [|done].
    rewrite IH, !st_try_run. done.
Qed.

#[export] Hint Rewrite @st_bind_run @st_try_run : kiteq_rw.

(** Unfold the monad plumbing and split on the results of the calls. *)
Ltac st_simpl :=
  repeat (unfold st_try, st_bind, st_ret in *; simpl in *).

(** ** Invariants of computations: [c] preserves [P]. *)
Definition preserves {S A} (P : S → Prop) (c : St S A) : Prop := ∀ s, P s → P (c s).2.

Lemma preserves_ret {S A} (P : S → Prop) (a : A) : preserves P (st_ret a).
Proof. by intros s. Qed.

Lemma preserves_bind {S A B} (P : S → Prop) (c : St S A) (k : A → St S B) :
  preserves P c → (∀ a, preserves P (k a)) → preserves P (st_bind c k).
Proof.
  intros Hc Hk s Hs. unfold st_bind. specialize (Hc s Hs).
  destruct (c s) as [a s']. by apply Hk.
Qed.

Lemma preserves_try {S A B} (P : S → Prop) (c : St S (res A)) (k : A → St S (res B)) :
  preserves P c → (∀ a, preserves P (k a)) → preserves P (st_try c k).
Proof.
  intros Hc Hk. apply preserves_bind; [done|]. intros [a|e]; [apply Hk|apply preserves_ret].
Qed.

Lemma preserves_for {S A} (P : S → Prop) (f : A → St S (res unit)) xs :
  (∀ x, preserves P (f x)) → preserves P (st_for f xs).
Proof.
  intros Hf. induction xs as [|x xs IH]; simpl; [apply preserves_ret|].
  apply preserves_try; [done|]. intros _. done.
Qed.

#[export] Hint Resolve preserves_ret preserves_bind preserves_try preserves_for : kiteq.

(** Prove that a composite computation preserves an invariant from the
    facts about its calls: split binds, cases on the results, then hints. *)
Ltac preserves_tac :=
  repeat first
    [ solve [eauto with kiteq]
    | apply preserves_ret
    | apply preserves_try; [| intros ?]
    | apply preserves_bind; [| intros ?]
    | progress case_match ].

(** A loop whose every iteration succeeds and acts on an observation [obs]
    of the state as [spec] does, under an invariant [P], implements the
    fold of [spec]. *)
Lemma st_for_ok {S A O} (P : S → Prop) (obs : S → O) (spec : O → A → O)
    (f : A → St S (res unit)) (xs : list A) (s : S) :
  (∀ x s, x ∈ xs → P s →
     (f x s).1 = Ok tt ∧ obs (f x s).2 = spec (obs s) x ∧ P (f x s).2) →
  P s →
  (st_for f xs s).1 = Ok tt ∧ obs (st_for f xs s).2 = fold_left spec xs (obs s) ∧
  P (st_for f xs s).2.
Proof.
  revert s. induction xs as [|x xs IH]; intros s Hf Hs; [done|].
  simpl. rewrite st_try_run.
  destruct (Hf x s) as (H1 & H2 & H3); [set_solver|done|].
  rewrite H1. rewrite <- H2. apply IH; [|done].
  intros y s' Hy. apply Hf. set_solver.
Qed.

(** A loop stops at the first failing iteration: the later elements are
    not run. *)
Lemma st_for_stop {S A} (f : A → St S (res unit)) xs x ys s e :
  (st_for f xs s).1 = Ok tt → (f x (st_for f xs s).2).1 = Err e →
  st_for f (xs ++ x :: ys) s = (Err e, (f x (st_for f xs s).2).2).
Proof.
  intros H1 H2. rewrite st_for_app, st_try_run, H1. simpl.
  rewrite st_try_run, H2. done.
Qed.

Lemma st_for_ext_in {S A} (f g : A → St S (res unit)) xs :
  (∀ x, x ∈ xs → f x = g x) → st_for f xs = st_for g xs.
Proof.
  induction xs as [|x xs IH]; intros H; simpl; [done|].
  rewrite H by set_solver. rewrite IH by (intros; apply H; set_solver). done.
Qed.

(** ** Reachability: the reflexive-transitive closure of a step relation *)
Inductive star {A} (R : A → A → Prop) : A → A → Prop :=
| star_refl a : star R a a
| star_step a b c : R a b → star R b c → star R a c.

(** An invariant of every step is an invariant of every run. *)
Lemma star_invariant {A} (R : A → A → Prop) (I : A → Prop) a b :
  (∀ x y, R x y → I x → I y) → star R a b → I a → I b.
Proof. intros Hstep Hs. induction Hs; eauto. Qed.
