(* ===== verification/GoStrings.v ===== *)
(** * Go's [strings] functions used by the coordination layer

    [strings.Split] with a one-character separator (every call site of the
    code splits on ["/"] or [","]), the concatenation [strings.Join] it
    inverts, and [strings.LastIndex].  Lemmas: split/join round trips, the
    shape of the paths the code builds, and [LastIndex_pos], which says
    when [strings.LastIndex] is positive in terms of occurrences. *)

From S2P Require Import Prelude.

Open Scope string_scope.

(** [strings.Split(s, sep)] for a one-byte [sep]: the pieces between the
    occurrences of [sep]; [Split("", sep)] is [[""]]. *)
Fixpoint Split (s : string) (sep : ascii) : list string :=
  match s with
  | EmptyString => [""]
  | String c rest =>
      let parts := Split rest sep in
      if Ascii.eqb c sep then "" :: parts
      else match parts with
           | p :: ps => String c p :: ps
           | [] => [String c ""]
           end
  end.

(** [strings.Join(parts, sep)]. *)
Fixpoint Join (parts : list string) (sep : ascii) : string :=
  match parts with
  | [] => ""
  | [p] => p
  | p :: ps => p ++ String sep (Join ps sep)
  end.

(** [strings.LastIndex(s, substr)]: the largest index at which [substr]
    occurs in [s], or -1. *)
Fixpoint last_index_from (s sub : string) (i : nat) (acc : Z) : Z :=
  let acc' := if String.prefix sub s then Z.of_nat i else acc in
  match s with
  | EmptyString => acc'
  | String _ rest => last_index_from rest sub (S i) acc'
  end.

Definition LastIndex (s sub : string) : Z := last_index_from s sub 0 (-1).

(** [sep] does not occur in [s]. *)
Fixpoint no_sep (sep : ascii) (s : string) : bool :=
  match s with
  | EmptyString => true
  | String c rest => negb (Ascii.eqb c sep) && no_sep sep rest
  end.

(** ** Lemmas *)

Lemma Split_not_nil s sep : Split s sep ≠ [].
Proof.
  induction s as [|c s IH]; simpl; [done|].
  destruct (Ascii.eqb c sep); [done|]. by destruct (Split s sep).
Qed.

Lemma Join_cons_String c p ps sep :
  Join (String c p :: ps) sep = String c (Join (p :: ps) sep).
Proof. by destruct ps. Qed.

(** Joining the pieces of a split gives back the string. *)
Lemma Join_Split s sep : Join (Split s sep) sep = s.
Proof.
  induction s as [|c s IH]; simpl; [done|].
  pose proof (Split_not_nil s sep) as Hne.
  destruct (Ascii.eqb c sep) eqn:E.
  - apply Ascii.eqb_eq in E as ->.
    destruct (Split s sep) as [|p ps]; [done|]. by rewrite <- IH.
  - destruct (Split s sep) as [|p ps]; [done|].
    rewrite Join_cons_String. by rewrite IH.
Qed.

Lemma Split_no_sep s sep : no_sep sep s = true → Split s sep = [s].
Proof.
  induction s as [|c s IH]; simpl; [done|].
  intros [Hc Hs]%andb_prop. apply negb_true_iff in Hc. rewrite Hc, IH; done.
Qed.

Lemma Split_app_sep p t sep :
  no_sep sep p = true → Split (p ++ String sep t) sep = p :: Split t sep.
Proof.
  induction p as [|c p IH]; simpl.
  - by rewrite Ascii.eqb_refl.
  - intros [Hc Hp]%andb_prop. apply negb_true_iff in Hc. rewrite Hc, IH; done.
Qed.

(** Splitting a join of separator-free pieces gives back the pieces. *)
Lemma Split_Join l sep :
  l ≠ [] → Forall (λ p, no_sep sep p = true) l → Split (Join l sep) sep = l.
Proof.
  induction l as [|p [|q l] IH]; intros Hne Hl; [done| |].
  - inversion Hl; subst. by apply Split_no_sep.
  - inversion Hl; subst. change (Join (p :: q :: l) sep) with (p ++ String sep (Join (q :: l) sep)).
    rewrite Split_app_sep by done. rewrite IH; done.
Qed.

Lemma no_sep_app sep p q : no_sep sep (p ++ q) = no_sep sep p && no_sep sep q.
Proof. induction p as [|c p IH]; simpl; [done|]. by rewrite IH, andb_assoc. Qed.

#[export] Hint Resolve Split_not_nil : kiteq.
#[export] Hint Rewrite Join_Split : kiteq_rw.

Lemma str_app_cons x (a b : string) : String x a ++ b = String x (a ++ b).
Proof. reflexivity. Qed.

Lemma str_app_nil_l (a : string) : "" ++ a = a.
Proof. reflexivity. Qed.

Lemma str_app_assoc (a b c : string) : (a ++ b) ++ c = a ++ (b ++ c).
Proof. induction a as [|x a IH]; [done|]. by rewrite !str_app_cons, IH. Qed.

Lemma str_app_nil_r (a : string) : a ++ "" = a.
Proof. induction a as [|x a IH]; [done|]. by rewrite str_app_cons, IH. Qed.

#[export] Hint Rewrite str_app_cons str_app_nil_l str_app_assoc str_app_nil_r : kiteq_rw.

Lemma Join_snoc xs z sep :
  xs ≠ [] → Join (xs ++ [z]) sep = Join xs sep ++ String sep z.
Proof.
  induction xs as [|x [|x' xs] IH]; intros Hne; [done|reflexivity|].
  cbn [app] in IH |- *.
  change (Join (x :: x' :: xs ++ [z]) sep) with (x ++ String sep (Join (x' :: xs ++ [z]) sep)).
  change (Join (x :: x' :: xs) sep) with (x ++ String sep (Join (x' :: xs) sep)).
  rewrite IH by done. by rewrite str_app_assoc, str_app_cons.
Qed.

Lemma Join_snoc_app xs y s sep :
  Join (xs ++ [y]) sep ++ s = Join (xs ++ [y ++ s]) sep.
Proof.
  destruct xs as [|x xs]; [done|].
  rewrite !Join_snoc by done. by rewrite str_app_assoc, str_app_cons.
Qed.

(** The path ["/s1/.../sn"] of the segments [l] (["/"] for no segment) and
    the directory prefix ["/s1/.../sn/"] that [traverseCreatePath]
    accumulates. *)
Definition node_of (l : list string) : string := "/" ++ Join l "/".
Definition dir_of (l : list string) : string := Join ("" :: l ++ [""]) "/".

Lemma node_of_Join l : l ≠ [] → node_of l = Join ("" :: l) "/".
Proof. destruct l; done. Qed.

Lemma dir_of_app l v : dir_of l ++ v = node_of (l ++ [v]).
Proof.
  unfold dir_of. change ("" :: l ++ [""])%list with (("" :: l) ++ [""])%list.
  rewrite Join_snoc_app, str_app_nil_l. rewrite node_of_Join; [done|]. by destruct l.
Qed.

Lemma dir_of_snoc l v : dir_of l ++ v ++ "/" = dir_of (l ++ [v]).
Proof.
  rewrite <- str_app_assoc, dir_of_app. unfold dir_of.
  rewrite node_of_Join by (by destruct l).
  change ("" :: (l ++ [v]) ++ [""])%list with ((("" :: l) ++ [v]) ++ [""])%list.
  rewrite (Join_snoc ((("" :: l) ++ [v])%list)) by (by destruct l). done.
Qed.

Lemma Split_node_of l :
  l ≠ [] → Forall (λ s, no_sep "/" s = true) l → Split (node_of l) "/" = "" :: l.
Proof. intros Hne Hl. rewrite node_of_Join by done. apply Split_Join; [done|]. by constructor. Qed.

Lemma node_of_snoc_child l c : l ≠ [] → node_of l ++ "/" ++ c = node_of (l ++ [c]).
Proof.
  intros Hne. rewrite !node_of_Join by (by destruct l).
  change ("" :: l ++ [c])%list with (("" :: l) ++ [c])%list. by rewrite Join_snoc.
Qed.

(** A path segment as the code expects it: non-empty, without ["/"]. *)
Definition seg_ok (s : string) : bool := no_sep "/" s && negb (String.eqb s "").

Lemma segs_ok_no_sep l : forallb seg_ok l = true → Forall (λ s, no_sep "/" s = true) l.
Proof.
  intros H. apply Forall_forall. intros s Hs.
  apply forallb_forall with (x := s) in H; [|by apply list_elem_of_In]. by apply andb_prop in H as [? _].
Qed.

(** Distinct segment lists give distinct paths. *)
Lemma node_of_inj l1 l2 :
  l1 ≠ [] → l2 ≠ [] → forallb seg_ok l1 = true → forallb seg_ok l2 = true →
  node_of l1 = node_of l2 → l1 = l2.
Proof.
  intros H1 H2 Hs1 Hs2 E.
  apply (f_equal (λ s, Split s "/")) in E.
  rewrite !Split_node_of in E by auto using segs_ok_no_sep. congruence.
Qed.

(** ** [LastIndex] against the occurrences of the substring *)

Lemma prefix_spec (sub s : string) : String.prefix sub s = true ↔ ∃ post, s = sub ++ post.
Proof.
  revert s. induction sub as [|a sub IH]; intros [|b s]; simpl.
  - split; eauto.
  - split; eauto.
  - split; [done|]. intros [post Hp]. by rewrite str_app_cons in Hp.
  - destruct (ascii_dec a b) as [<-|Hab]; [rewrite IH|].
    + split; intros [post Hp]; exists post; [by rewrite Hp|]. rewrite str_app_cons in Hp. congruence.
    + split; [done|]. intros [post Hp]. rewrite str_app_cons in Hp. congruence.
Qed.

(** The occurrences of [sub] in [String x s]: at the front, or one further
    than in [s]. *)
Lemma occurs_cons x s sub (P : string → Prop) :
  (∃ pre post, String x s = pre ++ sub ++ post ∧ P pre) ↔
  ((∃ post, String x s = sub ++ post) ∧ P "") ∨ (∃ pre post, s = pre ++ sub ++ post ∧ P (String x pre)).
Proof.
  split.
  - intros [[|y pre] [post [Hs HP]]]; [left; eauto|right].
    rewrite str_app_cons in Hs. injection Hs as -> ->. eauto.
  - intros [[[post Hs] HP]|[pre [post [-> HP]]]]; [by exists "", post|].
    exists (String x pre), post. by rewrite str_app_cons.
Qed.

Lemma occurs_nil sub (P : string → Prop) :
  (∃ pre post, "" = pre ++ sub ++ post ∧ P pre) ↔ sub = "" ∧ P "".
Proof.
  split; [|intros [-> HP]; by exists "", ""].
  intros [[|y pre] [post [Hs HP]]]; [|by rewrite str_app_cons in Hs].
  destruct sub; [done|by rewrite str_app_nil_l, str_app_cons in Hs].
Qed.

Lemma last_index_from_gt s sub i acc k :
  (acc < Z.of_nat i)%Z →
  (k < last_index_from s sub i acc)%Z ↔
  (k < acc)%Z ∨ ∃ pre post, s = pre ++ sub ++ post ∧ (k < Z.of_nat (i + String.length pre))%Z.
Proof.
  revert i acc. induction s as [|x s IH]; intros i acc Hacc; cbn [last_index_from]; cbv zeta.
  - rewrite occurs_nil. destruct sub; simpl; split; intros Hk.
    + right; split; [done|lia].
    + destruct Hk as [?|[_ ?]]; lia.
    + by left.
    + destruct Hk as [?|[? _]]; [done|discriminate].
  - rewrite IH by (case_match; lia).
    rewrite (occurs_cons x s sub (λ pre, k < Z.of_nat (i + String.length pre))%Z).
    destruct (String.prefix sub (String x s)) eqn:Hp; cbv iota.
    + apply prefix_spec in Hp. split.
      * intros [Hk|[pre [post [Hs Hk]]]]; [right; left; split; [done|lia]|].
        right; right. exists pre, post. split; [done|simpl; lia].
      * intros [Hk|[[_ Hk]|[pre [post [Hs Hk]]]]]; [left; lia|left; simpl in Hk; lia|].
        right. exists pre, post. split; [done|simpl in Hk; lia].
    + split.
      * intros [Hk|[pre [post [Hs Hk]]]]; [by left|]. right; right. exists pre, post. split; [done|simpl; lia].
      * intros [Hk|[[Hc _]|[pre [post [Hs Hk]]]]]; [by left| |].
        -- apply prefix_spec in Hc. congruence.
        -- right. exists pre, post. split; [done|simpl in Hk; lia].
Qed.

(** [strings.LastIndex(s, sub) > 0]: [sub] occurs in [s] at a position
    other than the first. *)
Lemma LastIndex_pos s sub :
  (0 < LastIndex s sub)%Z ↔ ∃ pre post, s = pre ++ sub ++ post ∧ pre ≠ "".
Proof.
  unfold LastIndex. rewrite last_index_from_gt by lia.
  split.
  - intros [?|[pre [post [Hs Hk]]]]; [lia|]. exists pre, post. split; [done|]. intros ->. simpl in Hk. lia.
  - intros [pre [post [Hs Hpre]]]. right. exists pre, post. split; [done|]. destruct pre; [done|simpl; lia].
Qed.

(** ** Concatenation is injective on the left, and never returns its left
    operand when the right one is non-empty *)

Lemma str_app_inv_l (a b c : string) : a ++ b = a ++ c → b = c.
Proof. induction a as [|x a IH]; [done|]. rewrite !str_app_cons. intros [= E]. by apply IH. Qed.

Lemma str_app_neq (a b : string) x : a ++ String x b ≠ a.
Proof. induction a as [|y a IH]; [done|]. rewrite str_app_cons. intros [= E]. by apply IH. Qed.
