(* ===== verification/Coord.v ===== *)
(** * The coordination service and the zk client session

    The zookeeper client ([github.com/blackbeans/zk]) is an external
    library: this file models the operations the code calls on
    [self.session] ([Exists], [Create], [Set], [Get], [Children]) from the
    spec (section 4.1) and the ZooKeeper semantics it relies on:
    - the node tree [zk_nodes] (path to data and create mode);
    - single-fire watches [zk_watches] armed by [Exists]/[Get]/[Children]
      with a channel, each delivering one [Event] to its channel's queue
      [zk_chans] when a change on its path triggers it;
    - an environment oracle [zk_env]: before each client call the next
      entry says whether the call goes through ([Calm]), fails with a
      connection error ([Fault]), or is preceded by an operation of another
      client on the shared service ([Race]); an exhausted oracle is calm;
    - the time slept by the code ([zk_clock], in ms) and the dispatch
      goroutines started by the code ([zk_loops]);
    - the ephemeral nodes this session created and that still exist
      ([zk_own]): the service removes exactly these when the session
      closes.
    The invariant [wf] is the tree shape of the namespace (spec section 3:
    every ancestor of a node exists, as a persistent node). *)

From S2P Require Import Prelude GoStrings.
Open Scope string_scope.

Inductive CreateType := CreatePersistent | CreateEphemeral.
#[export] Instance CreateType_eq_dec : EqDecision CreateType.
Proof. solve_decision. Defined.

(** zk.EventType: the four node events and the session events. *)
Inductive EventType :=
| EventNodeCreated
| EventNodeDeleted
| EventNodeDataChanged
| EventNodeChildrenChanged
| EventSession.
#[export] Instance EventType_eq_dec : EqDecision EventType.
Proof. solve_decision. Defined.

(** The codes of the native event types, as the comments of [ZkEvent]
    (zk_manager.go lines 25-28) give them: NodeCreated (1), NodeDeleted
    (2), NodeDataChanged (3), NodeChildrenChanged (4); session events are
    negative. *)
Definition EventType_code (t : EventType) : Z :=
  match t with
  | EventNodeCreated => 1
  | EventNodeDeleted => 2
  | EventNodeDataChanged => 3
  | EventNodeChildrenChanged => 4
  | EventSession => -1
  end.

Record Event := { ev_type : EventType; ev_path : string }.

Inductive WatchKind := WatchExist | WatchData | WatchChild.
#[export] Instance WatchKind_eq_dec : EqDecision WatchKind.
Proof. solve_decision. Defined.

(** A watch armed on [w_path], delivering to the channel [w_chan]. *)
Record Watch := { w_kind : WatchKind; w_path : string; w_chan : nat }.

Record Node := { n_data : bytes; n_mode : CreateType }.

(** Operations of other clients on the shared service. *)
Inductive ExtOp :=
| ExtCreate (p : string) (d : bytes) (m : CreateType)
| ExtSet (p : string) (d : bytes)
| ExtDelete (p : string).

Inductive Env := Calm | Fault | Race (o : ExtOp).

Record Zk := mkZk {
  zk_nodes : gmap string Node;
  zk_watches : list Watch;
  zk_chans : gmap nat (list Event);
  zk_env : list Env;
  zk_clock : nat;
  zk_loops : list (string * nat);
  (** the ephemeral nodes this session created and that still exist: the
      service removes exactly these when the session closes *)
  zk_own : gset string
}.

Definition set_nodes (m : gmap string Node) (z : Zk) : Zk :=
  mkZk m (zk_watches z) (zk_chans z) (zk_env z) (zk_clock z) (zk_loops z) (zk_own z).
Definition set_watches (ws : list Watch) (z : Zk) : Zk :=
  mkZk (zk_nodes z) ws (zk_chans z) (zk_env z) (zk_clock z) (zk_loops z) (zk_own z).
Definition set_chans (ch : gmap nat (list Event)) (z : Zk) : Zk :=
  mkZk (zk_nodes z) (zk_watches z) ch (zk_env z) (zk_clock z) (zk_loops z) (zk_own z).
Definition set_env (es : list Env) (z : Zk) : Zk :=
  mkZk (zk_nodes z) (zk_watches z) (zk_chans z) es (zk_clock z) (zk_loops z) (zk_own z).
Definition set_clock (t : nat) (z : Zk) : Zk :=
  mkZk (zk_nodes z) (zk_watches z) (zk_chans z) (zk_env z) t (zk_loops z) (zk_own z).
Definition set_loops (ls : list (string * nat)) (z : Zk) : Zk :=
  mkZk (zk_nodes z) (zk_watches z) (zk_chans z) (zk_env z) (zk_clock z) ls (zk_own z).
Definition set_own (o : gset string) (z : Zk) : Zk :=
  mkZk (zk_nodes z) (zk_watches z) (zk_chans z) (zk_env z) (zk_clock z) (zk_loops z) o.

(** ** Paths *)

(** A zookeeper path: ["/"], or ["/"] followed by non-empty segments. *)
Definition valid_path (p : string) : bool :=
  String.eqb p "/" ||
  match Split p "/" with
  | EmptyString :: segs =>
      negb (bool_decide (segs = [])) && forallb (λ s, negb (String.eqb s "")) segs
  | _ => false
  end.

Definition parent_path (p : string) : string :=
  match Split p "/" with
  | _ :: segs => "/" ++ Join (removelast segs) "/"
  | [] => "/"
  end.

Definition basename (p : string) : string := default "" (last (Split p "/")).

Definition is_child_of (p : string) (kv : string * Node) : Prop :=
  parent_path kv.1 = p ∧ kv.1 ≠ "/".
#[export] Instance is_child_of_dec p kv : Decision (is_child_of p kv).
Proof. unfold is_child_of. apply _. Defined.

Definition child_entries (m : gmap string Node) (p : string) : list (string * Node) :=
  filter (is_child_of p) (map_to_list m).

(** The names of the children of [p] (zk returns names, not full paths). *)
Definition children_of (m : gmap string Node) (p : string) : list string :=
  map (λ kv, basename kv.1) (child_entries m p).

(** ** Watch triggering *)

Definition kinds_of (t : EventType) : list WatchKind :=
  match t with
  | EventNodeCreated => [WatchExist]
  | EventNodeDeleted => [WatchExist; WatchData; WatchChild]
  | EventNodeDataChanged => [WatchExist; WatchData]
  | EventNodeChildrenChanged => [WatchChild]
  | EventSession => []
  end.

Definition triggers (t : EventType) (p : string) (w : Watch) : bool :=
  bool_decide (w_path w = p ∧ w_kind w ∈ kinds_of t).

Definition chan_queue (ch : gmap nat (list Event)) (c : nat) : list Event :=
  default [] (ch !! c).

Definition enqueue (e : Event) (ch : gmap nat (list Event)) (c : nat) :=
  <[c := (chan_queue ch c ++ [e])%list]> ch.

(** Every watch the event triggers is removed and delivers the event to its
    channel. *)
Definition fire (t : EventType) (p : string) (z : Zk) : Zk :=
  let hit := filter (λ w, triggers t p w = true) (zk_watches z) in
  let keep := filter (λ w, triggers t p w = false) (zk_watches z) in
  set_chans (fold_left (enqueue {| ev_type := t; ev_path := p |})
                       (map w_chan hit) (zk_chans z))
            (set_watches keep z).

(** ** Server-side semantics of the updates (shared by this client's calls
    and by other clients' operations) *)
Module Server.

Definition create (p : string) (d : bytes) (m : CreateType) (z : Zk) : res string * Zk :=
  if negb (valid_path p) then (Err ErrInvalidPath, z) else
  match zk_nodes z !! p with
  | Some _ => (Err ErrNodeExists, z)
  | None =>
      match zk_nodes z !! parent_path p with
      | None => (Err ErrNoNode, z)
      | Some pn =>
          if bool_decide (n_mode pn = CreateEphemeral)
          then (Err ErrNoChildrenForEphemerals, z)
          else (Ok p, fire EventNodeChildrenChanged (parent_path p)
                        (fire EventNodeCreated p
                           (set_nodes (<[p := {| n_data := d; n_mode := m |}]> (zk_nodes z)) z)))
      end
  end.

(** [Set] with version -1 (any version), the only version the code passes. *)
Definition set (p : string) (d : bytes) (z : Zk) : res unit * Zk :=
  if negb (valid_path p) then (Err ErrInvalidPath, z) else
  match zk_nodes z !! p with
  | None => (Err ErrNoNode, z)
  | Some n =>
      (Ok tt, fire EventNodeDataChanged p
                (set_nodes (<[p := {| n_data := d; n_mode := n_mode n |}]> (zk_nodes z)) z))
  end.

Definition delete (p : string) (z : Zk) : res unit * Zk :=
  if negb (valid_path p) || String.eqb p "/" then (Err ErrBadArguments, z) else
  match zk_nodes z !! p with
  | None => (Err ErrNoNode, z)
  | Some _ =>
      if bool_decide (child_entries (zk_nodes z) p = []) then
        (Ok tt, fire EventNodeChildrenChanged (parent_path p)
                  (fire EventNodeDeleted p (set_own (zk_own z ∖ {[p]}) (set_nodes (delete p (zk_nodes z)) z))))
      else (Err ErrNotEmpty, z)
  end.

Definition apply_ext (o : ExtOp) (z : Zk) : Zk :=
  match o with
  | ExtCreate p d m => (create p d m z).2
  | ExtSet p d => (set p d z).2
  | ExtDelete p => (delete p z).2
  end.

End Server.

(** ** The client session: every call consults the environment oracle *)
Module Session.

Definition env_step (z : Zk) : Env * Zk :=
  match zk_env z with
  | [] => (Calm, z)
  | e :: es => (e, set_env es z)
  end.

Definition call {A} (op : Zk → res A * Zk) : St Zk (res A) := λ z,
  let '(e, z1) := env_step z in
  match e with
  | Calm => op z1
  | Fault => (Err ErrConnectionClosed, z1)
  | Race o => op (Server.apply_ext o z1)
  end.

Definition add_watch (k : WatchKind) (p : string) (w : option nat) (z : Zk) : Zk :=
  match w with
  | None => z
  | Some c => set_watches (zk_watches z ++ [{| w_kind := k; w_path := p; w_chan := c |}]) z
  end.

(** [session.Exists(path, watcher)]: arms an existence watch whether or
    not the node exists. *)
Definition Exists (p : string) (w : option nat) : St Zk (res bool) :=
  call (λ z, if negb (valid_path p) then (Err ErrInvalidPath, z)
             else (Ok (bool_decide (is_Some (zk_nodes z !! p))), add_watch WatchExist p w z)).

(** The session remembers the ephemeral nodes it created itself. *)
Definition own_created (p : string) (m : CreateType) (r : res string * Zk) : res string * Zk :=
  match r.1, m with
  | Ok _, CreateEphemeral => (r.1, set_own ({[p]} ∪ zk_own r.2) r.2)
  | _, _ => r
  end.

Definition Create (p : string) (d : bytes) (m : CreateType) : St Zk (res string) :=
  call (λ z, own_created p m (Server.create p d m z)).

Definition SetData (p : string) (d : bytes) : St Zk (res unit) :=
  call (Server.set p d).

(** [session.Get(path, watcher)]: fails with [ErrNoNode], arming nothing,
    on a missing node. *)
Definition Get (p : string) (w : option nat) : St Zk (res bytes) :=
  call (λ z, if negb (valid_path p) then (Err ErrInvalidPath, z) else
             match zk_nodes z !! p with
             | None => (Err ErrNoNode, z)
             | Some n => (Ok (n_data n), add_watch WatchData p w z)
             end).

Definition Children (p : string) (w : option nat) : St Zk (res (list string)) :=
  call (λ z, if negb (valid_path p) then (Err ErrInvalidPath, z) else
             match zk_nodes z !! p with
             | None => (Err ErrNoNode, z)
             | Some _ => (Ok (children_of (zk_nodes z) p), add_watch WatchChild p w z)
             end).

(** [time.Sleep(ms)]. *)
Definition sleep (ms : nat) : St Zk unit := λ z, (tt, set_clock (zk_clock z + ms) z).

End Session.

Arguments Session.Exists : simpl never.
Arguments Session.Create : simpl never.
Arguments Session.SetData : simpl never.
Arguments Session.Get : simpl never.
Arguments Session.Children : simpl never.
Arguments Session.sleep : simpl never.

(** ** The namespace invariant: a tree rooted at a persistent ["/"] whose
    nodes have valid paths and persistent parents. *)
Record wf (z : Zk) : Prop := {
  wf_root : ∃ r, zk_nodes z !! "/" = Some r ∧ n_mode r = CreatePersistent;
  wf_valid : ∀ p n, zk_nodes z !! p = Some n → valid_path p = true;
  wf_parent : ∀ p n, zk_nodes z !! p = Some n → p ≠ "/" →
    ∃ pn, zk_nodes z !! parent_path p = Some pn ∧ n_mode pn = CreatePersistent
}.

(** The state with only the root. *)
Definition zk_init (env : list Env) : Zk :=
  mkZk {[ "/" := {| n_data := []; n_mode := CreatePersistent |} ]} [] ∅ env 0 [] ∅.

(** ** Lemmas *)

Lemma fire_nodes t p z : zk_nodes (fire t p z) = zk_nodes z.
Proof. done. Qed.
Lemma fire_env t p z : zk_env (fire t p z) = zk_env z.
Proof. done. Qed.
Lemma fire_clock t p z : zk_clock (fire t p z) = zk_clock z.
Proof. done. Qed.
Lemma fire_loops t p z : zk_loops (fire t p z) = zk_loops z.
Proof. done. Qed.
Lemma fire_own t p z : zk_own (fire t p z) = zk_own z.
Proof. done. Qed.
Lemma add_watch_nodes k p w z : zk_nodes (Session.add_watch k p w z) = zk_nodes z.
Proof. by destruct w. Qed.
Lemma add_watch_env k p w z : zk_env (Session.add_watch k p w z) = zk_env z.
Proof. by destruct w. Qed.
Lemma add_watch_clock k p w z : zk_clock (Session.add_watch k p w z) = zk_clock z.
Proof. by destruct w. Qed.

#[export] Hint Rewrite fire_nodes fire_env fire_clock fire_loops
  add_watch_nodes add_watch_env add_watch_clock : kiteq_rw.

(** With an exhausted oracle every call goes through. *)
Lemma call_calm {A} (op : Zk → res A * Zk) z :
  zk_env z = [] → Session.call op z = op z.
Proof. intros H. unfold Session.call, Session.env_step. by rewrite H. Qed.

(** No node is a child of a node without child entries. *)
Lemma child_entries_nil m p q n :
  child_entries m p = [] → m !! q = Some n → q ≠ "/" → parent_path q ≠ p.
Proof.
  intros Hnil Hq Hroot Hpar.
  assert ((q, n) ∈ child_entries m p) as Hin.
  { apply list_elem_of_filter. split; [done|]. by apply elem_of_map_to_list. }
  rewrite Hnil in Hin. set_solver.
Qed.

Lemma wf_nodes_eq z z' : zk_nodes z' = zk_nodes z → wf z → wf z'.
Proof. intros Heq [Hr Hv Hp]. split; rewrite Heq; done. Qed.

Lemma wf_fire t p z : wf z → wf (fire t p z).
Proof. apply wf_nodes_eq. done. Qed.

Lemma wf_add_watch k p w z : wf z → wf (Session.add_watch k p w z).
Proof. apply wf_nodes_eq, add_watch_nodes. Qed.

Lemma wf_set_env es z : wf z → wf (set_env es z).
Proof. by apply wf_nodes_eq. Qed.

Lemma wf_set_clock t z : wf z → wf (set_clock t z).
Proof. by apply wf_nodes_eq. Qed.

Lemma wf_set_loops ls z : wf z → wf (set_loops ls z).
Proof. by apply wf_nodes_eq. Qed.

Lemma wf_set_own o z : wf z → wf (set_own o z).
Proof. by apply wf_nodes_eq. Qed.

#[export] Hint Resolve wf_fire wf_add_watch wf_set_env wf_set_clock wf_set_loops wf_set_own : kiteq.

Lemma wf_insert_fresh z p nd :
  wf z → zk_nodes z !! p = None → valid_path p = true →
  (∃ pn, zk_nodes z !! parent_path p = Some pn ∧ n_mode pn = CreatePersistent) →
  wf (set_nodes (<[p := nd]> (zk_nodes z)) z).
Proof.
  intros [[r [Hr Hrm]] Hv Hp] Hfresh Hvp [pn [Hpn Hpnm]]; simpl.
  assert (p ≠ "/") by (intros ->; congruence).
  split; simpl.
  - exists r. rewrite lookup_insert_ne; done.
  - intros q n. destruct (decide (q = p)) as [->|Hne]; [done|].
    rewrite lookup_insert_ne by done. apply Hv.
  - intros q n. destruct (decide (q = p)) as [->|Hne].
    + intros _ _. exists pn. destruct (decide (parent_path p = p)) as [E|E].
      * rewrite E in Hpn. congruence.
      * rewrite lookup_insert_ne by done. done.
    + rewrite lookup_insert_ne by done. intros Hq Hqr.
      destruct (Hp q n Hq Hqr) as [pq [Hpq Hpqm]]. exists pq.
      destruct (decide (parent_path q = p)) as [E|E].
      * rewrite E in Hpq. congruence.
      * rewrite lookup_insert_ne by done. done.
Qed.

Lemma wf_update_data z p n d :
  wf z → zk_nodes z !! p = Some n →
  wf (set_nodes (<[p := {| n_data := d; n_mode := n_mode n |}]> (zk_nodes z)) z).
Proof.
  intros [[r [Hr Hrm]] Hv Hp] Hn; simpl. split; simpl.
  - destruct (decide (p = "/")) as [->|Hne].
    + rewrite lookup_insert_eq. eexists; split; [done|]. simpl. congruence.
    + exists r. rewrite lookup_insert_ne; done.
  - intros q m. destruct (decide (q = p)) as [->|Hne]; [intros; by eapply Hv|].
    rewrite lookup_insert_ne by done. apply Hv.
  - intros q m Hq Hqr.
    assert (∃ m0, zk_nodes z !! q = Some m0) as [m0 Hm0].
    { destruct (decide (q = p)) as [->|Hne]; [eauto|].
      rewrite lookup_insert_ne in Hq by done. eauto. }
    destruct (Hp q m0 Hm0 Hqr) as [pq [Hpq Hpqm]].
    destruct (decide (parent_path q = p)) as [E|E].
    + rewrite E, lookup_insert_eq. eexists; split; [done|]. simpl. congruence.
    + exists pq. rewrite lookup_insert_ne by done. done.
Qed.

Lemma wf_delete_leaf z p :
  wf z → p ≠ "/" → child_entries (zk_nodes z) p = [] →
  wf (set_nodes (delete p (zk_nodes z)) z).
Proof.
  intros [[r [Hr Hrm]] Hv Hp] Hroot Hleaf; simpl. split; simpl.
  - exists r. rewrite lookup_delete_ne; done.
  - intros q n. destruct (decide (q = p)) as [->|Hne].
    + by rewrite lookup_delete_eq.
    + rewrite lookup_delete_ne by done. apply Hv.
  - intros q n. destruct (decide (q = p)) as [->|Hne].
    + by rewrite lookup_delete_eq.
    + rewrite lookup_delete_ne by done. intros Hq Hqr.
      destruct (Hp q n Hq Hqr) as [pq [Hpq Hpqm]]. exists pq.
      rewrite lookup_delete_ne; [done|].
      intros E. by apply (child_entries_nil _ _ _ _ Hleaf Hq Hqr).
Qed.

Lemma create_wf p d m z : wf z → wf (Server.create p d m z).2.
Proof.
  intros Hwf. unfold Server.create.
  destruct (valid_path p) eqn:Hv; simpl; [|done].
  destruct (zk_nodes z !! p) eqn:Hp; [done|].
  destruct (zk_nodes z !! parent_path p) as [pn|] eqn:Hpn; [|done].
  case_bool_decide as Hm; [done|]; simpl.
  apply wf_fire, wf_fire, wf_insert_fresh; try done.
  exists pn. split; [done|]. by destruct (n_mode pn).
Qed.

Lemma set_wf p d z : wf z → wf (Server.set p d z).2.
Proof.
  intros Hwf. unfold Server.set.
  destruct (valid_path p); simpl; [|done].
  destruct (zk_nodes z !! p) eqn:Hp; [|done]. simpl.
  by apply wf_fire, wf_update_data.
Qed.

Lemma delete_wf p z : wf z → wf (Server.delete p z).2.
Proof.
  intros Hwf. unfold Server.delete.
  destruct (negb (valid_path p) || String.eqb p "/") eqn:Hb; [done|].
  apply orb_false_iff in Hb as [_ Hroot%String.eqb_neq].
  destruct (zk_nodes z !! p); [|done].
  case_bool_decide; [|done]. simpl. by apply wf_fire, wf_fire, wf_set_own, wf_delete_leaf.
Qed.

Lemma apply_ext_wf o z : wf z → wf (Server.apply_ext o z).
Proof. destruct o; simpl; auto using create_wf, set_wf, delete_wf. Qed.

#[export] Hint Resolve create_wf set_wf delete_wf apply_ext_wf : kiteq.

Lemma call_wf {A} (op : Zk → res A * Zk) z :
  (∀ z', wf z' → wf (op z').2) → wf z → wf (Session.call op z).2.
Proof.
  intros Hop Hwf. unfold Session.call, Session.env_step.
  destruct (zk_env z) as [|[| |o] es]; simpl; auto with kiteq.
Qed.

(** Every session call preserves the namespace invariant, whatever the
    oracle does. *)
Lemma Exists_wf p w : preserves wf (Session.Exists p w).
Proof.
  intros z. apply call_wf. intros z' Hz. destruct (valid_path p); simpl; auto with kiteq.
Qed.

Lemma own_created_result p m r : (Session.own_created p m r).1 = r.1.
Proof. unfold Session.own_created. by destruct r as [[] ?], m. Qed.
(** Recording ownership touches nothing a projection other than [zk_own]
    sees. *)
Lemma own_created_frame {X} (f : Zk → X) p m r :
  (∀ o z, f (set_own o z) = f z) → f (Session.own_created p m r).2 = f r.2.
Proof. intros Hf. unfold Session.own_created. destruct r as [[] ?], m; simpl; auto. Qed.
Lemma own_created_nodes p m r : zk_nodes (Session.own_created p m r).2 = zk_nodes r.2.
Proof. by apply own_created_frame. Qed.

Lemma Create_wf p d m : preserves wf (Session.Create p d m).
Proof.
  intros z. apply call_wf. intros z' Hz.
  eapply wf_nodes_eq; [apply own_created_nodes|auto with kiteq].
Qed.

Lemma SetData_wf p d : preserves wf (Session.SetData p d).
Proof. intros z. apply call_wf. auto with kiteq. Qed.

Lemma Get_wf p w : preserves wf (Session.Get p w).
Proof.
  intros z. apply call_wf. intros z' Hz. destruct (valid_path p); simpl; [|done].
  destruct (zk_nodes z' !! p); simpl; auto with kiteq.
Qed.

Lemma Children_wf p w : preserves wf (Session.Children p w).
Proof.
  intros z. apply call_wf. intros z' Hz. destruct (valid_path p); simpl; [|done].
  destruct (zk_nodes z' !! p); simpl; auto with kiteq.
Qed.

Lemma sleep_wf ms : preserves wf (Session.sleep ms).
Proof. intros z. apply wf_set_clock. Qed.

#[export] Hint Resolve Exists_wf Create_wf SetData_wf Get_wf Children_wf sleep_wf : kiteq.

Lemma zk_init_wf env : wf (zk_init env).
Proof.
  split; simpl.
  - eexists. by rewrite lookup_singleton_eq.
  - intros p n. rewrite lookup_singleton_Some. by intros [<- _].
  - intros p n. rewrite lookup_singleton_Some. by intros [<- _].
Qed.

(** ** Paths built from segments *)

Lemma valid_node_of l :
  l ≠ [] → forallb seg_ok l = true → valid_path (node_of l) = true.
Proof.
  intros Hne Hok. unfold valid_path. rewrite Split_node_of by auto using segs_ok_no_sep.
  apply orb_true_intro; right. apply andb_true_intro; split.
  - by rewrite bool_decide_eq_false_2.
  - apply forallb_forall. intros s Hs.
    apply forallb_forall with (x := s) in Hok; [|done]. by apply andb_prop in Hok as [_ ?].
Qed.

Lemma parent_node_of l v :
  forallb seg_ok (l ++ [v]) = true → parent_path (node_of (l ++ [v])) = node_of l.
Proof.
  intros Hok. unfold parent_path.
  rewrite Split_node_of by (auto using segs_ok_no_sep; by destruct l).
  by rewrite removelast_last.
Qed.

Lemma node_of_not_root l : l ≠ [] → forallb seg_ok l = true → node_of l ≠ "/".
Proof.
  intros Hne Hok E. destruct l as [|x l]; [done|].
  unfold node_of in E. rewrite str_app_cons, str_app_nil_l in E. injection E as E.
  destruct x as [|c x].
  - by apply andb_prop in Hok as [[_ ?]%andb_prop _].
  - destruct l; [done|]. by rewrite str_app_cons in E.
Qed.

(** ** The session calls with a calm oracle *)

Lemma Exists_calm p w z :
  zk_env z = [] → valid_path p = true →
  Session.Exists p w z = (Ok (bool_decide (is_Some (zk_nodes z !! p))), Session.add_watch WatchExist p w z).
Proof. intros He Hv. unfold Session.Exists. rewrite call_calm by done. by rewrite Hv. Qed.

Lemma Create_calm p d m z :
  zk_env z = [] → Session.Create p d m z = Session.own_created p m (Server.create p d m z).
Proof. apply (call_calm (λ z, Session.own_created p m (Server.create p d m z))). Qed.

Lemma SetData_calm p d z : zk_env z = [] → Session.SetData p d z = Server.set p d z.
Proof. apply call_calm. Qed.

Lemma create_ok p d m z pn :
  valid_path p = true → zk_nodes z !! p = None →
  zk_nodes z !! parent_path p = Some pn → n_mode pn = CreatePersistent →
  Server.create p d m z =
    (Ok p, fire EventNodeChildrenChanged (parent_path p)
             (fire EventNodeCreated p
                (set_nodes (<[p := {| n_data := d; n_mode := m |}]> (zk_nodes z)) z))).
Proof.
  intros Hv Hp Hpn Hm. unfold Server.create. rewrite Hv, Hp, Hpn. simpl.
  by rewrite bool_decide_eq_false_2 by (rewrite Hm; done).
Qed.

Lemma set_ok p d z n :
  valid_path p = true → zk_nodes z !! p = Some n →
  Server.set p d z =
    (Ok tt, fire EventNodeDataChanged p
              (set_nodes (<[p := {| n_data := d; n_mode := n_mode n |}]> (zk_nodes z)) z)).
Proof. intros Hv Hp. unfold Server.set. by rewrite Hv, Hp. Qed.

(** A fault fails the call and changes nothing but the oracle. *)
Lemma call_fault {A} (op : Zk → res A * Zk) z es :
  zk_env z = Fault :: es → Session.call op z = (Err ErrConnectionClosed, set_env es z).
Proof. intros H. unfold Session.call, Session.env_step. by rewrite H. Qed.

(** A race runs the other client's operation first. *)
Lemma call_race {A} (op : Zk → res A * Zk) z o es :
  zk_env z = Race o :: es → Session.call op z = op (Server.apply_ext o (set_env es z)).
Proof. intros H. unfold Session.call, Session.env_step. by rewrite H. Qed.

(** ** Only [sleep] advances the clock *)

Definition keeps_clock {A} (c : St Zk A) : Prop := ∀ z, zk_clock (c z).2 = zk_clock z.

Lemma apply_ext_clock o z : zk_clock (Server.apply_ext o z) = zk_clock z.
Proof.
  destruct o as [p d m|p d|p]; simpl.
  - unfold Server.create. repeat case_match; done.
  - unfold Server.set. repeat case_match; done.
  - unfold Server.delete. repeat case_match; done.
Qed.

Lemma call_clock {A} (op : Zk → res A * Zk) :
  (∀ z, zk_clock (op z).2 = zk_clock z) → keeps_clock (Session.call op).
Proof.
  intros Hop z. unfold Session.call, Session.env_step.
  destruct (zk_env z) as [|[| |o] es]; simpl; rewrite ?Hop, ?apply_ext_clock; done.
Qed.

Lemma Exists_clock p w : keeps_clock (Session.Exists p w).
Proof. apply call_clock. intros z. destruct (valid_path p); simpl; [|done]. by destruct w. Qed.

Lemma Create_clock p d m : keeps_clock (Session.Create p d m).
Proof.
  apply call_clock. intros z. rewrite own_created_frame by done.
  apply (apply_ext_clock (ExtCreate p d m)).
Qed.

Lemma SetData_clock p d : keeps_clock (Session.SetData p d).
Proof. apply call_clock. intros z. apply (apply_ext_clock (ExtSet p d)). Qed.

Lemma Get_clock p w : keeps_clock (Session.Get p w).
Proof. apply call_clock. intros z. repeat case_match; simpl; try done. by destruct w. Qed.

Lemma Children_clock p w : keeps_clock (Session.Children p w).
Proof. apply call_clock. intros z. repeat case_match; simpl; try done. by destruct w. Qed.

Lemma call_calm_cons {A} (op : Zk → res A * Zk) z es :
  zk_env z = Calm :: es → Session.call op z = op (set_env es z).
Proof. intros H. unfold Session.call, Session.env_step. by rewrite H. Qed.

Lemma create_exists p d m z n :
  valid_path p = true → zk_nodes z !! p = Some n → Server.create p d m z = (Err ErrNodeExists, z).
Proof. intros Hv Hp. unfold Server.create. by rewrite Hv, Hp. Qed.

(** In a fresh namespace every directory on a path is absent or the root. *)
Lemma zk_init_dirs_persistent env q n :
  zk_nodes (zk_init env) !! q = Some n → n_mode n = CreatePersistent.
Proof. simpl. rewrite lookup_singleton_Some. by intros [_ <-]. Qed.

Lemma Get_calm p w z :
  zk_env z = [] → valid_path p = true →
  Session.Get p w z =
  match zk_nodes z !! p with
  | None => (Err ErrNoNode, z)
  | Some n => (Ok (n_data n), Session.add_watch WatchData p w z)
  end.
Proof. intros He Hv. unfold Session.Get. rewrite call_calm by done. by rewrite Hv. Qed.

Lemma Children_calm p w z :
  zk_env z = [] → valid_path p = true →
  Session.Children p w z =
  match zk_nodes z !! p with
  | None => (Err ErrNoNode, z)
  | Some _ => (Ok (children_of (zk_nodes z) p), Session.add_watch WatchChild p w z)
  end.
Proof. intros He Hv. unfold Session.Children. rewrite call_calm by done. by rewrite Hv. Qed.

(** A node's path is its parent's path, ["/"], and its name. *)
Lemma parent_basename k :
  valid_path k = true → k ≠ "/"%string → parent_path k ≠ "/"%string →
  (parent_path k ++ "/" ++ basename k)%string = k.
Proof.
  intros Hv Hroot Hp. unfold valid_path in Hv.
  apply orb_true_iff in Hv as [Hv|Hv]; [by apply String.eqb_eq in Hv|].
  unfold parent_path, basename in *.
  destruct (Split k "/") as [|s0 segs] eqn:Hs; [done|].
  destruct s0; [|done]. apply andb_prop in Hv as [Hne _].
  apply negb_true_iff, bool_decide_eq_false in Hne.
  destruct (exists_last Hne) as (init & v & ->).
  rewrite removelast_last in *. rewrite last_cons, last_snoc. simpl.
  assert (init ≠ []) as Hi by (intros ->; done).
  rewrite <- (Join_Split k "/"), Hs.
  change ("" :: init ++ [v])%list with (("" :: init) ++ [v])%list.
  rewrite Join_snoc by done. rewrite <- node_of_Join by done.
  unfold node_of. by rewrite str_app_assoc.
Qed.

Lemma basename_node_of l v :
  forallb seg_ok (l ++ [v]) = true → basename (node_of (l ++ [v])) = v.
Proof.
  intros Hok. unfold basename.
  rewrite Split_node_of by (auto using segs_ok_no_sep; by destruct l).
  change ("" :: l ++ [v])%list with (("" :: l) ++ [v])%list. by rewrite last_snoc.
Qed.

(** A stored node [l ++ [v]] is listed, by its name [v], among the
    children of [l]. *)
Lemma children_of_elem m l v n :
  forallb seg_ok (l ++ [v]) = true → m !! node_of (l ++ [v]) = Some n →
  v ∈ children_of m (node_of l).
Proof.
  intros Hok Hn. unfold children_of, child_entries.
  apply list_elem_of_fmap. exists (node_of (l ++ [v]), n). simpl.
  rewrite basename_node_of by done. split; [done|].
  apply list_elem_of_filter. split; [|by apply elem_of_map_to_list].
  split; simpl; [by apply parent_node_of|].
  apply node_of_not_root; [by destruct l|done].
Qed.

(** ** What a successful call tells the caller, whatever the oracle *)

Lemma call_cases {A} (op : Zk → res A * Zk) z :
  Session.call op z = op (Session.env_step z).2 ∨
  (∃ o, Session.call op z = op (Server.apply_ext o (Session.env_step z).2)) ∨
  (Session.call op z).1 = Err ErrConnectionClosed.
Proof.
  unfold Session.call. destruct (Session.env_step z) as [[| |o] z1]; simpl; eauto.
Qed.

Lemma Exists_true_present p w z :
  (Session.Exists p w z).1 = Ok true → is_Some (zk_nodes (Session.Exists p w z).2 !! p).
Proof.
  unfold Session.Exists.
  destruct (call_cases (λ z, if negb (valid_path p) then (Err ErrInvalidPath, z)
    else (Ok (bool_decide (is_Some (zk_nodes z !! p))), Session.add_watch WatchExist p w z)) z)
    as [ -> | [[o ->] | ->]]; try done;
    destruct (valid_path p); simpl; try done; rewrite add_watch_nodes;
    intros [= Hb]; by apply bool_decide_eq_true in Hb.
Qed.

Lemma Create_ok_present p d m z q :
  (Session.Create p d m z).1 = Ok q → is_Some (zk_nodes (Session.Create p d m z).2 !! p).
Proof.
  assert (∀ z', (Server.create p d m z').1 = Ok q → is_Some (zk_nodes (Server.create p d m z').2 !! p)) as Hc.
  { intros z'. unfold Server.create. repeat case_match; try done. intros _.
    cbn [snd]. rewrite !fire_nodes. cbn [zk_nodes set_nodes]. rewrite lookup_insert_eq. by eexists. }
  unfold Session.Create.
  destruct (call_cases (λ z, Session.own_created p m (Server.create p d m z)) z) as [ -> | [[o ->] | ->]];
    rewrite ?own_created_result, ?own_created_nodes; auto. done.
Qed.

(** ** Frames of the client calls: the dispatch loops, the oracle, the
    channels *)

Definition keeps_loops {A} (c : St Zk A) : Prop := ∀ z, zk_loops (c z).2 = zk_loops z.

Lemma apply_ext_loops o z : zk_loops (Server.apply_ext o z) = zk_loops z.
Proof.
  destruct o as [p d m|p d|p]; simpl.
  - unfold Server.create. repeat case_match; done.
  - unfold Server.set. repeat case_match; done.
  - unfold Server.delete. repeat case_match; done.
Qed.

Lemma apply_ext_env o z : zk_env (Server.apply_ext o z) = zk_env z.
Proof.
  destruct o as [p d m|p d|p]; simpl.
  - unfold Server.create. repeat case_match; done.
  - unfold Server.set. repeat case_match; done.
  - unfold Server.delete. repeat case_match; done.
Qed.

Lemma call_loops {A} (op : Zk → res A * Zk) :
  (∀ z, zk_loops (op z).2 = zk_loops z) → keeps_loops (Session.call op).
Proof.
  intros Hop z. unfold Session.call, Session.env_step.
  destruct (zk_env z) as [|[| |o] es]; simpl; rewrite ?Hop, ?apply_ext_loops; done.
Qed.

(** A call consumes exactly one entry of a non-empty oracle. *)
Definition consumes_one {A} (c : St Zk A) : Prop :=
  ∀ z x es, zk_env z = x :: es → zk_env (c z).2 = es.

Lemma call_consumes_one {A} (op : Zk → res A * Zk) :
  (∀ z, zk_env (op z).2 = zk_env z) → consumes_one (Session.call op).
Proof.
  intros Hop z x es He. unfold Session.call, Session.env_step. rewrite He.
  destruct x as [| |o]; simpl; rewrite ?Hop, ?apply_ext_env; done.
Qed.

(** With a calm oracle a call whose operation fires nothing leaves the
    channels and the oracle as they are. *)
Definition calm_quiet {A} (c : St Zk A) : Prop :=
  ∀ z, zk_env z = [] → zk_env (c z).2 = [] ∧ zk_chans (c z).2 = zk_chans z.

Lemma call_calm_quiet {A} (op : Zk → res A * Zk) :
  (∀ z, zk_env (op z).2 = zk_env z ∧ zk_chans (op z).2 = zk_chans z) → calm_quiet (Session.call op).
Proof. intros Hop z He. rewrite call_calm by done. rewrite (proj1 (Hop z)). split; [done|apply Hop]. Qed.

(** The three read calls of the dispatch loop. *)
Definition read_state (k : WatchKind) (p : string) (w : option nat) (z : Zk) : Zk :=
  match k with
  | WatchExist => (Session.Exists p w z).2
  | WatchData => (Session.Get p w z).2
  | WatchChild => (Session.Children p w z).2
  end.

Lemma read_state_loops k p w z : zk_loops (read_state k p w z) = zk_loops z.
Proof.
  destruct k; simpl; [unfold Session.Exists|unfold Session.Get|unfold Session.Children];
    apply call_loops; intros z'; repeat case_match; simpl; try done; by destruct w.
Qed.

Lemma read_state_env k p w z x es :
  zk_env z = x :: es → zk_env (read_state k p w z) = es.
Proof.
  destruct k; simpl; [unfold Session.Exists|unfold Session.Get|unfold Session.Children];
    apply call_consumes_one; intros z'; repeat case_match; simpl; try done; by destruct w.
Qed.

Lemma read_state_calm k p w z :
  zk_env z = [] → zk_env (read_state k p w z) = [] ∧ zk_chans (read_state k p w z) = zk_chans z.
Proof.
  destruct k; simpl; [unfold Session.Exists|unfold Session.Get|unfold Session.Children];
    apply call_calm_quiet; intros z'; repeat case_match; simpl; try done; by destruct w.
Qed.

Lemma delete_ok p z n :
  valid_path p = true → p ≠ "/"%string → zk_nodes z !! p = Some n →
  child_entries (zk_nodes z) p = [] →
  Server.delete p z =
    (Ok tt, fire EventNodeChildrenChanged (parent_path p)
              (fire EventNodeDeleted p (set_own (zk_own z ∖ {[p]}) (set_nodes (delete p (zk_nodes z)) z)))).
Proof.
  intros Hv Hr Hp Hc. unfold Server.delete. rewrite Hv.
  rewrite (proj2 (String.eqb_neq p "/") Hr). simpl. rewrite Hp.
  by rewrite bool_decide_eq_true_2.
Qed.
