(* ===== verification/Registrar.v ===== *)
(** * PathRegistrar: [registePath], [traverseCreatePath], [innerCreatePath]

    zk_manager.go lines 153-224.  [innerCreatePath] creates a node when
    [Exists] says it is absent and then polls [Exists] up to 5 times with
    a linear backoff; when the node exists and [data] is non-nil it
    overwrites the data.  [traverseCreatePath] walks the segments of a path
    and creates every prefix as a persistent node; [registePath] then
    creates the leaf [path + "/" + childpath].

    The abstract specification [put_node]/[register_spec] says what these
    do to the node tree; [registePath_refines] proves that, with a calm
    oracle, the code implements it. *)

From S2P Require Import Prelude GoStrings Coord.
Open Scope string_scope.

(** The confirmation poll (lines 201-209):
    [for i := 0; i < 5; i++ { exist, _, _ = Exists(tmppath, nil);
      if !exist { Sleep(i*100 ms) } else { break } }]. *)
Fixpoint confirm_loop (tmppath : string) (i n : nat) : St Zk unit :=
  match n with
  | 0 => st_ret tt
  | S n' =>
      r <- Session.Exists tmppath None ;;
      match r with
      | Ok true => st_ret tt
      | _ => Session.sleep (i * 100) ;; confirm_loop tmppath (S i) n'
      end
  end.

(** [innerCreatePath(tmppath, data, createType)]; [data = None] is a nil
    slice. *)
Definition innerCreatePath (tmppath : string) (data : option bytes)
    (createType : CreateType) : St Zk (res unit) :=
  r <- Session.Exists tmppath None ;;
  match r with
  | Ok false =>
      c <- Session.Create tmppath (default [] data) createType ;;
      match c with
      | Err e => st_ret (Err e)
      | Ok _ => confirm_loop tmppath 0 5 ;; st_ret (Ok tt)
      end
  | Err e => st_ret (Err e)
  | Ok true =>
      match data with
      | None => st_ret (Ok tt)
      | Some d =>
          s <- Session.SetData tmppath d ;;
          match s with
          | Err e => st_ret (Err e)
          | Ok _ => st_ret (Ok tt)
          end
      end
  end.

(** The loop of [traverseCreatePath] (lines 172-185) over the segments
    [v] with the accumulated [tmppath]: every segment but the last is
    created as a persistent node; the loop breaks at the last one. *)
Fixpoint traverse_loop (tmppath : string) (segs : list string) : St Zk (res string) :=
  match segs with
  | [] => st_ret (Ok tmppath)
  | [v] => st_ret (Ok (tmppath ++ v))
  | v :: rest =>
      _ <-? innerCreatePath (tmppath ++ v) None CreatePersistent ;;
      traverse_loop (tmppath ++ v ++ "/") rest
  end.

(** [traverseCreatePath(path, data, createType)] (lines 169-189); Go's
    [strings.Split(path, "/")[1:]] is [tail (Split path "/")]. *)
Definition traverseCreatePath (path : string) (data : option bytes)
    (createType : CreateType) : St Zk (res unit) :=
  tmppath <-? traverse_loop "/" (tail (Split path "/")) ;;
  innerCreatePath tmppath data createType.

(** [registePath(path, childpath, createType, data)] (lines 154-167). *)
Definition registePath (path childpath : string) (createType : CreateType)
    (data : option bytes) : St Zk (res string) :=
  _ <-? traverseCreatePath path None CreatePersistent ;;
  _ <-? innerCreatePath (path ++ "/" ++ childpath) data createType ;;
  st_ret (Ok (path ++ "/" ++ childpath)).

Close Scope string_scope.

(** ** Abstract specification: what registration does to the node tree *)

(** [innerCreatePath]'s contract: create the node when it is absent (nil
    data stored as empty), overwrite its data when it is present and the
    data is non-nil, keep it otherwise.  The mode of an existing node is
    never changed. *)
Definition put_node (m : gmap string Node) (p : string) (data : option bytes)
    (ct : CreateType) : gmap string Node :=
  match m !! p with
  | None => <[p := {| n_data := default [] data; n_mode := ct |}]> m
  | Some n =>
      match data with
      | None => m
      | Some d => <[p := {| n_data := d; n_mode := n_mode n |}]> m
      end
  end.

(** The paths of the prefixes ["/s1"], ["/s1/s2"], ... that the traversal
    visits, after the segments [l] already walked. *)
Fixpoint prefix_paths (l segs : list string) : list string :=
  match segs with
  | [] => []
  | v :: rest => node_of (l ++ [v]) :: prefix_paths (l ++ [v]) rest
  end.

Definition ensure_dirs (m : gmap string Node) (qs : list string) : gmap string Node :=
  fold_left (λ m q, put_node m q None CreatePersistent) qs m.

(** [registePath(node_of segs, child, ct, data)]'s contract. *)
Definition register_spec (m : gmap string Node) (segs : list string) (child : string)
    (data : option bytes) (ct : CreateType) : gmap string Node :=
  put_node (ensure_dirs m (prefix_paths [] segs)) (node_of (segs ++ [child])) data ct.

(** The nodes on the way are persistent where they exist (zk refuses
    children of an ephemeral node). *)
Definition dirs_persistent (m : gmap string Node) (qs : list string) : Prop :=
  ∀ q n, q ∈ qs → m !! q = Some n → n_mode n = CreatePersistent.

Definition dirs_persistentb (m : gmap string Node) (qs : list string) : bool :=
  forallb (λ q, match m !! q with
                | None => true
                | Some n => bool_decide (n_mode n = CreatePersistent)
                end) qs.

Lemma dirs_persistentb_sound m qs : dirs_persistentb m qs = true → dirs_persistent m qs.
Proof.
  intros H q n Hq Hn. apply forallb_forall with (x := q) in H; [|by apply list_elem_of_In].
  rewrite Hn in H. by apply bool_decide_eq_true in H.
Qed.

(** ** The code keeps the namespace a tree, whatever the oracle does *)

Lemma confirm_loop_wf p i n : preserves wf (confirm_loop p i n).
Proof. revert i; induction n; intros i; simpl; preserves_tac. Qed.
#[export] Hint Resolve confirm_loop_wf : kiteq.

Lemma innerCreatePath_wf p data ct : preserves wf (innerCreatePath p data ct).
Proof. unfold innerCreatePath. preserves_tac. Qed.
#[export] Hint Resolve innerCreatePath_wf : kiteq.

Lemma traverse_loop_wf t segs : preserves wf (traverse_loop t segs).
Proof. revert t; induction segs as [|v [|w segs] IH]; intros t; simpl; preserves_tac. Qed.
#[export] Hint Resolve traverse_loop_wf : kiteq.

Lemma registePath_wf path child ct data : preserves wf (registePath path child ct data).
Proof. unfold registePath, traverseCreatePath. preserves_tac. Qed.
#[export] Hint Resolve registePath_wf : kiteq.

(** ** With a calm oracle, the code implements the specification *)

Lemma confirm_loop_present p i n z :
  zk_env z = [] → valid_path p = true → is_Some (zk_nodes z !! p) →
  confirm_loop p i (S n) z = (tt, z).
Proof.
  intros He Hv Hp. cbn [confirm_loop]. unfold st_bind.
  rewrite Exists_calm by done. by rewrite bool_decide_eq_true_2.
Qed.

Lemma innerCreatePath_calm p data ct z :
  zk_env z = [] → valid_path p = true →
  (is_Some (zk_nodes z !! p) ∨
   ∃ pn, zk_nodes z !! parent_path p = Some pn ∧ n_mode pn = CreatePersistent) →
  (innerCreatePath p data ct z).1 = Ok tt ∧
  zk_nodes (innerCreatePath p data ct z).2 = put_node (zk_nodes z) p data ct ∧
  zk_env (innerCreatePath p data ct z).2 = [] ∧
  zk_clock (innerCreatePath p data ct z).2 = zk_clock z.
Proof.
  intros He Hv Hpre. unfold innerCreatePath, put_node, st_bind.
  rewrite Exists_calm by done. cbn [fst snd Session.add_watch].
  destruct (zk_nodes z !! p) as [n|] eqn:Hp.
  - rewrite bool_decide_eq_true_2 by done. destruct data as [d|]; [|done].
    rewrite SetData_calm, (set_ok _ _ _ n) by done. done.
  - rewrite bool_decide_eq_false_2 by (intros [? ?]; done).
    destruct Hpre as [[? ?]|[pn [Hpn Hm]]]; [done|].
    rewrite Create_calm, (create_ok _ _ _ _ pn) by done.
    destruct ct; cbn [Session.own_created fst snd];
      (rewrite confirm_loop_present; [done|done|done|]);
      simpl; rewrite lookup_insert_eq; done.
Qed.

(** *** Lemmas on the specification *)

Lemma put_node_lookup_ne m p q d ct : p ≠ q → put_node m p d ct !! q = m !! q.
Proof.
  intros H. unfold put_node.
  destruct (m !! p); [destruct d|]; try done; by rewrite lookup_insert_ne.
Qed.

Lemma put_node_dir_persistent m q :
  (∀ n, m !! q = Some n → n_mode n = CreatePersistent) →
  ∃ pn, put_node m q None CreatePersistent !! q = Some pn ∧ n_mode pn = CreatePersistent.
Proof.
  intros H. unfold put_node. destruct (m !! q) as [n|] eqn:E.
  - exists n. split; [done|]. by apply H.
  - rewrite lookup_insert_eq. by eexists.
Qed.

Lemma put_node_dirs_persistent m q qs :
  dirs_persistent m qs → dirs_persistent (put_node m q None CreatePersistent) qs.
Proof.
  intros H q' n Hq' Hn. unfold put_node in Hn. destruct (m !! q) eqn:E.
  - by apply (H q' n).
  - destruct (decide (q = q')) as [->|Hne].
    + rewrite lookup_insert_eq in Hn. by injection Hn as <-.
    + rewrite lookup_insert_ne in Hn by done. by apply (H q' n).
Qed.

Lemma ensure_dirs_dirs_persistent m qs qs' :
  dirs_persistent m qs' → dirs_persistent (ensure_dirs m qs) qs'.
Proof.
  revert m. induction qs as [|q qs IH]; intros m H; simpl; [done|].
  by apply IH, put_node_dirs_persistent.
Qed.

Lemma dirs_persistent_cons m q qs : dirs_persistent m (q :: qs) → dirs_persistent m qs.
Proof. intros H q' n Hq'. apply H. set_solver. Qed.

Lemma prefix_paths_snoc l segs v :
  prefix_paths l (segs ++ [v]) = prefix_paths l segs ++ [node_of (l ++ segs ++ [v])].
Proof.
  revert l. induction segs as [|s segs IH]; intros l; [done|].
  cbn [prefix_paths app]. rewrite IH. by rewrite <- app_assoc.
Qed.

Lemma dir_of_nil : dir_of [] = "/"%string.
Proof. reflexivity. Qed.

(** *** The traversal *)

Lemma traverse_loop_cons2 t v w rest :
  traverse_loop t (v :: w :: rest) =
  st_try (innerCreatePath (t ++ v)%string None CreatePersistent)
         (λ _, traverse_loop (t ++ v ++ "/")%string (w :: rest)).
Proof. reflexivity. Qed.

Lemma traverse_loop_calm l segs z :
  zk_env z = [] → segs ≠ [] → forallb seg_ok (l ++ segs) = true →
  (∃ pn, zk_nodes z !! node_of l = Some pn ∧ n_mode pn = CreatePersistent) →
  dirs_persistent (zk_nodes z) (prefix_paths l segs) →
  (traverse_loop (dir_of l) segs z).1 = Ok (node_of (l ++ segs)) ∧
  zk_nodes (traverse_loop (dir_of l) segs z).2 =
    ensure_dirs (zk_nodes z) (removelast (prefix_paths l segs)) ∧
  zk_env (traverse_loop (dir_of l) segs z).2 = [] ∧
  zk_clock (traverse_loop (dir_of l) segs z).2 = zk_clock z ∧
  (∃ pn, zk_nodes (traverse_loop (dir_of l) segs z).2 !! parent_path (node_of (l ++ segs)) = Some pn
         ∧ n_mode pn = CreatePersistent).
Proof.
  revert l z. induction segs as [|v [|w rest] IH]; intros l z He Hne Hok Hpar Hdirs; [done| |].
  - cbn [traverse_loop st_ret fst snd prefix_paths removelast ensure_dirs fold_left].
    rewrite dir_of_app, parent_node_of by done. done.
  - assert (forallb seg_ok (l ++ [v]) = true) as Hok1.
    { rewrite forallb_app in Hok |- *. apply andb_prop in Hok as [H1 H2].
      cbn in H2 |- *. apply andb_prop in H2 as [H2 _]. by rewrite H1, H2. }
    destruct (innerCreatePath_calm (node_of (l ++ [v])) None CreatePersistent z)
      as (Hr & Hn & He' & Hc); [done|by apply valid_node_of; [destruct l|]|
                                 right; by rewrite parent_node_of|].
    rewrite traverse_loop_cons2, st_try_run, dir_of_app, Hr, dir_of_snoc.
    specialize (IH (l ++ [v]) (innerCreatePath (node_of (l ++ [v])) None CreatePersistent z).2).
    rewrite <- app_assoc in IH. cbn [app] in IH.
    destruct IH as (IH1 & IH2 & IH3 & IH4 & IH5); try done.
    + rewrite Hn. apply put_node_dir_persistent. intros n Hn'.
      apply (Hdirs (node_of (l ++ [v])) n); [cbn; set_solver|done].
    + rewrite Hn. apply put_node_dirs_persistent. by eapply dirs_persistent_cons.
    + split_and!; try done.
      * rewrite IH2, Hn. done.
      * by rewrite IH4, Hc.
Qed.

Lemma ensure_dirs_snoc m qs q :
  ensure_dirs m (qs ++ [q]) = put_node (ensure_dirs m qs) q None CreatePersistent.
Proof. unfold ensure_dirs. by rewrite fold_left_app. Qed.

Lemma prefix_paths_last segs :
  segs ≠ [] → prefix_paths [] segs = removelast (prefix_paths [] segs) ++ [node_of segs].
Proof.
  intros Hne. destruct (exists_last Hne) as (init & v & ->).
  by rewrite prefix_paths_snoc, removelast_last.
Qed.

Lemma put_node_keep m q q' n ct :
  m !! q = Some n → put_node m q' None ct !! q = Some n.
Proof.
  intros Hq. destruct (decide (q' = q)) as [->|Hne].
  - unfold put_node. by rewrite Hq.
  - by rewrite put_node_lookup_ne.
Qed.

Lemma ensure_dirs_keep m qs q n : m !! q = Some n → ensure_dirs m qs !! q = Some n.
Proof.
  revert m. induction qs as [|q' qs IH]; intros m Hq; simpl; [done|].
  by apply IH, put_node_keep.
Qed.

(** After the traversal every visited prefix exists as a persistent node. *)
Lemma ensure_dirs_mem m qs q :
  q ∈ qs → dirs_persistent m qs →
  ∃ pn, ensure_dirs m qs !! q = Some pn ∧ n_mode pn = CreatePersistent.
Proof.
  revert m. induction qs as [|q0 qs IH]; intros m Hin Hd; [set_solver|].
  simpl. destruct (decide (q = q0)) as [->|Hne].
  - destruct (put_node_dir_persistent m q0) as [pn [Hpn Hm]].
    { intros n Hn. apply (Hd q0 n); [set_solver|done]. }
    exists pn. split; [by apply ensure_dirs_keep|done].
  - apply IH; [set_solver|]. apply put_node_dirs_persistent. by eapply dirs_persistent_cons.
Qed.

Lemma traverseCreatePath_calm segs z :
  wf z → zk_env z = [] → segs ≠ [] → forallb seg_ok segs = true →
  dirs_persistent (zk_nodes z) (prefix_paths [] segs) →
  (traverseCreatePath (node_of segs) None CreatePersistent z).1 = Ok tt ∧
  zk_nodes (traverseCreatePath (node_of segs) None CreatePersistent z).2 =
    ensure_dirs (zk_nodes z) (prefix_paths [] segs) ∧
  zk_env (traverseCreatePath (node_of segs) None CreatePersistent z).2 = [] ∧
  zk_clock (traverseCreatePath (node_of segs) None CreatePersistent z).2 = zk_clock z.
Proof.
  intros Hwf He Hne Hok Hd. unfold traverseCreatePath. rewrite st_try_run.
  rewrite Split_node_of by auto using segs_ok_no_sep. cbn [tail]. rewrite <- dir_of_nil.
  destruct (traverse_loop_calm [] segs z) as (H1 & H2 & H3 & H4 & H5); try done.
  { apply wf_root in Hwf. done. }
  rewrite H1. cbn [app] in *.
  destruct (innerCreatePath_calm (node_of segs) None CreatePersistent
              (traverse_loop (dir_of []) segs z).2) as (I1 & I2 & I3 & I4); try done.
  { by apply valid_node_of. }
  { by right. }
  split_and!; try done.
  - rewrite I2, H2, (prefix_paths_last segs Hne), ensure_dirs_snoc, removelast_last. done.
  - by rewrite I4, H4.
Qed.

(** With a calm oracle, [registePath] returns the leaf path and changes
    the node tree exactly as [register_spec] says. *)
Lemma registePath_calm segs child ct data z :
  wf z → zk_env z = [] → segs ≠ [] → forallb seg_ok (segs ++ [child]) = true →
  dirs_persistent (zk_nodes z) (prefix_paths [] segs) →
  (registePath (node_of segs) child ct data z).1 = Ok (node_of (segs ++ [child])) ∧
  zk_nodes (registePath (node_of segs) child ct data z).2 =
    register_spec (zk_nodes z) segs child data ct ∧
  zk_env (registePath (node_of segs) child ct data z).2 = [] ∧
  zk_clock (registePath (node_of segs) child ct data z).2 = zk_clock z.
Proof.
  intros Hwf He Hne Hok Hd.
  assert (forallb seg_ok segs = true) as Hok1 by (rewrite forallb_app in Hok; by apply andb_prop in Hok as [? _]).
  unfold registePath. rewrite st_try_run.
  destruct (traverseCreatePath_calm segs z) as (T1 & T2 & T3 & T4); try done.
  rewrite T1, st_try_run, node_of_snoc_child by done.
  destruct (innerCreatePath_calm (node_of (segs ++ [child])) data ct
              (traverseCreatePath (node_of segs) None CreatePersistent z).2)
    as (I1 & I2 & I3 & I4); try done.
  { apply valid_node_of; [by destruct segs|done]. }
  { right. rewrite parent_node_of, T2 by done. apply ensure_dirs_mem; [|done].
    rewrite (prefix_paths_last segs Hne). set_solver. }
  rewrite I1. cbn [st_ret fst snd]. split_and!; try done.
  - by rewrite I2, T2.
  - by rewrite I4, T4.
Qed.

(** *** More lemmas on the specification *)

Lemma put_node_is_Some m p d ct q : is_Some (m !! q) → is_Some (put_node m p d ct !! q).
Proof.
  intros [n Hn]. destruct (decide (p = q)) as [->|Hne].
  - unfold put_node. rewrite Hn. destruct d; [rewrite lookup_insert_eq|]; eauto.
  - rewrite put_node_lookup_ne; eauto.
Qed.

Lemma ensure_dirs_id m qs : (∀ q, q ∈ qs → is_Some (m !! q)) → ensure_dirs m qs = m.
Proof.
  revert m. induction qs as [|q qs IH]; intros m H; [done|]. simpl.
  assert (put_node m q None CreatePersistent = m) as ->.
  { unfold put_node. destruct (H q) as [n ->]; [set_solver|done]. }
  apply IH. intros q' Hq'. apply H. set_solver.
Qed.

Lemma put_node_twice m p d1 d2 ct :
  put_node (put_node m p d1 ct) p d2 ct =
  put_node m p (match d2 with Some _ => d2 | None => d1 end) ct.
Proof.
  unfold put_node. destruct (m !! p) as [n|] eqn:Hp.
  - destruct d1 as [d1|]; destruct d2 as [d2|]; rewrite ?Hp, ?lookup_insert_eq; simpl;
      by rewrite ?insert_insert_eq.
  - rewrite lookup_insert_eq. destruct d2; simpl; by rewrite ?insert_insert_eq.
Qed.

(** The node [put_node] leaves at its path. *)
Definition put_node_val (o : option Node) (data : option bytes) (ct : CreateType) : Node :=
  match o with
  | None => {| n_data := default [] data; n_mode := ct |}
  | Some n => match data with None => n | Some d => {| n_data := d; n_mode := n_mode n |} end
  end.

Lemma put_node_lookup_eq m p d ct : put_node m p d ct !! p = Some (put_node_val (m !! p) d ct).
Proof. unfold put_node. destruct (m !! p) eqn:E, d; rewrite ?lookup_insert_eq; done. Qed.

(** Registrations of different paths commute. *)
Lemma put_node_comm m p q dp dq cp cq :
  p ≠ q → put_node (put_node m p dp cp) q dq cq = put_node (put_node m q dq cq) p dp cp.
Proof.
  intros Hne. apply map_eq. intros k.
  destruct (decide (k = q)) as [->|Hkq]; [|destruct (decide (k = p)) as [->|Hkp]].
  - rewrite put_node_lookup_eq, !(put_node_lookup_ne _ p) by done.
    by rewrite put_node_lookup_eq.
  - rewrite (put_node_lookup_ne _ q) by done. rewrite !put_node_lookup_eq.
    by rewrite put_node_lookup_ne by done.
  - by rewrite !put_node_lookup_ne.
Qed.

(** A directory that exists is left alone. *)
Lemma put_node_present m q ct : is_Some (m !! q) → put_node m q None ct = m.
Proof. intros [n Hn]. unfold put_node. by rewrite Hn. Qed.

Lemma put_node_dirs_persistent_other m p d ct qs :
  p ∉ qs → dirs_persistent m qs → dirs_persistent (put_node m p d ct) qs.
Proof.
  intros Hp Hd q n Hq. rewrite put_node_lookup_ne by set_solver. by apply Hd.
Qed.

Lemma prefix_paths_elem l segs q :
  q ∈ prefix_paths l segs → ∃ s, q = node_of (l ++ s) ∧ s ≠ [] ∧ s `prefix_of` segs.
Proof.
  revert l. induction segs as [|v segs IH]; intros l Hq; [set_solver|].
  cbn [prefix_paths] in Hq. apply elem_of_cons in Hq as [->|Hq].
  - exists [v]. split_and!; [done|done|]. by apply prefix_cons, prefix_nil.
  - destruct (IH _ Hq) as (s & -> & Hs & Hpre). exists (v :: s).
    rewrite <- app_assoc. split_and!; [done|done|]. by apply prefix_cons.
Qed.

Lemma leaf_not_prefix segs c :
  forallb seg_ok (segs ++ [c]) = true → node_of (segs ++ [c]) ∉ prefix_paths [] segs.
Proof.
  intros Hok Hin. apply prefix_paths_elem in Hin as (s & E & Hs & Hpre).
  apply node_of_inj in E; [|by destruct segs|done|done|].
  - apply (f_equal Datatypes.length) in E. apply prefix_length in Hpre.
    rewrite length_app in E. simpl in E. lia.
  - apply forallb_forall. intros x Hx%list_elem_of_In.
    apply forallb_forall with (x := x) in Hok; [done|].
    apply list_elem_of_In, elem_of_app. left. by eapply elem_of_prefix.
Qed.

Lemma ensure_dirs_not_in m qs q : q ∉ qs → ensure_dirs m qs !! q = m !! q.
Proof.
  revert m. induction qs as [|q' qs IH]; intros m Hq; simpl; [done|].
  rewrite IH by set_solver. apply put_node_lookup_ne. set_solver.
Qed.

(** A path with more segments than [segs] is none of its prefixes. *)
Lemma longer_not_prefix l segs :
  length segs < length l → forallb seg_ok l = true → forallb seg_ok segs = true →
  node_of l ∉ prefix_paths [] segs.
Proof.
  intros Hlen Hok Hok' Hin. apply prefix_paths_elem in Hin as (s & E & Hs & Hpre).
  assert (forallb seg_ok s = true) as Hs'.
  { apply forallb_forall. intros x Hx%list_elem_of_In.
    apply forallb_forall with (x := x) in Hok'; [done|].
    apply list_elem_of_In. by eapply elem_of_prefix. }
  apply node_of_inj in E; [|by destruct l; simpl in Hlen; [lia|]|done|done|done].
  apply (f_equal Datatypes.length) in E. apply prefix_length in Hpre. simpl in E. lia.
Qed.

Lemma register_spec_dirs_persistent m segs c d ct qs :
  dirs_persistent m qs → node_of (segs ++ [c]) ∉ qs →
  dirs_persistent (register_spec m segs c d ct) qs.
Proof.
  intros Hd Hn. apply put_node_dirs_persistent_other; [done|].
  by apply ensure_dirs_dirs_persistent.
Qed.

Lemma register_spec_keep m segs c d ct q :
  is_Some (m !! q) → is_Some (register_spec m segs c d ct !! q).
Proof.
  intros [n Hn]. apply put_node_is_Some. rewrite (ensure_dirs_keep _ _ _ n); eauto.
Qed.

Lemma register_spec_leaf_is_Some m segs c d ct :
  is_Some (register_spec m segs c d ct !! node_of (segs ++ [c])).
Proof.
  unfold register_spec, put_node.
  destruct (ensure_dirs _ _ !! _) eqn:E; [destruct d|]; rewrite ?lookup_insert_eq; eauto.
Qed.

Lemma register_spec_lookup_other m segs c d ct q :
  q ≠ node_of (segs ++ [c]) → q ∉ prefix_paths [] segs →
  register_spec m segs c d ct !! q = m !! q.
Proof.
  intros Hq Hp. unfold register_spec. rewrite put_node_lookup_ne by done.
  by apply ensure_dirs_not_in.
Qed.

Lemma register_spec_leaf m segs c data ct :
  forallb seg_ok (segs ++ [c]) = true →
  register_spec m segs c (Some data) ct !! node_of (segs ++ [c]) =
  Some {| n_data := data;
          n_mode := match m !! node_of (segs ++ [c]) with None => ct | Some n => n_mode n end |}.
Proof.
  intros Hok. unfold register_spec, put_node.
  rewrite ensure_dirs_not_in by (by apply leaf_not_prefix).
  destruct (m !! _); by rewrite lookup_insert_eq.
Qed.

(** Registering the same leaf twice equals registering it once with the
    data of the second call, when it carries data. *)
Lemma register_spec_twice m segs c d1 d2 ct :
  forallb seg_ok (segs ++ [c]) = true →
  dirs_persistent m (prefix_paths [] segs) →
  register_spec (register_spec m segs c d1 ct) segs c d2 ct =
  register_spec m segs c (match d2 with Some _ => d2 | None => d1 end) ct.
Proof.
  intros Hok Hd. unfold register_spec.
  rewrite (ensure_dirs_id (put_node _ _ d1 ct)).
  - by rewrite put_node_twice.
  - intros q Hq. apply put_node_is_Some.
    destruct (ensure_dirs_mem m _ q Hq Hd) as [pn [-> _]]. eauto.
Qed.

(** *** Time spent in the confirmation poll *)

(** The total backoff of [n] attempts from attempt [i]: [i*100 + ... ]. *)
Fixpoint backoff (i n : nat) : nat :=
  match n with
  | 0 => 0
  | S n' => i * 100 + backoff (S i) n'
  end.

Lemma confirm_loop_clock p i n z : zk_clock (confirm_loop p i n z).2 ≤ zk_clock z + backoff i n.
Proof.
  revert i z. induction n as [|n IH]; intros i z; simpl; [lia|].
  unfold st_bind. pose proof (Exists_clock p None z) as Hc.
  destruct (Session.Exists p None z) as [r z1]. simpl in Hc.
  destruct r as [[]|e]; simpl; [lia| |];
    specialize (IH (S i) (set_clock (zk_clock z1 + i * 100) z1)); simpl in IH; lia.
Qed.

Arguments confirm_loop : simpl never.

(** ** Properties of the registrar *)

(** C1: with a calm oracle and a well-formed namespace, [registePath]
    implements its specification: it returns the leaf path
    [path + "/" + childpath], the node tree becomes [register_spec] of the
    old one, and the namespace stays a tree. *)
Theorem registePath_refines segs child ct data z :
  wf z → zk_env z = [] → segs ≠ [] → forallb seg_ok (segs ++ [child]) = true →
  dirs_persistent (zk_nodes z) (prefix_paths [] segs) →
  (registePath (node_of segs) child ct data z).1 = Ok (node_of segs ++ "/" ++ child)%string ∧
  zk_nodes (registePath (node_of segs) child ct data z).2 =
    register_spec (zk_nodes z) segs child data ct ∧
  wf (registePath (node_of segs) child ct data z).2.
Proof.
  intros Hwf He Hne Hok Hd.
  destruct (registePath_calm segs child ct data z) as (R1 & R2 & _); try done.
  rewrite node_of_snoc_child by done. split_and!; [done|done|]. by apply registePath_wf.
Qed.

(** C2: registration is idempotent (spec section 8.1): registering the
    same leaf twice succeeds both times, and the node tree is the one a
    single registration with the second call's data gives; the leaf holds
    that data. *)
Theorem registePath_idempotent segs child ct d1 d2 z :
  wf z → zk_env z = [] → segs ≠ [] → forallb seg_ok (segs ++ [child]) = true →
  dirs_persistent (zk_nodes z) (prefix_paths [] segs) →
  let z1 := (registePath (node_of segs) child ct (Some d1) z).2 in
  (registePath (node_of segs) child ct (Some d1) z).1 = Ok (node_of (segs ++ [child])) ∧
  (registePath (node_of segs) child ct (Some d2) z1).1 = Ok (node_of (segs ++ [child])) ∧
  zk_nodes (registePath (node_of segs) child ct (Some d2) z1).2 =
    zk_nodes (registePath (node_of segs) child ct (Some d2) z).2 ∧
  ∃ m, zk_nodes (registePath (node_of segs) child ct (Some d2) z1).2 !! node_of (segs ++ [child])
       = Some {| n_data := d2; n_mode := m |}.
Proof.
  intros Hwf He Hne Hok Hd z1.
  destruct (registePath_calm segs child ct (Some d1) z) as (A1 & A2 & A3 & _); try done.
  destruct (registePath_calm segs child ct (Some d2) z) as (C1 & C2 & _); try done.
  destruct (registePath_calm segs child ct (Some d2) z1) as (B1 & B2 & _); try done.
  { by apply registePath_wf. }
  { unfold z1. rewrite A2. unfold register_spec.
    apply put_node_dirs_persistent_other; [by apply leaf_not_prefix|].
    by apply ensure_dirs_dirs_persistent. }
  split_and!; try done.
  - rewrite B2, C2. unfold z1. by rewrite A2, register_spec_twice.
  - rewrite B2. unfold z1. rewrite A2, register_spec_twice by done.
    unfold register_spec, put_node.
    destruct (ensure_dirs _ _ !! _) as [n|]; rewrite lookup_insert_eq; eauto.
Qed.

(** C18: after a calm registration every prefix of the path exists as a
    persistent node (the data-model invariant of spec section 3), and the
    leaf holds the new data, or keeps its old data when the data is nil;
    an existing leaf keeps its create mode. *)
Theorem registePath_leaf segs child ct data z :
  wf z → zk_env z = [] → segs ≠ [] → forallb seg_ok (segs ++ [child]) = true →
  dirs_persistent (zk_nodes z) (prefix_paths [] segs) →
  let z' := (registePath (node_of segs) child ct data z).2 in
  (∀ q, q ∈ prefix_paths [] segs →
        ∃ pn, zk_nodes z' !! q = Some pn ∧ n_mode pn = CreatePersistent) ∧
  zk_nodes z' !! node_of (segs ++ [child]) =
    Some (match zk_nodes z !! node_of (segs ++ [child]) with
          | None => {| n_data := default [] data; n_mode := ct |}
          | Some n => {| n_data := default (n_data n) data; n_mode := n_mode n |}
          end).
Proof.
  intros Hwf He Hne Hok Hd z'.
  destruct (registePath_calm segs child ct data z) as (_ & R2 & _); try done.
  unfold z'. rewrite R2. unfold register_spec. split.
  - intros q Hq. rewrite put_node_lookup_ne.
    + by apply ensure_dirs_mem.
    + intros <-. by apply (leaf_not_prefix segs child).
  - assert (ensure_dirs (zk_nodes z) (prefix_paths [] segs) !! node_of (segs ++ [child]) =
            zk_nodes z !! node_of (segs ++ [child])) as Hleaf.
    { apply ensure_dirs_not_in. by apply leaf_not_prefix. }
    unfold put_node. rewrite Hleaf.
    destruct (zk_nodes z !! _) as [n|]; [destruct data|]; rewrite ?lookup_insert_eq; try done.
    by destruct n.
Qed.

(** C6: the exists-then-create step is not atomic.  When another client
    creates the node between this client's [Exists] and its [Create],
    [innerCreatePath] fails with [ErrNodeExists] although the node it was
    asked to ensure now exists; [registePath] then returns that error. *)
Theorem innerCreatePath_create_race p data ct d' m' es z :
  zk_env z = Calm :: Race (ExtCreate p d' m') :: es →
  valid_path p = true → zk_nodes z !! p = None →
  (∃ pn, zk_nodes z !! parent_path p = Some pn ∧ n_mode pn = CreatePersistent) →
  (innerCreatePath p data ct z).1 = Err ErrNodeExists ∧
  is_Some (zk_nodes (innerCreatePath p data ct z).2 !! p).
Proof.
  intros He Hv Hp [pn [Hpn Hm]]. unfold innerCreatePath, st_bind, Session.Exists.
  rewrite (call_calm_cons _ _ _ He). cbn [set_env zk_nodes]. rewrite Hv. cbn.
  rewrite bool_decide_eq_false_2 by (rewrite Hp; by intros []).
  unfold Session.Create. rewrite (call_race _ _ _ es) by done. cbn [Server.apply_ext].
  rewrite (create_ok p d' m' _ pn) by done. cbn [fst snd].
  rewrite (create_exists _ _ _ _ {| n_data := d'; n_mode := m' |}) by
    (done || (cbn [zk_nodes fire set_chans set_watches set_nodes]; apply lookup_insert_eq)).
  cbn [Session.own_created fst snd st_ret]. split; [done|].
  cbn [zk_nodes fire set_chans set_watches set_nodes]. rewrite lookup_insert_eq. by eexists.
Qed.

(** C27: the confirmation poll is bounded: whatever the service answers,
    one [innerCreatePath] sleeps at most 0+100+200+300+400 = 1000 ms. *)
Theorem innerCreatePath_backoff_bound p data ct z :
  zk_clock (innerCreatePath p data ct z).2 ≤ zk_clock z + 1000.
Proof.
  unfold innerCreatePath, st_bind. pose proof (Exists_clock p None z) as H0.
  destruct (Session.Exists p None z) as [[[]|e] z1]; simpl in H0 |- *; [| |lia].
  - destruct data as [d|]; simpl; [|lia].
    pose proof (SetData_clock p d z1) as H1.
    destruct (Session.SetData p d z1) as [[]]; simpl in *; lia.
  - pose proof (Create_clock p (default [] data) ct z1) as H1.
    destruct (Session.Create p (default [] data) ct z1) as [[] z2]; simpl in *; [|lia].
    pose proof (confirm_loop_clock p 0 5 z2) as H2.
    destruct (confirm_loop p 0 5 z2). simpl in *. lia.
Qed.

(** ** Witnesses: the hypotheses hold on a broker registering
    ["/kiteq/server/t1/h:1"] in a fresh namespace *)

Lemma registePath_refines_witness :
  dirs_persistent (zk_nodes (zk_init [])) (prefix_paths [] ["kiteq"; "server"; "t1"])%string ∧
  (registePath (node_of ["kiteq"; "server"; "t1"]) "h:1" CreateEphemeral None (zk_init [])).1
    = Ok (node_of ["kiteq"; "server"; "t1"] ++ "/" ++ "h:1")%string ∧
  zk_nodes (registePath (node_of ["kiteq"; "server"; "t1"]) "h:1" CreateEphemeral None (zk_init [])).2
    = register_spec (zk_nodes (zk_init [])) ["kiteq"; "server"; "t1"] "h:1" None CreateEphemeral ∧
  wf (registePath (node_of ["kiteq"; "server"; "t1"]) "h:1" CreateEphemeral None (zk_init [])).2.
Proof.
  split; [apply dirs_persistentb_sound; vm_compute; reflexivity|].
  apply registePath_refines;
    [apply zk_init_wf|reflexivity|discriminate|vm_compute; reflexivity
    |apply dirs_persistentb_sound; vm_compute; reflexivity].
Defined.

Lemma registePath_idempotent_witness :
  let z1 := (registePath (node_of ["kiteq"; "sub"; "t1"]) "g-bind" CreatePersistent
               (Some [Byte.x01]) (zk_init [])).2 in
  (registePath (node_of ["kiteq"; "sub"; "t1"]) "g-bind" CreatePersistent (Some [Byte.x01]) (zk_init [])).1
    = Ok (node_of ["kiteq"; "sub"; "t1"; "g-bind"]) ∧
  (registePath (node_of ["kiteq"; "sub"; "t1"]) "g-bind" CreatePersistent (Some [Byte.x02]) z1).1
    = Ok (node_of ["kiteq"; "sub"; "t1"; "g-bind"]) ∧
  zk_nodes (registePath (node_of ["kiteq"; "sub"; "t1"]) "g-bind" CreatePersistent (Some [Byte.x02]) z1).2
    = zk_nodes (registePath (node_of ["kiteq"; "sub"; "t1"]) "g-bind" CreatePersistent
                  (Some [Byte.x02]) (zk_init [])).2 ∧
  ∃ m, zk_nodes (registePath (node_of ["kiteq"; "sub"; "t1"]) "g-bind" CreatePersistent (Some [Byte.x02]) z1).2
         !! node_of ["kiteq"; "sub"; "t1"; "g-bind"]
       = Some {| n_data := [Byte.x02]; n_mode := m |}.
Proof.
  apply registePath_idempotent;
    [apply zk_init_wf|reflexivity|discriminate|vm_compute; reflexivity
    |apply dirs_persistentb_sound; vm_compute; reflexivity].
Defined.

Lemma registePath_leaf_witness :
  let z' := (registePath (node_of ["kiteq"; "server"; "t1"]) "h:1" CreateEphemeral None (zk_init [])).2 in
  (∀ q, q ∈ prefix_paths [] ["kiteq"; "server"; "t1"]%string →
        ∃ pn, zk_nodes z' !! q = Some pn ∧ n_mode pn = CreatePersistent) ∧
  zk_nodes z' !! node_of ["kiteq"; "server"; "t1"; "h:1"] =
    Some (match zk_nodes (zk_init []) !! node_of ["kiteq"; "server"; "t1"; "h:1"] with
          | None => {| n_data := default [] None; n_mode := CreateEphemeral |}
          | Some n => {| n_data := default (n_data n) None; n_mode := n_mode n |}
          end).
Proof.
  apply registePath_leaf;
    [apply zk_init_wf|reflexivity|discriminate|vm_compute; reflexivity
    |apply dirs_persistentb_sound; vm_compute; reflexivity].
Defined.

Lemma innerCreatePath_create_race_witness :
  (innerCreatePath "/kiteq" None CreatePersistent
     (zk_init [Calm; Race (ExtCreate "/kiteq" [] CreatePersistent)])).1 = Err ErrNodeExists ∧
  is_Some (zk_nodes (innerCreatePath "/kiteq" None CreatePersistent
     (zk_init [Calm; Race (ExtCreate "/kiteq" [] CreatePersistent)])).2 !! "/kiteq")%string.
Proof.
  apply (innerCreatePath_create_race "/kiteq" None CreatePersistent [] CreatePersistent []);
    [reflexivity|vm_compute; reflexivity|vm_compute; reflexivity|].
  eexists. split; [vm_compute; reflexivity|reflexivity].
Defined.

Lemma zk_init_dirs env qs : dirs_persistent (zk_nodes (zk_init env)) qs.
Proof. intros q n _. apply zk_init_dirs_persistent. Qed.
