(* ===== verification/Binding.v ===== *)
(** * Bindings and the binding codec

    The [Binding] struct and its codec ([MarshalBinds]/[UmarshalBinds])
    live in binding/binding.go, which is not among the sources: they are
    modelled from the spec (sections 3 and 6).  The codec is an interface,
    the class [BindingCodec], with the round-trip law of spec section 8.3
    as the class [BindingCodecLaws]; the theorems of the publishers and of
    the discovery queries are proved against it.  [byte_codec] is one
    instance with its round trip proved, used by the witnesses.

    [groupBind] is the grouping loop of [PublishBindings]
    (zk_manager.go lines 115-125). *)

From S2P Require Import Prelude.
Open Scope string_scope.

Record Binding := {
  GroupId : string;
  Topic : string;
  Rule : string;          (** the message-type filter of the binding *)
  Persistent : bool
}.

#[export] Instance Binding_eq_dec : EqDecision Binding.
Proof. solve_decision. Defined.

(** [b.GroupId = groupId]. *)
Definition set_group (groupId : string) (b : Binding) : Binding :=
  {| GroupId := groupId; Topic := Topic b; Rule := Rule b; Persistent := Persistent b |}.

Class BindingCodec := {
  MarshalBinds : list Binding → res bytes;
  UmarshalBinds : bytes → res (list Binding)
}.

(** Round-trip fidelity (spec 8.3): decoding an encoding gives the same
    bindings up to order. *)
Class BindingCodecLaws `{BindingCodec} := {
  codec_roundtrip : ∀ bs data, MarshalBinds bs = Ok data →
    ∃ bs', UmarshalBinds data = Ok bs' ∧ bs' ≡ₚ bs
}.

(** ** Grouping by topic (lines 115-125)
    [g, ok := groupBind[b.Topic]; if !ok { g = make(..) };
     b.GroupId = groupId; g = append(g, b); groupBind[b.Topic] = g]. *)
Definition group_step (groupId : string) (m : gmap string (list Binding)) (b : Binding) :
    gmap string (list Binding) :=
  <[Topic b := (default [] (m !! Topic b) ++ [set_group groupId b])%list]> m.

Definition groupBind (groupId : string) (bindings : list Binding) : gmap string (list Binding) :=
  fold_left (group_step groupId) bindings ∅.

(** The caller's bindings after the call: the loop writes [GroupId]
    through the pointers it was given. *)
Definition bindings_after_publish (groupId : string) (bindings : list Binding) : list Binding :=
  map (set_group groupId) bindings.

Lemma Topic_set_group g b : Topic (set_group g b) = Topic b.
Proof. done. Qed.

Lemma fold_group_lookup g bs m t :
  fold_left (group_step g) bs m !! t =
  match m !! t, filter (λ b, Topic b = t) bs with
  | None, [] => None
  | o, l => Some (default [] o ++ map (set_group g) l)%list
  end.
Proof.
  revert m. induction bs as [|b bs IH]; intros m; simpl.
  - destruct (m !! t); [by rewrite app_nil_r|done].
  - rewrite IH. unfold group_step. rewrite filter_cons.
    destruct (decide (Topic b = t)) as [<-|Hne].
    + rewrite lookup_insert_eq. simpl.
      destruct (m !! Topic b); simpl; f_equal; by rewrite <- app_assoc.
    + by rewrite lookup_insert_ne.
Qed.

(** ** A concrete codec: bytes tagged 01, strings ended by 00 *)
Module ByteCodec.
Local Close Scope string_scope.

Fixpoint enc_str (s : string) : bytes :=
  match s with
  | EmptyString => [Byte.x00]
  | String c s' => Byte.x01 :: byte_of_ascii c :: enc_str s'
  end.

Fixpoint dec_str (bs : bytes) : option (string * bytes) :=
  match bs with
  | Byte.x00 :: rest => Some (EmptyString, rest)
  | Byte.x01 :: b :: rest =>
      match dec_str rest with
      | Some (s, r) => Some (String (ascii_of_byte b) s, r)
      | None => None
      end
  | _ => None
  end.

Definition enc_binding (b : Binding) : bytes :=
  enc_str (GroupId b) ++ enc_str (Topic b) ++ enc_str (Rule b) ++
  [if Persistent b then Byte.x01 else Byte.x00].

Definition dec_binding (bs : bytes) : option (Binding * bytes) :=
  match dec_str bs with
  | None => None
  | Some (g, r1) =>
    match dec_str r1 with
    | None => None
    | Some (t, r2) =>
      match dec_str r2 with
      | None => None
      | Some (u, r3) =>
        match r3 with
        | Byte.x01 :: r4 => Some ({| GroupId := g; Topic := t; Rule := u; Persistent := true |}, r4)
        | Byte.x00 :: r4 => Some ({| GroupId := g; Topic := t; Rule := u; Persistent := false |}, r4)
        | _ => None
        end
      end
    end
  end.

Fixpoint enc_list (l : list Binding) : bytes :=
  match l with
  | [] => [Byte.x00]
  | b :: l' => Byte.x01 :: enc_binding b ++ enc_list l'
  end.

Fixpoint dec_list (fuel : nat) (bs : bytes) : option (list Binding * bytes) :=
  match fuel with
  | 0 => None
  | S fuel' =>
    match bs with
    | Byte.x00 :: rest => Some ([], rest)
    | Byte.x01 :: rest =>
        match dec_binding rest with
        | None => None
        | Some (b, r) =>
          match dec_list fuel' r with
          | Some (l, r') => Some (b :: l, r')
          | None => None
          end
        end
    | _ => None
    end
  end.

#[export] Instance byte_codec : BindingCodec := {
  MarshalBinds bs := Ok (enc_list bs);
  UmarshalBinds data :=
    match dec_list (S (length data)) data with
    | Some (l, []) => Ok l
    | _ => Err (ErrCodec "malformed bindings")
    end
}.

Lemma dec_enc_str s r : dec_str (enc_str s ++ r) = Some (s, r).
Proof. induction s as [|c s IH]; simpl; [done|]. by rewrite IH, ascii_of_byte_of_ascii. Qed.

Lemma dec_enc_binding b r : dec_binding (enc_binding b ++ r) = Some (b, r).
Proof.
  unfold enc_binding, dec_binding. rewrite <- !app_assoc, !dec_enc_str.
  by destruct b as [g t u []].
Qed.

Lemma dec_enc_list l r fuel :
  length l < fuel → dec_list fuel (enc_list l ++ r) = Some (l, r).
Proof.
  revert fuel. induction l as [|b l IH]; intros [|fuel] Hf; simpl in *; try lia; [done|].
  rewrite <- app_assoc, dec_enc_binding, IH by lia. done.
Qed.

Lemma enc_list_length l : length l < length (enc_list l).
Proof.
  induction l as [|b l IH]; simpl; [lia|]. rewrite length_app. lia.
Qed.

#[export] Instance byte_codec_laws : BindingCodecLaws.
Proof.
  split. intros bs data [= <-]. exists bs. split; [|done].
  pose proof (dec_enc_list bs [] (S (length (enc_list bs)))) as H.
  rewrite app_nil_r in H. cbn [UmarshalBinds byte_codec].
  rewrite H; [done|]. pose proof (enc_list_length bs). lia.
Qed.

End ByteCodec.

Lemma groupBind_Some g bs t l :
  groupBind g bs !! t = Some l → ∃ b, b ∈ bs ∧ Topic b = t.
Proof.
  unfold groupBind. rewrite fold_group_lookup, lookup_empty.
  destruct (filter _ bs) as [|b l'] eqn:E; [done|]. intros _.
  exists b. assert (b ∈ filter (λ b, Topic b = t) bs) as Hb by (rewrite E; set_solver).
  apply list_elem_of_filter in Hb as [? ?]. done.
Qed.

(** C26: grouping by topic (spec 8.2): the group of a topic is the
    bindings of that topic, in input order, with their [GroupId] set to
    the publishing group; a topic no binding has has no group. *)
Theorem groupBind_groups groupId bindings t :
  groupBind groupId bindings !! t =
  match filter (λ b, Topic b = t) bindings with
  | [] => None
  | l => Some (map (set_group groupId) l)
  end.
Proof. unfold groupBind. rewrite fold_group_lookup, lookup_empty. by destruct (filter _ _). Qed.
