(* ===== verification/Publisher.v ===== *)
(** * PresencePublisher and BindingPublisher

    zk_manager.go lines 11-16 (the namespace constants) and 81-151:
    [PublishQServer] registers an ephemeral [hostport] leaf under
    [/kiteq/server/<topic>] for every topic, [PublishTopics] one under
    [/kiteq/pub/<topic>/<groupId>], and [PublishBindings] groups the
    bindings by topic and registers one persistent [<groupId>-bind] leaf
    per topic holding the marshalled group.  Every loop returns the first
    error and abandons the remaining items.

    Go's [for topic, binds := range groupBind] visits the map in an
    unspecified order: [PublishBindings] takes that order as [range], and
    its theorems hold for every [range] that lists the map's entries. *)

From S2P Require Import Prelude GoStrings Coord Registrar Binding.
Open Scope string_scope.

Definition KITEQ : string := "/kiteq".
Definition KITEQ_SERVER : string := KITEQ ++ "/server".
Definition KITEQ_PUB : string := KITEQ ++ "/pub".
Definition KITEQ_SUB : string := KITEQ ++ "/sub".

(** [PublishQServer(hostport, topics)] (lines 82-95). *)
Definition PublishQServer (hostport : string) (topics : list string) : St Zk (res unit) :=
  st_for (λ topic,
    let qpath := KITEQ_SERVER ++ "/" ++ topic in
    _ <-? registePath qpath hostport CreateEphemeral None ;;
    st_ret (Ok tt)) topics.

(** [PublishTopics(topics, groupId, hostport)] (lines 98-110). *)
Definition PublishTopics (topics : list string) (groupId hostport : string) : St Zk (res unit) :=
  st_for (λ topic,
    let pubPath := KITEQ_PUB ++ "/" ++ topic ++ "/" ++ groupId in
    _ <-? registePath pubPath hostport CreateEphemeral None ;;
    st_ret (Ok tt)) topics.

Section PublishBindings.
Context `{BindingCodec}.

(** One iteration of [for topic, binds := range groupBind] (lines 128-148):
    the create type is always persistent, the branch on
    [binding.Persistent] being commented out (lines 135-138). *)
Definition publish_group (groupId : string) (tb : string * list Binding) : St Zk (res unit) :=
  let '(topic, binds) := tb in
  match MarshalBinds binds with
  | Err e => st_ret (Err e)
  | Ok data =>
      let createType := CreatePersistent in
      let path := KITEQ_SUB ++ "/" ++ topic in
      _ <-? registePath path (groupId ++ "-bind") createType (Some data) ;;
      st_ret (Ok tt)
  end.

(** [PublishBindings(groupId, bindings)] (lines 113-151). *)
Definition PublishBindings
    (range : gmap string (list Binding) → list (string * list Binding))
    (groupId : string) (bindings : list Binding) : St Zk (res unit) :=
  st_for (publish_group groupId) (range (groupBind groupId bindings)).

End PublishBindings.

Close Scope string_scope.

Lemma PublishQServer_wf hostport topics : preserves wf (PublishQServer hostport topics).
Proof. unfold PublishQServer. apply preserves_for. intros t. cbv zeta. preserves_tac. Qed.
#[export] Hint Resolve PublishQServer_wf : kiteq.

Lemma PublishBindings_wf `{BindingCodec} range g bs : preserves wf (PublishBindings range g bs).
Proof.
  unfold PublishBindings. apply preserves_for. intros [t b]. unfold publish_group.
  case_match; cbv zeta; preserves_tac.
Qed.
#[export] Hint Resolve PublishBindings_wf : kiteq.

(** ** The loops as registrations of one leaf per topic *)

Definition register_each {A} (dir : A → list string) (child : string) (ct : CreateType)
    (data : A → option bytes) (t : A) : St Zk (res unit) :=
  _ <-? registePath (node_of (dir t)) child ct (data t) ;; st_ret (Ok tt).

Definition server_dir (t : string) : list string := ["kiteq"; "server"; t]%string.
Definition pub_dir (g t : string) : list string := ["kiteq"; "pub"; t; g]%string.
Definition sub_dir (t : string) : list string := ["kiteq"; "sub"; t]%string.

Lemma PublishQServer_each hostport topics :
  PublishQServer hostport topics =
  st_for (register_each server_dir hostport CreateEphemeral (λ _, None)) topics.
Proof. reflexivity. Qed.

Lemma PublishTopics_each topics g hostport :
  PublishTopics topics g hostport =
  st_for (register_each (pub_dir g) hostport CreateEphemeral (λ _, None)) topics.
Proof. reflexivity. Qed.

Section RegisterEach.
Context {A : Type} (dir : A → list string) (child : string) (ct : CreateType)
        (data : A → option bytes) (topics : list A) (k : nat).

Definition each_spec (m : gmap string Node) (t : A) : gmap string Node :=
  register_spec m (dir t) child (data t) ct.

Lemma fold_each_keep ts m q : is_Some (m !! q) → is_Some (fold_left each_spec ts m !! q).
Proof.
  revert m. induction ts as [|t ts IH]; intros m Hq; simpl; [done|].
  apply IH. by apply register_spec_keep.
Qed.

Lemma fold_each_leaves ts m t :
  t ∈ ts → is_Some (fold_left each_spec ts m !! node_of (dir t ++ [child])).
Proof.
  revert m. induction ts as [|t' ts IH]; intros m Ht; [set_solver|]. simpl.
  apply elem_of_cons in Ht as [->|Ht]; [|by apply IH].
  apply fold_each_keep, register_spec_leaf_is_Some.
Qed.

(** All the directories have [k] valid segments. *)
Hypothesis dir_shape : ∀ t, t ∈ topics →
  dir t ≠ [] ∧ length (dir t) = k ∧ forallb seg_ok (dir t ++ [child]) = true.

Definition each_inv (z : Zk) : Prop :=
  wf z ∧ zk_env z = [] ∧
  ∀ t, t ∈ topics → dirs_persistent (zk_nodes z) (prefix_paths [] (dir t)).


Lemma register_each_step t z :
  t ∈ topics → each_inv z →
  (register_each dir child ct data t z).1 = Ok tt ∧
  zk_nodes (register_each dir child ct data t z).2 = each_spec (zk_nodes z) t ∧
  each_inv (register_each dir child ct data t z).2.
Proof.
  intros Ht (Hwf & He & Hd). destruct (dir_shape t Ht) as (Hne & Hk & Hok).
  unfold register_each. rewrite st_try_run.
  destruct (registePath_calm (dir t) child ct (data t) z) as (R1 & R2 & R3 & _); try done;
    [by apply Hd|].
  rewrite R1. cbn [st_ret fst snd]. split_and!; try done.
  split_and!; [by apply registePath_wf|done|]. intros t' Ht'. rewrite R2.
  apply register_spec_dirs_persistent; [by apply Hd|].
  destruct (dir_shape t' Ht') as (_ & Hk' & Hok').
  rewrite forallb_app in Hok'. apply andb_prop in Hok' as [Hok' _].
  apply longer_not_prefix; [rewrite length_app; simpl; lia|done|done].
Qed.

Lemma register_each_calm z :
  each_inv z →
  (st_for (register_each dir child ct data) topics z).1 = Ok tt ∧
  zk_nodes (st_for (register_each dir child ct data) topics z).2 =
    fold_left each_spec topics (zk_nodes z) ∧
  each_inv (st_for (register_each dir child ct data) topics z).2.
Proof.
  intros Hinv. apply (st_for_ok each_inv zk_nodes each_spec); [|done].
  intros t z' Ht Hz'. by apply register_each_step.
Qed.

(** The refinement shared by the presence publishers: success, the node
    tree as the fold of [each_spec], and every leaf present. *)
Lemma register_each_refines z :
  each_inv z →
  (st_for (register_each dir child ct data) topics z).1 = Ok tt ∧
  zk_nodes (st_for (register_each dir child ct data) topics z).2 =
    fold_left each_spec topics (zk_nodes z) ∧
  ∀ t, t ∈ topics →
    is_Some (zk_nodes (st_for (register_each dir child ct data) topics z).2 !! node_of (dir t ++ [child])).
Proof.
  intros Hinv. destruct (register_each_calm z Hinv) as (R1 & R2 & _).
  split_and!; [done|done|]. intros t Ht. rewrite R2. by apply fold_each_leaves.
Qed.

End RegisterEach.

Lemma seg_ok_forallb_mem ts t : forallb seg_ok ts = true → t ∈ ts → seg_ok t = true.
Proof. intros H Ht. apply forallb_forall with (x := t) in H; [done|]. by apply list_elem_of_In. Qed.

(** ** Properties of the presence publishers *)

(** C16: with a calm service, [PublishQServer] succeeds, its effect on the
    node tree is the registration of [/kiteq/server/<topic>/<hostport>]
    for each topic in turn, and every such presence node exists
    afterwards. *)
Theorem PublishQServer_refines hostport topics z :
  wf z → zk_env z = [] → seg_ok hostport = true → forallb seg_ok topics = true →
  (∀ t, t ∈ topics → dirs_persistent (zk_nodes z) (prefix_paths [] (server_dir t))) →
  (PublishQServer hostport topics z).1 = Ok tt ∧
  zk_nodes (PublishQServer hostport topics z).2 =
    fold_left (λ m t, register_spec m (server_dir t) hostport None CreateEphemeral)
              topics (zk_nodes z) ∧
  ∀ t, t ∈ topics →
    is_Some (zk_nodes (PublishQServer hostport topics z).2 !! node_of (server_dir t ++ [hostport])).
Proof.
  intros Hwf He Hh Hts Hd. rewrite PublishQServer_each.
  apply (register_each_refines server_dir hostport CreateEphemeral (λ _, None) topics 3); [|done].
  intros t Ht. split_and!; [done|done|]. simpl. by rewrite (seg_ok_forallb_mem topics t), Hh.
Qed.

(** ** The binding publisher *)

Section BindingPublisherProofs.
Context `{BindingCodec}.

Definition marshal_data (l : list Binding) : bytes :=
  match MarshalBinds l with Ok d => d | Err _ => [] end.

Definition sub_item_dir (tb : string * list Binding) : list string := sub_dir tb.1.
Definition sub_item_data (tb : string * list Binding) : option bytes := Some (marshal_data tb.2).

Lemma publish_group_each g tb :
  is_ok (MarshalBinds tb.2) = true →
  publish_group g tb =
  register_each sub_item_dir (g ++ "-bind")%string CreatePersistent sub_item_data tb.
Proof.
  destruct tb as [t l]. unfold publish_group, register_each, sub_item_data, marshal_data. simpl.
  by destruct (MarshalBinds l).
Qed.

Lemma sub_leaf_ne t t' c :
  t ≠ t' → seg_ok t = true → seg_ok t' = true → seg_ok c = true →
  node_of (sub_dir t ++ [c]) ≠ node_of (sub_dir t' ++ [c]).
Proof.
  intros Hne Ht Ht' Hc E. apply node_of_inj in E; try done; simpl; rewrite ?Ht, ?Ht', ?Hc; try done.
  by injection E.
Qed.

Lemma fold_sub_leaf_data c (items : list (string * list Binding)) m t l :
  NoDup (map fst items) → (t, l) ∈ items → Forall (λ x, seg_ok x.1 = true) items →
  seg_ok c = true →
  fold_left (each_spec sub_item_dir c CreatePersistent sub_item_data) items m
    !! node_of (sub_dir t ++ [c]) =
  Some {| n_data := marshal_data l;
          n_mode := match m !! node_of (sub_dir t ++ [c]) with
                    | None => CreatePersistent | Some n => n_mode n end |}.
Proof.
  revert m. induction items as [|[t' l'] items IH]; intros m Hnd Hin Hok Hc; [set_solver|].
  simpl in Hnd. apply NoDup_cons in Hnd as [Hnot Hnd].
  apply Forall_cons in Hok as [Ht' Hok]. simpl in Ht'. simpl.
  assert (∀ m', fold_left (each_spec sub_item_dir c CreatePersistent sub_item_data) items m'
                  !! node_of (sub_dir t' ++ [c]) = m' !! node_of (sub_dir t' ++ [c])) as Hkeep.
  { clear IH Hin. induction items as [|[u lu] items IH2]; intros m'; [done|]. simpl.
    apply Forall_cons in Hok as [Hu Hok]. simpl in Hu.
    apply NoDup_cons in Hnd as [_ Hnd]. rewrite IH2; [|set_solver|done|done].
    unfold each_spec, sub_item_dir. simpl. apply register_spec_lookup_other.
    - apply sub_leaf_ne; [set_solver|done|done|done].
    - apply longer_not_prefix; [simpl; lia| |]; simpl; by rewrite ?Ht', ?Hu, ?Hc. }
  apply elem_of_cons in Hin as [[= -> ->]|Hin].
  - rewrite Hkeep. unfold each_spec, sub_item_dir, sub_item_data. simpl.
    apply register_spec_leaf. simpl. by rewrite Ht', Hc.
  - assert (t ≠ t') as Htt.
    { intros ->. apply Hnot. apply list_elem_of_fmap. by exists (t', l). }
    assert (seg_ok t = true) as Ht.
    { rewrite Forall_forall in Hok. exact (Hok (t, l) Hin). }
    rewrite IH; [|done|done|done|done].
    unfold each_spec, sub_item_dir. simpl. rewrite register_spec_lookup_other; [done| |].
    + by apply sub_leaf_ne.
    + apply longer_not_prefix; [simpl; lia| |]; simpl; by rewrite ?Ht, ?Ht', ?Hc.
Qed.

(** ** [PublishBindings] with a calm service, for every iteration order *)

Section PublishBindingsCalm.
Context (range : gmap string (list Binding) → list (string * list Binding))
        (groupId : string) (bindings : list Binding) (z : Zk).
Hypotheses (Hrange : ∀ m, range m ≡ₚ map_to_list m) (Hwf : wf z) (He : zk_env z = [])
  (Hc : seg_ok (groupId ++ "-bind")%string = true)
  (Htop : Forall (λ b, seg_ok (Topic b) = true) bindings)
  (Hd : ∀ b, b ∈ bindings → dirs_persistent (zk_nodes z) (prefix_paths [] (sub_dir (Topic b))))
  (Hm : ∀ t l, groupBind groupId bindings !! t = Some l → is_ok (MarshalBinds l) = true).

Lemma range_items x :
  x ∈ range (groupBind groupId bindings) → groupBind groupId bindings !! x.1 = Some x.2.
Proof. destruct x as [t l]. rewrite (Hrange _). apply elem_of_map_to_list. Qed.

Lemma range_seg x : x ∈ range (groupBind groupId bindings) → seg_ok x.1 = true.
Proof.
  intros Hx. destruct (groupBind_Some _ _ _ _ (range_items x Hx)) as (b & Hb & <-).
  rewrite Forall_forall in Htop. by apply Htop.
Qed.

Lemma range_NoDup : NoDup (map fst (range (groupBind groupId bindings))).
Proof. rewrite (Hrange _). apply NoDup_fst_map_to_list. Qed.

(** The node tree after the call is the fold of the per-topic
    specification over the visited entries. *)
Lemma PublishBindings_fold :
  (PublishBindings range groupId bindings z).1 = Ok tt ∧
  zk_env (PublishBindings range groupId bindings z).2 = [] ∧
  zk_nodes (PublishBindings range groupId bindings z).2 =
    fold_left (each_spec sub_item_dir (groupId ++ "-bind")%string CreatePersistent sub_item_data)
              (range (groupBind groupId bindings)) (zk_nodes z).
Proof.
  unfold PublishBindings.
  rewrite (st_for_ext_in _ (register_each sub_item_dir (groupId ++ "-bind")%string
                              CreatePersistent sub_item_data))
    by (intros x Hx; apply publish_group_each, (Hm x.1), range_items, Hx).
  destruct (register_each_calm sub_item_dir (groupId ++ "-bind")%string CreatePersistent
              sub_item_data (range (groupBind groupId bindings)) 3) with (z := z)
    as (R1 & R2 & (_ & R3 & _)).
  { intros x Hx. split_and!; [done|done|]. simpl. by rewrite range_seg, Hc. }
  { split_and!; [done|done|]. intros x Hx.
    destruct (groupBind_Some _ _ _ _ (range_items x Hx)) as (b & Hb & Hbt).
    unfold sub_item_dir. rewrite <- Hbt. by apply Hd. }
  done.
Qed.

Lemma PublishBindings_calm :
  (PublishBindings range groupId bindings z).1 = Ok tt ∧
  zk_env (PublishBindings range groupId bindings z).2 = [] ∧
  ∀ t l data, groupBind groupId bindings !! t = Some l → MarshalBinds l = Ok data →
    zk_nodes (PublishBindings range groupId bindings z).2
      !! node_of (sub_dir t ++ [(groupId ++ "-bind")%string]) =
    Some {| n_data := data;
            n_mode := match zk_nodes z !! node_of (sub_dir t ++ [(groupId ++ "-bind")%string]) with
                      | None => CreatePersistent | Some n => n_mode n end |}.
Proof.
  destruct PublishBindings_fold as (R1 & R3 & R2).
  split_and!; [done|done|]. intros t l data Htl Hdata. rewrite R2.
  rewrite (fold_sub_leaf_data _ _ _ t l); [by unfold marshal_data; rewrite Hdata| | | |done].
  - apply range_NoDup.
  - rewrite (Hrange _). by apply elem_of_map_to_list.
  - apply Forall_forall. intros x Hx. by apply range_seg.
Qed.

End PublishBindingsCalm.

(** ** Independence of the map iteration order *)

Lemma node_of_neq l1 l2 :
  l1 ≠ [] → l2 ≠ [] → forallb seg_ok l1 = true → forallb seg_ok l2 = true →
  l1 ≠ l2 → node_of l1 ≠ node_of l2.
Proof. intros ???? Hne E. apply Hne. by apply node_of_inj. Qed.

(** One topic's registration, spelled out: the three directories, then
    the leaf. *)
Lemma each_spec_sub c m t l :
  each_spec sub_item_dir c CreatePersistent sub_item_data m (t, l) =
  put_node (put_node (put_node (put_node m (node_of ["kiteq"]) None CreatePersistent)
                               (node_of ["kiteq"; "sub"]) None CreatePersistent)
                     (node_of ["kiteq"; "sub"; t]) None CreatePersistent)
           (node_of ["kiteq"; "sub"; t; c]) (Some (marshal_data l)) CreatePersistent.
Proof. reflexivity. Qed.

Lemma put_node_here m p d ct : is_Some (put_node m p d ct !! p).
Proof. rewrite put_node_lookup_eq. by eexists. Qed.

(** On a tree that has [/kiteq] and [/kiteq/sub], a topic's registration
    creates the topic directory and writes the leaf. *)
Lemma each_spec_present c m t l :
  is_Some (m !! node_of ["kiteq"]) → is_Some (m !! node_of ["kiteq"; "sub"]) →
  each_spec sub_item_dir c CreatePersistent sub_item_data m (t, l) =
  put_node (put_node m (node_of ["kiteq"; "sub"; t]) None CreatePersistent)
           (node_of ["kiteq"; "sub"; t; c]) (Some (marshal_data l)) CreatePersistent.
Proof. intros Hk Hs. rewrite each_spec_sub, (put_node_present m) by done. by rewrite (put_node_present m (node_of ["kiteq"; "sub"])). Qed.

(** The registrations of two different topics commute. *)
Lemma each_spec_comm c m t1 l1 t2 l2 :
  t1 ≠ t2 → seg_ok t1 = true → seg_ok t2 = true → seg_ok c = true →
  each_spec sub_item_dir c CreatePersistent sub_item_data
    (each_spec sub_item_dir c CreatePersistent sub_item_data m (t1, l1)) (t2, l2) =
  each_spec sub_item_dir c CreatePersistent sub_item_data
    (each_spec sub_item_dir c CreatePersistent sub_item_data m (t2, l2)) (t1, l1).
Proof.
  intros Ht H1 H2 Hc.
  set (Y := put_node (put_node m (node_of ["kiteq"]) None CreatePersistent)
                     (node_of ["kiteq"; "sub"]) None CreatePersistent).
  rewrite (each_spec_present _ (each_spec _ _ _ _ m (t1, l1))), (each_spec_present _ (each_spec _ _ _ _ m (t2, l2)))
    by (rewrite each_spec_sub; repeat (first [apply put_node_here | apply put_node_is_Some])).
  rewrite !each_spec_sub. fold Y.
  assert (∀ a b, a ≠ b → seg_ok a = true → seg_ok b = true →
            node_of ["kiteq"; "sub"; a] ≠ node_of ["kiteq"; "sub"; b] ∧
            node_of ["kiteq"; "sub"; a; c] ≠ node_of ["kiteq"; "sub"; b; c] ∧
            node_of ["kiteq"; "sub"; a] ≠ node_of ["kiteq"; "sub"; b; c])%string as Hneq.
  { intros a b Hab Ha Hb.
    split_and!; apply node_of_neq; simpl; rewrite ?Ha, ?Hb, ?Hc; try done; congruence. }
  destruct (Hneq t1 t2) as (N1 & N2 & N3); [done..|].
  destruct (Hneq t2 t1) as (_ & _ & N4); [done..|].
  rewrite (put_node_comm _ (node_of ["kiteq"; "sub"; t1; c]) (node_of ["kiteq"; "sub"; t2])) by done.
  rewrite (put_node_comm _ (node_of ["kiteq"; "sub"; t1; c]) (node_of ["kiteq"; "sub"; t2; c])) by done.
  rewrite (put_node_comm _ (node_of ["kiteq"; "sub"; t1]) (node_of ["kiteq"; "sub"; t2])) by done.
  rewrite (put_node_comm _ (node_of ["kiteq"; "sub"; t1]) (node_of ["kiteq"; "sub"; t2; c])) by done.
  done.
Qed.

(** Folding the registrations over two orders of the same distinct
    topics gives the same node tree. *)
Lemma fold_each_perm c items1 items2 m :
  items1 ≡ₚ items2 → NoDup (map fst items1) → (∀ x, x ∈ items1 → seg_ok x.1 = true) →
  seg_ok c = true →
  fold_left (each_spec sub_item_dir c CreatePersistent sub_item_data) items1 m =
  fold_left (each_spec sub_item_dir c CreatePersistent sub_item_data) items2 m.
Proof.
  intros Hp Hnd Hseg Hc. rewrite <- !fold_left_rev_right.
  apply (foldr_permutation eq); [apply _|..].
  - intros j1 [t1 l1] j2 [t2 l2] b Hj Hl1 Hl2.
    apply list_elem_of_lookup_2 in Hl1 as Hi1. apply list_elem_of_lookup_2 in Hl2 as Hi2.
    rewrite list_elem_of_In, <- in_rev, <- list_elem_of_In in Hi1, Hi2.
    apply each_spec_comm; [|exact (Hseg _ Hi2)|exact (Hseg _ Hi1)|done].
    intros ->. apply Hj. apply (NoDup_lookup (map fst (rev items1)) j1 j2 t1).
    + rewrite map_rev, <- Permutation_rev. exact Hnd.
    + by rewrite list_lookup_fmap, Hl1.
    + by rewrite list_lookup_fmap, Hl2.
  - by rewrite <- !Permutation_rev.
Qed.

(** C4: [PublishBindings] writes one [<groupId>-bind] leaf per topic.
    For every order the Go map iteration may take, with a calm service
    and marshalling that succeeds, the call succeeds and the leaf
    [/kiteq/sub/<t>/<groupId>-bind] of every topic [t] holds the encoding
    of that topic's group; a new leaf is persistent whatever the bindings'
    [Persistent] flags say, an existing one keeps its mode. *)
Theorem PublishBindings_writes range groupId bindings z :
  (∀ m, range m ≡ₚ map_to_list m) →
  wf z → zk_env z = [] → seg_ok (groupId ++ "-bind")%string = true →
  Forall (λ b, seg_ok (Topic b) = true) bindings →
  (∀ b, b ∈ bindings → dirs_persistent (zk_nodes z) (prefix_paths [] (sub_dir (Topic b)))) →
  (∀ t l, groupBind groupId bindings !! t = Some l → is_ok (MarshalBinds l) = true) →
  (PublishBindings range groupId bindings z).1 = Ok tt ∧
  ∀ t l data, groupBind groupId bindings !! t = Some l → MarshalBinds l = Ok data →
    zk_nodes (PublishBindings range groupId bindings z).2
      !! node_of (sub_dir t ++ [(groupId ++ "-bind")%string]) =
    Some {| n_data := data;
            n_mode := match zk_nodes z !! node_of (sub_dir t ++ [(groupId ++ "-bind")%string]) with
                      | None => CreatePersistent | Some n => n_mode n end |}.
Proof. intros. edestruct PublishBindings_calm as (? & _ & ?); eauto. Qed.

End BindingPublisherProofs.

(** C24: [PublishQServer] returns the first registration error and does
    not attempt the topics after it (spec 4.3): the final state is the one
    right after the failed registration. *)
Theorem PublishQServer_first_error hostport xs t ys z e :
  (PublishQServer hostport xs z).1 = Ok tt →
  (registePath (KITEQ_SERVER ++ "/" ++ t)%string hostport CreateEphemeral None
     (PublishQServer hostport xs z).2).1 = Err e →
  PublishQServer hostport (xs ++ t :: ys) z =
  (Err e, (registePath (KITEQ_SERVER ++ "/" ++ t)%string hostport CreateEphemeral None
             (PublishQServer hostport xs z).2).2).
Proof.
  intros H1 H2. unfold PublishQServer in *.
  rewrite (st_for_stop _ xs t ys z e); [|exact H1|cbv zeta; by rewrite st_try_run, H2].
  cbv zeta. by rewrite st_try_run, H2.
Qed.

(** C33: with a calm service, [PublishTopics] succeeds, its effect on the
    node tree is the registration of the ephemeral
    [/kiteq/pub/<topic>/<groupId>/<hostport>] for each topic in turn, and
    every such publisher node exists afterwards. *)
Theorem PublishTopics_refines topics g hostport z :
  wf z → zk_env z = [] → seg_ok hostport = true → seg_ok g = true → forallb seg_ok topics = true →
  (∀ t, t ∈ topics → dirs_persistent (zk_nodes z) (prefix_paths [] (pub_dir g t))) →
  (PublishTopics topics g hostport z).1 = Ok tt ∧
  zk_nodes (PublishTopics topics g hostport z).2 =
    fold_left (λ m t, register_spec m (pub_dir g t) hostport None CreateEphemeral)
              topics (zk_nodes z) ∧
  ∀ t, t ∈ topics →
    is_Some (zk_nodes (PublishTopics topics g hostport z).2 !! node_of (pub_dir g t ++ [hostport])).
Proof.
  intros Hwf He Hh Hg Hts Hd. rewrite PublishTopics_each.
  apply (register_each_refines (pub_dir g) hostport CreateEphemeral (λ _, None) topics 4); [|done].
  intros t Ht. split_and!; [done|done|]. simpl. by rewrite (seg_ok_forallb_mem topics t), Hg, Hh.
Qed.

(** ** Witnesses *)

Lemma PublishQServer_refines_witness :
  (PublishQServer "h:1" ["t1"; "t2"] (zk_init [])).1 = Ok tt ∧
  zk_nodes (PublishQServer "h:1" ["t1"; "t2"] (zk_init [])).2 =
    fold_left (λ m t, register_spec m (server_dir t) "h:1" None CreateEphemeral)
              ["t1"; "t2"]%string (zk_nodes (zk_init [])) ∧
  ∀ t, t ∈ ["t1"; "t2"]%string →
    is_Some (zk_nodes (PublishQServer "h:1" ["t1"; "t2"] (zk_init [])).2
               !! node_of (server_dir t ++ ["h:1"%string])).
Proof.
  apply PublishQServer_refines;
    [apply zk_init_wf|reflexivity|reflexivity|reflexivity|intros; apply zk_init_dirs].
Defined.

Lemma PublishTopics_refines_witness :
  (PublishTopics ["t1"; "t2"] "G" "h:1" (zk_init [])).1 = Ok tt ∧
  zk_nodes (PublishTopics ["t1"; "t2"] "G" "h:1" (zk_init [])).2 =
    fold_left (λ m t, register_spec m (pub_dir "G" t) "h:1" None CreateEphemeral)
              ["t1"; "t2"]%string (zk_nodes (zk_init [])) ∧
  ∀ t, t ∈ ["t1"; "t2"]%string →
    is_Some (zk_nodes (PublishTopics ["t1"; "t2"] "G" "h:1" (zk_init [])).2
               !! node_of (pub_dir "G" t ++ ["h:1"%string])).
Proof.
  apply PublishTopics_refines;
    [apply zk_init_wf|reflexivity|reflexivity|reflexivity|reflexivity|intros; apply zk_init_dirs].
Defined.

Definition example_bindings : list Binding :=
  [ {| GroupId := ""; Topic := "A"; Rule := "rule1"; Persistent := true |};
    {| GroupId := ""; Topic := "A"; Rule := "rule2"; Persistent := false |};
    {| GroupId := ""; Topic := "B"; Rule := "rule3"; Persistent := false |} ]%string.

Lemma PublishBindings_writes_witness :
  (@PublishBindings ByteCodec.byte_codec map_to_list "G" example_bindings (zk_init [])).1 = Ok tt ∧
  ∀ t l data, groupBind "G" example_bindings !! t = Some l →
    @MarshalBinds ByteCodec.byte_codec l = Ok data →
    zk_nodes (@PublishBindings ByteCodec.byte_codec map_to_list "G" example_bindings (zk_init [])).2
      !! node_of (sub_dir t ++ [("G" ++ "-bind")%string]) =
    Some {| n_data := data;
            n_mode := match zk_nodes (zk_init []) !! node_of (sub_dir t ++ [("G" ++ "-bind")%string]) with
                      | None => CreatePersistent | Some n => n_mode n end |}.
Proof.
  apply PublishBindings_writes;
    [intros; reflexivity|apply zk_init_wf|reflexivity|reflexivity
    |repeat constructor|intros; apply zk_init_dirs|intros; reflexivity].
Defined.

Lemma PublishQServer_first_error_witness :
  PublishQServer "h:1" (["t1"] ++ "t2" :: ["t3"]) (zk_init (repeat Calm 14 ++ [Fault])) =
  (Err ErrConnectionClosed,
   (registePath (KITEQ_SERVER ++ "/" ++ "t2")%string "h:1" CreateEphemeral None
      (PublishQServer "h:1" ["t1"%string] (zk_init (repeat Calm 14 ++ [Fault]))).2).2).
Proof. apply PublishQServer_first_error; vm_compute; reflexivity. Defined.

(** C9: Go's random map order does not matter for the namespace.  Two
    runs of [PublishBindings] that visit the topics of the group in any
    two orders return the same result and leave the same node tree (the
    events they fire may come in different orders). *)
Theorem PublishBindings_order_independent `{BindingCodec} range1 range2 groupId bindings z :
  (∀ m, range1 m ≡ₚ map_to_list m) → (∀ m, range2 m ≡ₚ map_to_list m) →
  wf z → zk_env z = [] → seg_ok (groupId ++ "-bind")%string = true →
  Forall (λ b, seg_ok (Topic b) = true) bindings →
  (∀ b, b ∈ bindings → dirs_persistent (zk_nodes z) (prefix_paths [] (sub_dir (Topic b)))) →
  (∀ t l, groupBind groupId bindings !! t = Some l → is_ok (MarshalBinds l) = true) →
  (PublishBindings range1 groupId bindings z).1 = (PublishBindings range2 groupId bindings z).1 ∧
  zk_nodes (PublishBindings range1 groupId bindings z).2 =
    zk_nodes (PublishBindings range2 groupId bindings z).2.
Proof.
  intros Hr1 Hr2 Hwf He Hc Htop Hd Hm.
  destruct (PublishBindings_fold range1 groupId bindings z) as (A1 & _ & A3); try done.
  destruct (PublishBindings_fold range2 groupId bindings z) as (B1 & _ & B3); try done.
  rewrite A1, B1, A3, B3. split; [done|].
  apply fold_each_perm; [by rewrite Hr1, Hr2|by apply range_NoDup|by apply range_seg|done].
Qed.

(** C25: a marshalling failure aborts [PublishBindings] but undoes
    nothing: when the group of topic [t] does not marshal, the call
    returns that error in the state the topics visited before [t] left
    (their leaves stay written) and visits no topic after it.  Spec 4.4
    says a serialization failure aborts the call with "no partial commit
    across topics". *)
Theorem PublishBindings_partial_commit `{BindingCodec} range groupId bindings z before t l after e :
  range (groupBind groupId bindings) = before ++ (t, l) :: after →
  (st_for (publish_group groupId) before z).1 = Ok tt →
  MarshalBinds l = Err e →
  PublishBindings range groupId bindings z = (Err e, (st_for (publish_group groupId) before z).2).
Proof.
  intros Hr Hb Hm. unfold PublishBindings. rewrite Hr.
  rewrite (st_for_stop _ before (t, l) after z e Hb); unfold publish_group; rewrite Hm; done.
Qed.

(** A codec that refuses to encode a group holding a binding with the
    rule ["bad"]. *)
Definition picky_codec : BindingCodec := {|
  MarshalBinds bs := if existsb (λ b, String.eqb (Rule b) "bad") bs
                     then Err (ErrCodec "bad rule") else Ok [];
  UmarshalBinds _ := Ok []
|}.

Definition partial_bindings : list Binding :=
  [ {| GroupId := ""; Topic := "A"; Rule := "ok"; Persistent := true |};
    {| GroupId := ""; Topic := "B"; Rule := "bad"; Persistent := true |} ]%string.

Lemma PublishBindings_partial_commit_witness :
  @PublishBindings picky_codec map_to_list "G" partial_bindings (zk_init []) =
  (Err (ErrCodec "bad rule"),
   (st_for (@publish_group picky_codec "G")
      [("A"%string, [ {| GroupId := "G"; Topic := "A"; Rule := "ok"; Persistent := true |} ]%string)]
      (zk_init [])).2) ∧
  is_Some (zk_nodes (@PublishBindings picky_codec map_to_list "G" partial_bindings (zk_init [])).2
             !! "/kiteq/sub/A/G-bind"%string).
Proof.
  split.
  - apply (@PublishBindings_partial_commit picky_codec _ _ _ _ _ "B"
             [ {| GroupId := "G"; Topic := "B"; Rule := "bad"; Persistent := true |} ]%string []);
      vm_compute; reflexivity.
  - vm_compute. eexists. reflexivity.
Defined.

Lemma PublishBindings_order_independent_witness :
  (@PublishBindings ByteCodec.byte_codec map_to_list "G" example_bindings (zk_init [])).1 =
  (@PublishBindings ByteCodec.byte_codec (λ m, reverse (map_to_list m)) "G" example_bindings
     (zk_init [])).1 ∧
  zk_nodes (@PublishBindings ByteCodec.byte_codec map_to_list "G" example_bindings (zk_init [])).2 =
  zk_nodes (@PublishBindings ByteCodec.byte_codec (λ m, reverse (map_to_list m)) "G" example_bindings
              (zk_init [])).2.
Proof.
  apply PublishBindings_order_independent;
    [intros; reflexivity|intros; apply reverse_Permutation|apply zk_init_wf|reflexivity|reflexivity
    |repeat constructor|intros; apply zk_init_dirs|intros; reflexivity].
Defined.
