(* ===== verification/Watch.v ===== *)
(** * WatchSession / EventDispatcher: [addWatch] and its callbacks

    zk_manager.go lines 22-46 ([ZkEvent], [IWatcher], [Watcher],
    [NewWatcher]), 283-299 ([getBindData]) and 301-346 ([addWatch]).
    [addWatch] starts a goroutine that reads the watcher's channel forever;
    [handle_event] is the body of its [switch] for one event, [dispatch]
    one iteration of the loop (receive, then handle), [dispatch_loop] a
    bounded number of iterations (the goroutine blocks when the channel is
    empty).  [sys_step] interleaves the loop with the operations of other
    clients on the service, the concurrency of spec section 5.

    The callback interface [IWatcher] is a class over the state of the
    broker component that implements it; [Trace] is the instance that
    records the calls, used by the witnesses. *)

From S2P Require Import Prelude GoStrings Coord Binding.
Open Scope string_scope.

(** [ZkEvent] (lines 22-29). *)
Inductive ZkEvent := Created | Deleted | Changed | Child.
#[export] Instance ZkEvent_eq_dec : EqDecision ZkEvent.
Proof. solve_decision. Defined.

Definition ZkEvent_code (e : ZkEvent) : Z :=
  match e with Created => 1 | Deleted => 2 | Changed => 3 | Child => 4 end.

(** [IWatcher] (lines 32-35): the two callbacks, as updates of the state
    of the component implementing them. *)
Class IWatcher (W : Type) := {
  EventNotify : W → string → ZkEvent → list Binding → W;
  ChildWatcher : W → string → list string → W
}.

(** [Watcher] (lines 37-40): the callback object and the channel
    [make(chan zk.Event, 10)] the zk client delivers to. *)
Record Watcher (W : Type) := { watcher : W; zkwatcher : nat }.
Arguments watcher {W}.
Arguments zkwatcher {W}.

(** The capacity of the channel [NewWatcher] makes. *)
Definition zkwatcher_cap : nat := 10.

(** [NewWatcher(watcher)] (lines 43-46); [ch] is the fresh channel. *)
Definition NewWatcher {W} (w : W) (ch : nat) : Watcher W :=
  {| watcher := w; zkwatcher := ch |}.

Section Dispatcher.
Context `{BindingCodec} {W : Type} `{IWatcher W}.

(** [getBindData(path, zkwatcher)] (lines 283-299): [Get] with a watch,
    then decode; the decode result is returned as it is. *)
Definition getBindData (path : string) (zkwatcher : nat) : St Zk (res (list Binding)) :=
  bindData <-? Session.Get path (Some zkwatcher) ;;
  st_ret (UmarshalBinds bindData).

(** The test of the [zk.Changed] case (lines 317-319):
    [len(split) < 5 || strings.LastIndex(split[4], "-bind") <= 0] means
    "not a binding leaf". *)
Definition is_bind_path (path : string) : bool :=
  let split := Split path "/" in
  negb (length split <? 5)%nat && (0 <? LastIndex (nth 4 split "") "-bind")%Z.

(** The [switch change.Type] of the loop (lines 308-342), for the loop of
    [path] reading channel [c], with callback state [w]. *)
Definition handle_event (path : string) (c : nat) (w : W) (change : Event) : St Zk W :=
  match ev_type change with
  | EventNodeCreated =>
      _ <- Session.Exists path (Some c) ;;
      st_ret (EventNotify w path Created [])
  | EventNodeDeleted =>
      _ <- Session.Exists path (Some c) ;;
      st_ret (EventNotify w path Deleted [])
  | EventNodeDataChanged =>
      if negb (is_bind_path path) then
        _ <- Session.Exists path (Some c) ;; st_ret w
      else
        r <- getBindData path c ;;
        match r with
        | Err _ => st_ret w
        | Ok binding => st_ret (EventNotify w path Changed binding)
        end
  | EventNodeChildrenChanged =>
      r <- Session.Children path (Some c) ;;
      match r with
      | Err _ => st_ret w
      | Ok childnodes => st_ret (ChildWatcher w path childnodes)
      end
  | EventSession => st_ret w
  end.

End Dispatcher.

(** ** The channel: receiving from it *)

Definition chan_pop (c : nat) (z : Zk) : option (Event * Zk) :=
  match chan_queue (zk_chans z) c with
  | [] => None
  | e :: es => Some (e, set_chans (<[c := es]> (zk_chans z)) z)
  end.

Section Loop.
Context `{BindingCodec} {W : Type} `{IWatcher W}.

(** One iteration of [for { change := <-nwatcher.zkwatcher; switch ... }];
    [None] when the receive blocks. *)
Definition dispatch (path : string) (c : nat) (w : W) (z : Zk) : option (W * Zk) :=
  match chan_pop c z with
  | None => None
  | Some (e, z1) => Some (handle_event path c w e z1)
  end.

(** At most [fuel] iterations, stopping when the channel is empty. *)
Fixpoint dispatch_loop (fuel : nat) (path : string) (c : nat) (w : W) (z : Zk) : W * Zk :=
  match fuel with
  | 0 => (w, z)
  | S n =>
      match dispatch path c w z with
      | None => (w, z)
      | Some (w', z') => dispatch_loop n path c w' z'
      end
  end.

(** The system: the dispatch loops started by [addWatch] (the pairs
    [(path, channel)] of [zk_loops]) interleaved with other clients'
    updates. *)
Inductive sys_step : Zk * W → Zk * W → Prop :=
| sys_ext o z w :
    sys_step (z, w) (Server.apply_ext o z, w)
| sys_dispatch p c z w w' z' :
    (p, c) ∈ zk_loops z → dispatch p c w z = Some (w', z') →
    sys_step (z, w) (z', w').

End Loop.

(** [addWatch(path, nwatcher)] (lines 301-346): starts the loop. *)
Definition addWatch {W} (path : string) (nwatcher : Watcher W) : St Zk unit :=
  λ z, (tt, set_loops (zk_loops z ++ [(path, zkwatcher nwatcher)]) z).

Close Scope string_scope.

(** ** Abstract specification of one event: the callback made and the
    watch re-armed, from the node tree *)

Definition rearm (k : option WatchKind) (path : string) (c : nat) (z : Zk) : Zk :=
  match k with None => z | Some k => Session.add_watch k path (Some c) z end.

Section Spec.
Context `{BindingCodec} {W : Type} `{IWatcher W}.

Definition handle_spec (m : gmap string Node) (path : string) (w : W) (e : Event) :
    W * option WatchKind :=
  match ev_type e with
  | EventNodeCreated => (EventNotify w path Created [], Some WatchExist)
  | EventNodeDeleted => (EventNotify w path Deleted [], Some WatchExist)
  | EventNodeDataChanged =>
      if negb (is_bind_path path) then (w, Some WatchExist) else
      match m !! path with
      | None => (w, None)
      | Some n =>
          (match UmarshalBinds (n_data n) with
           | Ok b => EventNotify w path Changed b
           | Err _ => w
           end, Some WatchData)
      end
  | EventNodeChildrenChanged =>
      match m !! path with
      | None => (w, None)
      | Some _ => (ChildWatcher w path (children_of m path), Some WatchChild)
      end
  | EventSession => (w, None)
  end.

Lemma handle_event_calm_eq path c w e z :
  zk_env z = [] → valid_path path = true →
  handle_event path c w e z =
  ((handle_spec (zk_nodes z) path w e).1,
   rearm (handle_spec (zk_nodes z) path w e).2 path c z).
Proof.
  intros He Hv. unfold handle_event, handle_spec.
  destruct (ev_type e); unfold st_bind, st_ret;
    rewrite ?Exists_calm, ?Children_calm by done; try done.
  - destruct (is_bind_path path); simpl; [|by rewrite Exists_calm].
    unfold getBindData, st_try, st_bind. rewrite Get_calm by done.
    destruct (zk_nodes z !! path) as [n|]; simpl; [|done].
    by destruct (UmarshalBinds (n_data n)).
  - destruct (zk_nodes z !! path); done.
Qed.

End Spec.

(** The callbacks a component receives, recorded in order. *)
Inductive Callback :=
| CbNotify (path : string) (k : ZkEvent) (binds : list Binding)
| CbChild (path : string) (children : list string).

#[export] Instance Trace : IWatcher (list Callback) := {
  EventNotify w p k bs := (w ++ [CbNotify p k bs])%list;
  ChildWatcher w p cs := (w ++ [CbChild p cs])%list
}.

Section LoopProofs.
Context `{BindingCodec} {W : Type} `{IWatcher W}.

Lemma chan_pop_cons c z e es :
  chan_queue (zk_chans z) c = e :: es →
  chan_pop c z = Some (e, set_chans (<[c := es]> (zk_chans z)) z).
Proof. intros Hq. unfold chan_pop. by rewrite Hq. Qed.

Lemma rearm_nodes k p c z : zk_nodes (rearm k p c z) = zk_nodes z.
Proof. destruct k as [[]|]; simpl; try done; apply add_watch_nodes. Qed.
Lemma rearm_env k p c z : zk_env (rearm k p c z) = zk_env z.
Proof. destruct k as [[]|]; simpl; try done; apply add_watch_env. Qed.
Lemma rearm_chans k p c z : zk_chans (rearm k p c z) = zk_chans z.
Proof. by destruct k as [[]|]. Qed.
Lemma rearm_loops k p c z : zk_loops (rearm k p c z) = zk_loops z.
Proof. by destruct k as [[]|]. Qed.

(** A calm run of the loop is the fold of [handle_spec] over the queue. *)
Lemma dispatch_loop_calm n path c w z :
  zk_env z = [] → valid_path path = true → length (chan_queue (zk_chans z) c) ≤ n →
  (dispatch_loop n path c w z).1 =
    fold_left (λ w e, (handle_spec (zk_nodes z) path w e).1) (chan_queue (zk_chans z) c) w ∧
  chan_queue (zk_chans (dispatch_loop n path c w z).2) c = [] ∧
  zk_nodes (dispatch_loop n path c w z).2 = zk_nodes z.
Proof.
  intros He Hv. remember (chan_queue (zk_chans z) c) as q eqn:Hq.
  revert n w z He Hq. induction q as [|e q IH]; intros n w z He Hq Hn.
  - destruct n; simpl; [done|]. unfold dispatch, chan_pop. by rewrite <- Hq.
  - destruct n as [|n]; simpl in Hn; [lia|]. cbn [dispatch_loop].
    unfold dispatch. rewrite (chan_pop_cons c z e q) by done.
    rewrite handle_event_calm_eq by done. cbn [fst snd].
    set (z1 := set_chans (<[c := q]> (zk_chans z)) z).
    destruct (IH n (handle_spec (zk_nodes z1) path w e).1
                 (rearm (handle_spec (zk_nodes z1) path w e).2 path c z1))
      as (R1 & R2 & R3).
    + by rewrite rearm_env.
    + rewrite rearm_chans. unfold chan_queue. simpl. by rewrite lookup_insert_eq.
    + lia.
    + rewrite rearm_nodes in R1, R3. simpl in R1, R3. done.
Qed.

(** C5: with a calm service, the dispatch loop of [path] on channel [c]
    handles the queued events one by one in the order they were
    delivered, makes for each the callback [handle_spec] says, and ends
    with the channel drained (enough iterations are the queue's length);
    the node tree is left unchanged. *)
Theorem dispatch_loop_fifo n path c w z :
  zk_env z = [] → valid_path path = true → length (chan_queue (zk_chans z) c) ≤ n →
  (dispatch_loop n path c w z).1 =
    fold_left (λ w e, (handle_spec (zk_nodes z) path w e).1) (chan_queue (zk_chans z) c) w ∧
  chan_queue (zk_chans (dispatch_loop n path c w z).2) c = [] ∧
  zk_nodes (dispatch_loop n path c w z).2 = zk_nodes z.
Proof. apply dispatch_loop_calm. Qed.

(** C17: the loop never silently stops watching a path on a node event
    (spec 4.5, 5 and 8.5): with a calm service, after a Created or
    Deleted event it notifies the callback and re-arms an existence
    watch, and after a Changed event on a path that is not a binding leaf
    it makes no callback and re-arms an existence watch. *)
Theorem handle_event_rearms path c w e z :
  zk_env z = [] → valid_path path = true →
  ev_type e = EventNodeCreated ∨ ev_type e = EventNodeDeleted ∨
  (ev_type e = EventNodeDataChanged ∧ is_bind_path path = false) →
  {| w_kind := WatchExist; w_path := path; w_chan := c |} ∈ zk_watches (handle_event path c w e z).2 ∧
  (handle_event path c w e z).1 =
    match ev_type e with
    | EventNodeCreated => EventNotify w path Created []
    | EventNodeDeleted => EventNotify w path Deleted []
    | _ => w
    end.
Proof.
  intros He Hv Hk. rewrite handle_event_calm_eq by done. unfold handle_spec.
  destruct Hk as [Hk|[Hk|[Hk Hb]]]; rewrite Hk; [| |rewrite Hb]; simpl; split; try done;
    apply elem_of_app; right; set_solver.
Qed.

(** A data change on a path with fewer than five segments never
    reaches the callback, whatever the service does: the loop only
    re-arms. *)
Lemma changed_shallow_no_callback path c w e z :
  length (Split path "/") < 5 → ev_type e = EventNodeDataChanged →
  (handle_event path c w e z).1 = w.
Proof.
  intros Hlen Hk. unfold handle_event. rewrite Hk.
  assert (is_bind_path path = false) as ->.
  { unfold is_bind_path. by rewrite (proj2 (Nat.ltb_lt _ _) Hlen). }
  unfold st_bind, st_ret. simpl. by destruct (Session.Exists path (Some c) z).
Qed.

End LoopProofs.

Section Kinds.
Context `{BindingCodec}.

(** C14: [type ZkEvent zk.EventType]: the loop's switch converts the native
    event type to the [ZkEvent] it reports without changing the code.  Each
    event adds at most one callback to the trace, under any answer of the
    service: an [EventNotify] whose kind has the code of the received
    event's type, or a [ChildWatcher] for a children event only. *)
Theorem handle_event_kind_code p c (w : list Callback) e z :
  let w' := (handle_event p c w e z).1 in
  w' = w ∨
  (∃ k bs, w' = w ++ [CbNotify p k bs] ∧ ZkEvent_code k = EventType_code (ev_type e)) ∨
  (∃ cs, w' = w ++ [CbChild p cs] ∧ ev_type e = EventNodeChildrenChanged).
Proof.
  unfold handle_event, st_bind, st_ret. destruct (ev_type e) eqn:Et;
    repeat (case_match; simpl); eauto 10.
Qed.

End Kinds.

(** C15: the binding-leaf test of the [zk.Changed] case
    ([len(split) < 5 || strings.LastIndex(split[4], "-bind") <= 0] negated)
    holds exactly when the path has at least five ["/"]-pieces and the
    fifth contains ["-bind"] at a position other than its first byte.  The
    segment need not end in ["-bind"], as spec 4.5 says it must. *)
Theorem is_bind_path_spec path :
  is_bind_path path = true ↔
  5 ≤ length (Split path "/"%char) ∧
  ∃ pre post, nth 4 (Split path "/"%char) ""%string = (pre ++ "-bind" ++ post)%string ∧ pre ≠ ""%string.
Proof.
  unfold is_bind_path.
  by rewrite andb_true_iff, negb_true_iff, Nat.ltb_ge, Z.ltb_lt, LastIndex_pos.
Qed.

(** The two ways the code's test departs from "the fifth segment ends in
    [-bind]": a segment with text after [-bind] is a binding leaf, a
    segment that is just [-bind] is not. *)
Lemma is_bind_path_not_suffix :
  is_bind_path "/kiteq/sub/A/G-bind.old" = true ∧ is_bind_path "/kiteq/sub/A/-bind" = false.
Proof. split; vm_compute; reflexivity. Qed.

(** ** Losing the children watch *)

(** Nothing can route a children-changed event to channel [c]: no child
    watch delivers to [c] and none is queued on it. *)
Definition no_child_route (c : nat) (z : Zk) : Prop :=
  (∀ wt, wt ∈ zk_watches z → w_chan wt = c → w_kind wt ≠ WatchChild) ∧
  (∀ e, e ∈ chan_queue (zk_chans z) c → ev_type e ≠ EventNodeChildrenChanged).

Lemma enqueue_fold_elem e cs ch c x :
  x ∈ chan_queue (fold_left (enqueue e) cs ch) c → x ∈ chan_queue ch c ∨ (x = e ∧ c ∈ cs).
Proof.
  revert ch. induction cs as [|c' cs IH]; intros ch Hx; simpl in *; [by left|].
  apply IH in Hx as [Hx|[-> Hc]]; [|right; set_solver].
  unfold enqueue, chan_queue in Hx. destruct (decide (c' = c)) as [->|Hne].
  - rewrite lookup_insert_eq in Hx. simpl in Hx. apply elem_of_app in Hx as [Hx|Hx]; [by left|].
    right. set_solver.
  - rewrite lookup_insert_ne in Hx by done. by left.
Qed.

Lemma fire_no_child_route c t p z : no_child_route c z → no_child_route c (fire t p z).
Proof.
  intros [Hw Hq]. split; simpl.
  - intros wt Hwt. apply list_elem_of_filter in Hwt as [_ Hwt]. by apply Hw.
  - intros x Hx. apply enqueue_fold_elem in Hx as [Hx|[-> Hc]]; [by apply Hq|].
    simpl. intros Ht. subst t.
    apply list_elem_of_fmap in Hc as (wt & -> & Hwt).
    apply list_elem_of_filter in Hwt as [Htr Hwt]. unfold triggers in Htr.
    apply bool_decide_eq_true in Htr as [_ Hk]. simpl in Hk.
    apply (Hw wt Hwt eq_refl). set_solver.
Qed.

Lemma no_child_route_nodes c z m : no_child_route c z → no_child_route c (set_nodes m z).
Proof. done. Qed.
Lemma no_child_route_env c z es : no_child_route c z → no_child_route c (set_env es z).
Proof. done. Qed.

Lemma apply_ext_no_child_route c o z : no_child_route c z → no_child_route c (Server.apply_ext o z).
Proof.
  intros Hz. destruct o as [p d m|p d|p]; simpl.
  - unfold Server.create. repeat case_match; simpl; auto using fire_no_child_route, no_child_route_nodes.
  - unfold Server.set. repeat case_match; simpl; auto using fire_no_child_route, no_child_route_nodes.
  - unfold Server.delete. repeat case_match; simpl; auto using fire_no_child_route, no_child_route_nodes.
Qed.

Lemma call_no_child_route {A} c (op : Zk → res A * Zk) :
  (∀ z, no_child_route c z → no_child_route c (op z).2) →
  preserves (no_child_route c) (Session.call op).
Proof.
  intros Hop z Hz. unfold Session.call, Session.env_step.
  destruct (zk_env z) as [|[| |o] es]; simpl;
    auto using no_child_route_env, apply_ext_no_child_route.
Qed.

Lemma add_watch_no_child_route c k p w z :
  k ≠ WatchChild ∨ w ≠ Some c → no_child_route c z → no_child_route c (Session.add_watch k p w z).
Proof.
  intros Hk [Hw Hq]. destruct w as [c'|]; [|done]. split; [|done]. simpl.
  intros wt Hwt. apply elem_of_app in Hwt as [Hwt|Hwt]; [by apply Hw|].
  apply list_elem_of_singleton in Hwt as ->. simpl. intros -> ->. naive_solver.
Qed.

Lemma Exists_no_child_route c p w : preserves (no_child_route c) (Session.Exists p w).
Proof.
  apply call_no_child_route. intros z Hz. destruct (valid_path p); cbn [fst snd negb]; [|done].
  apply add_watch_no_child_route; [by left|done].
Qed.

Lemma Get_no_child_route c p w : preserves (no_child_route c) (Session.Get p w).
Proof.
  apply call_no_child_route. intros z Hz. repeat case_match; cbn [fst snd]; try done.
  apply add_watch_no_child_route; [by left|done].
Qed.

Lemma Children_other_no_child_route c c' p : c' ≠ c → preserves (no_child_route c) (Session.Children p (Some c')).
Proof.
  intros Hc. apply call_no_child_route. intros z Hz. repeat case_match; cbn [fst snd]; try done.
  apply add_watch_no_child_route; [right; congruence|done].
Qed.

#[local] Hint Resolve Exists_no_child_route Get_no_child_route Children_other_no_child_route : kiteq.

Section ChildLoss.
Context `{BindingCodec} {W : Type} `{IWatcher W}.

Lemma getBindData_no_child_route c p c' : preserves (no_child_route c) (getBindData p c').
Proof. unfold getBindData. preserves_tac. Qed.
#[local] Hint Resolve getBindData_no_child_route : kiteq.

Lemma handle_event_no_child_route c c' p (w : W) e :
  c' ≠ c ∨ ev_type e ≠ EventNodeChildrenChanged →
  preserves (no_child_route c) (handle_event p c' w e).
Proof.
  intros Hce. unfold handle_event.
  destruct (ev_type e) eqn:Et; [preserves_tac|preserves_tac|preserves_tac| |preserves_tac].
  apply preserves_bind; [|intros; preserves_tac].
  apply Children_other_no_child_route. destruct Hce as [?|?]; congruence.
Qed.

Lemma chan_pop_no_child_route c c' z e z1 :
  chan_pop c' z = Some (e, z1) → no_child_route c z →
  no_child_route c z1 ∧ (c' = c → ev_type e ≠ EventNodeChildrenChanged).
Proof.
  unfold chan_pop. destruct (chan_queue (zk_chans z) c') as [|e' es] eqn:Hq; [done|].
  intros [= <- <-] [Hw Hqc]. split; [split|].
  - done.
  - intros x Hx. unfold chan_queue in Hx. simpl in Hx.
    destruct (decide (c' = c)) as [->|Hne].
    + rewrite lookup_insert_eq in Hx. apply Hqc. unfold chan_queue in Hq |- *. rewrite Hq. set_solver.
    + rewrite lookup_insert_ne in Hx by done. by apply Hqc.
  - intros ->. apply Hqc. rewrite Hq. set_solver.
Qed.

Lemma sys_step_no_child_route c (s s' : Zk * W) :
  sys_step s s' → no_child_route c s.1 → no_child_route c s'.1.
Proof.
  intros Hs. destruct Hs as [o z w|p c' z w w' z' Hl Hd]; simpl; intros Hz.
  - by apply apply_ext_no_child_route.
  - unfold dispatch in Hd. destruct (chan_pop c' z) as [[e z1]|] eqn:Hp; [|done].
    injection Hd as Hd. destruct (chan_pop_no_child_route c c' z e z1 Hp Hz) as [Hz1 Hne].
    replace z' with (handle_event p c' w e z1).2 by (by rewrite Hd).
    apply handle_event_no_child_route; [|done].
    destruct (decide (c' = c)) as [->|?]; [right; by apply Hne|by left].
Qed.

(** C7: a failed re-fetch loses the children watch for good (spec 7
    says the watch stays armed where the read re-arms it).  When the
    [Children] call of the [zk.Child] case fails (here a connection
    fault), the loop makes no callback and arms nothing; from then on, in
    every run of the system (other clients' updates, any dispatch loops),
    no children-changed event is ever received on that channel, so
    [ChildWatcher] is never called again for it. *)
Theorem child_refetch_fault_loses_children p c (w : W) e z z1 es z' w' :
  chan_pop c z = Some (e, z1) → ev_type e = EventNodeChildrenChanged →
  zk_env z1 = Fault :: es → no_child_route c z1 →
  star sys_step ((handle_event p c w e z1).2, (handle_event p c w e z1).1) (z', w') →
  (handle_event p c w e z1).1 = w ∧
  ∀ e' z1', chan_pop c z' = Some (e', z1') → ev_type e' ≠ EventNodeChildrenChanged.
Proof.
  intros Hp Ht He Hn Hs.
  assert (handle_event p c w e z1 = (w, set_env es z1)) as Hh.
  { unfold handle_event. rewrite Ht. unfold st_bind, Session.Children.
    by rewrite (call_fault _ _ es He). }
  rewrite Hh in Hs |- *. split; [done|].
  apply (star_invariant _ (λ s, no_child_route c s.1)) in Hs;
    [|intros; by eapply sys_step_no_child_route|by apply no_child_route_env].
  intros e' z1' Hp'. by apply (chan_pop_no_child_route c c z' e' z1' Hp' Hs).
Qed.

End ChildLoss.

Definition no_child_routeb (c : nat) (z : Zk) : bool :=
  forallb (λ wt, negb (bool_decide (w_chan wt = c ∧ w_kind wt = WatchChild))) (zk_watches z) &&
  forallb (λ e, negb (bool_decide (ev_type e = EventNodeChildrenChanged))) (chan_queue (zk_chans z) c).

Lemma no_child_routeb_sound c z : no_child_routeb c z = true → no_child_route c z.
Proof.
  intros [Hw Hq]%andb_prop. split.
  - intros wt Hwt Hc Hk. apply forallb_forall with (x := wt) in Hw; [|by apply list_elem_of_In].
    rewrite bool_decide_eq_true_2 in Hw; done.
  - intros e He Ht. apply forallb_forall with (x := e) in Hq; [|by apply list_elem_of_In].
    rewrite bool_decide_eq_true_2 in Hq; done.
Qed.

(** ** Witnesses: a loop on ["/kiteq/server/t1"] reading channel 0 *)

#[local] Existing Instance ByteCodec.byte_codec.

Definition example_chan_state (env : list Env) (q : list Event) : Zk :=
  set_chans {[0 := q]} (zk_init env).

Lemma dispatch_loop_fifo_witness :
  let z := example_chan_state []
             [ {| ev_type := EventNodeCreated; ev_path := "/kiteq/server/t1" |};
               {| ev_type := EventNodeChildrenChanged; ev_path := "/kiteq/server/t1" |} ]%string in
  (dispatch_loop 2 "/kiteq/server/t1" 0 ([] : list Callback) z).1 =
    fold_left (λ w e, (handle_spec (zk_nodes z) "/kiteq/server/t1" w e).1)
              (chan_queue (zk_chans z) 0) [] ∧
  chan_queue (zk_chans (dispatch_loop 2 "/kiteq/server/t1" 0 ([] : list Callback) z).2) 0 = [] ∧
  zk_nodes (dispatch_loop 2 "/kiteq/server/t1" 0 ([] : list Callback) z).2 = zk_nodes z.
Proof. apply dispatch_loop_fifo; [reflexivity|vm_compute; reflexivity|vm_compute; lia]. Defined.

Lemma handle_event_rearms_witness :
  {| w_kind := WatchExist; w_path := "/kiteq/server/t1"; w_chan := 0 |} ∈
    zk_watches (handle_event "/kiteq/server/t1" 0 ([] : list Callback)
                  {| ev_type := EventNodeDeleted; ev_path := "/kiteq/server/t1" |} (zk_init [])).2 ∧
  (handle_event "/kiteq/server/t1" 0 ([] : list Callback)
     {| ev_type := EventNodeDeleted; ev_path := "/kiteq/server/t1" |} (zk_init [])).1 =
    EventNotify [] "/kiteq/server/t1" Deleted [].
Proof.
  apply (handle_event_rearms "/kiteq/server/t1" 0 [] {| ev_type := EventNodeDeleted; ev_path := "/kiteq/server/t1" |});
    [reflexivity|vm_compute; reflexivity|right; left; reflexivity].
Defined.

Lemma child_refetch_fault_loses_children_witness :
  let z := example_chan_state [Fault]
             [ {| ev_type := EventNodeChildrenChanged; ev_path := "/kiteq/server/t1" |} ]%string in
  let z1 := set_chans (<[0 := []]> (zk_chans z)) z in
  let e := {| ev_type := EventNodeChildrenChanged; ev_path := "/kiteq/server/t1" |} in
  let h := handle_event "/kiteq/server/t1" 0 ([] : list Callback) e z1 in
  h.1 = [] ∧
  ∀ e' z1', chan_pop 0 (Server.apply_ext (ExtCreate "/kiteq" [] CreatePersistent) h.2) = Some (e', z1') →
            ev_type e' ≠ EventNodeChildrenChanged.
Proof.
  intros z z1 e h.
  apply (child_refetch_fault_loses_children "/kiteq/server/t1" 0 [] e z z1 []
           (Server.apply_ext (ExtCreate "/kiteq" [] CreatePersistent) h.2) h.1);
    [reflexivity|reflexivity|reflexivity|apply no_child_routeb_sound; vm_compute; reflexivity|].
  eapply star_step; [apply sys_ext|apply star_refl].
Defined.
