(* ===== verification/Discovery.v ===== *)
(** * DiscoveryQueries: [GetQServerAndWatch] and [GetBindAndWatch]

    zk_manager.go lines 226-280.  Both check the topic path with [Exists]
    (arming a watch; an error of this call is discarded and reads as
    "absent"), return an empty list for an absent topic, fetch the
    children (arming a child watch), start the dispatch loop of the topic
    path with [addWatch], and [GetBindAndWatch] then reads and decodes
    every group's binding leaf with [getBindData] (arming a data watch on
    the same channel), skipping the groups that fail. *)

From S2P Require Import Prelude GoStrings Coord Registrar Binding Publisher Watch.
Open Scope string_scope.

Section Discovery.
Context `{BindingCodec} {W : Type}.

(** [exist, _, _ := self.session.Exists(path, nwatcher.zkwatcher)]: the
    error is dropped, the zero value [false] stands. *)
Definition exists_ignoring_error (r : res bool) : bool :=
  match r with Ok b => b | Err _ => false end.

(** [GetQServerAndWatch(topic, nwatcher)] (lines 227-246). *)
Definition GetQServerAndWatch (topic : string) (nwatcher : Watcher W) : St Zk (res (list string)) :=
  let path := KITEQ_SERVER ++ "/" ++ topic in
  r <- Session.Exists path (Some (zkwatcher nwatcher)) ;;
  if negb (exists_ignoring_error r) then st_ret (Ok []) else
  children <-? Session.Children path (Some (zkwatcher nwatcher)) ;;
  addWatch path nwatcher ;;
  st_ret (Ok children).

(** The loop over the group ids of [GetBindAndWatch] (lines 268-277). *)
Fixpoint collect_binds (path : string) (c : nat) (groupIds : list string) (hps : list Binding) :
    St Zk (list Binding) :=
  match groupIds with
  | [] => st_ret hps
  | groupId :: rest =>
      let tmppath := path ++ "/" ++ groupId in
      r <- getBindData tmppath c ;;
      match r with
      | Err _ => collect_binds path c rest hps
      | Ok binds => collect_binds path c rest (hps ++ binds)%list
      end
  end.

(** [GetBindAndWatch(topic, nwatcher)] (lines 249-280). *)
Definition GetBindAndWatch (topic : string) (nwatcher : Watcher W) : St Zk (res (list Binding)) :=
  let path := KITEQ_SUB ++ "/" ++ topic in
  r <- Session.Exists path (Some (zkwatcher nwatcher)) ;;
  if negb (exists_ignoring_error r) then st_ret (Ok []) else
  groupIds <-? Session.Children path (Some (zkwatcher nwatcher)) ;;
  addWatch path nwatcher ;;
  hps <- collect_binds path (zkwatcher nwatcher) groupIds [] ;;
  st_ret (Ok hps).

End Discovery.

Close Scope string_scope.

(** ** Specification of the binding query: the decoded groups that decode *)

Section Spec.
Context `{BindingCodec}.

Definition group_binds (m : gmap string Node) (path g : string) : list Binding :=
  match m !! (path ++ "/" ++ g)%string with
  | None => []
  | Some n => match UmarshalBinds (n_data n) with Ok b => b | Err _ => [] end
  end.

Definition bind_aggregate (m : gmap string Node) (path : string) (gs : list string) : list Binding :=
  flat_map (group_binds m path) gs.

End Spec.

(** ** Lemmas *)

Lemma children_of_key m p g :
  (∀ k n, m !! k = Some n → valid_path k = true) → p ≠ "/"%string → g ∈ children_of m p →
  is_Some (m !! (p ++ "/" ++ g)%string) ∧ valid_path (p ++ "/" ++ g)%string = true.
Proof.
  intros Hall Hp Hg. unfold children_of in Hg.
  apply list_elem_of_fmap in Hg as ([k n] & -> & Hk).
  apply list_elem_of_filter in Hk as [[Hpar Hroot] Hk]. simpl in *.
  apply elem_of_map_to_list in Hk. subst p.
  rewrite parent_basename by (eauto || done). split; [eauto|]. by eapply Hall.
Qed.

(** The children of a node other than the root are distinct names, each
    naming a node whose parent is that node. *)
Lemma children_of_parent m p g :
  (∀ k n, m !! k = Some n → valid_path k = true) → p ≠ "/"%string → g ∈ children_of m p →
  parent_path (p ++ "/" ++ g)%string = p.
Proof.
  intros Hall Hp Hg. unfold children_of in Hg.
  apply list_elem_of_fmap in Hg as ([k n] & -> & Hk).
  apply list_elem_of_filter in Hk as [[Hpar Hroot] Hk]. simpl in *.
  apply elem_of_map_to_list in Hk. subst p.
  rewrite parent_basename by (eauto || done). done.
Qed.

Lemma children_of_NoDup m p :
  (∀ k n, m !! k = Some n → valid_path k = true) → p ≠ "/"%string → NoDup (children_of m p).
Proof.
  intros Hall Hp. unfold children_of, child_entries.
  apply NoDup_fmap_2_strong; [|apply NoDup_filter, NoDup_map_to_list].
  intros [k1 n1] [k2 n2] H1 H2 Hb. simpl in Hb.
  apply list_elem_of_filter in H1 as [[Hp1 Hr1] H1]. apply list_elem_of_filter in H2 as [[Hp2 Hr2] H2].
  simpl in *. apply elem_of_map_to_list in H1, H2.
  pose proof (parent_basename k1 ltac:(eauto) Hr1 ltac:(by rewrite Hp1)) as E1.
  pose proof (parent_basename k2 ltac:(eauto) Hr2 ltac:(by rewrite Hp2)) as E2.
  rewrite Hp1, Hb in E1. rewrite Hp2 in E2. assert (k1 = k2) as <- by congruence. congruence.
Qed.

Lemma getBindData_calm `{BindingCodec} p c z :
  zk_env z = [] → valid_path p = true →
  getBindData p c z =
  match zk_nodes z !! p with
  | None => (Err ErrNoNode, z)
  | Some n => (UmarshalBinds (n_data n), Session.add_watch WatchData p (Some c) z)
  end.
Proof.
  intros He Hv. unfold getBindData, st_try, st_bind. rewrite Get_calm by done.
  by destruct (zk_nodes z !! p).
Qed.

Lemma collect_binds_calm `{BindingCodec} path c gs hps z :
  zk_env z = [] → (∀ g, g ∈ gs → valid_path (path ++ "/" ++ g)%string = true) →
  (collect_binds path c gs hps z).1 = hps ++ bind_aggregate (zk_nodes z) path gs ∧
  zk_nodes (collect_binds path c gs hps z).2 = zk_nodes z ∧
  zk_env (collect_binds path c gs hps z).2 = [] ∧
  zk_loops (collect_binds path c gs hps z).2 = zk_loops z.
Proof.
  revert hps z. induction gs as [|g gs IH]; intros hps z He Hv.
  - simpl. by rewrite app_nil_r.
  - cbn [collect_binds]. unfold st_bind. rewrite getBindData_calm by (done || (apply Hv; set_solver)).
    unfold bind_aggregate. cbn [flat_map]. unfold group_binds at 1.
    destruct (zk_nodes z !! _) as [n|] eqn:Hn.
    + destruct (UmarshalBinds (n_data n)) as [b|e] eqn:Hd; cbn [fst snd].
      * destruct (IH (hps ++ b)%list (Session.add_watch WatchData (path ++ "/" ++ g)%string (Some c) z))
          as (R1 & R2 & R3 & R4); [done|intros; apply Hv; set_solver|].
        rewrite R1, R2, R3, R4. split_and!; try done. by rewrite app_assoc.
      * destruct (IH hps (Session.add_watch WatchData (path ++ "/" ++ g)%string (Some c) z))
          as (R1 & R2 & R3 & R4); [done|intros; apply Hv; set_solver|].
        rewrite R1, R2, R3, R4. done.
    + destruct (IH hps z) as (R1 & R2 & R3 & R4); [done|intros; apply Hv; set_solver|].
      rewrite R1. done.
Qed.

(** The data watch [getBindData] arms on the leaf of group [g]. *)
Definition data_watch (path : string) (c : nat) (g : string) : Watch :=
  {| w_kind := WatchData; w_path := (path ++ "/" ++ g)%string; w_chan := c |}.

(** With a calm service and every group leaf present, the group loop only
    arms one data watch per group, in order. *)
Lemma collect_binds_state `{BindingCodec} path c gs hps z :
  zk_env z = [] →
  (∀ g, g ∈ gs → is_Some (zk_nodes z !! (path ++ "/" ++ g)%string) ∧ valid_path (path ++ "/" ++ g)%string = true) →
  (collect_binds path c gs hps z).2 = set_watches (zk_watches z ++ map (data_watch path c) gs) z.
Proof.
  revert hps z. induction gs as [|g gs IH]; intros hps z He Hg.
  - simpl. rewrite app_nil_r. by destruct z.
  - cbn [collect_binds]. unfold st_bind. destruct (Hg g) as [[n Hn] Hv]; [set_solver|].
    rewrite getBindData_calm, Hn by done.
    destruct (UmarshalBinds (n_data n)); cbn [fst snd];
      (rewrite IH; [simpl; by rewrite <- app_assoc|done|intros; apply Hg; set_solver]).
Qed.

Lemma addWatch_run {W} p (nw : Watcher W) z :
  addWatch p nw z = (tt, set_loops (zk_loops z ++ [(p, zkwatcher nw)]) z).
Proof. reflexivity. Qed.

(** ** Properties of the discovery queries *)

Section DiscoveryProofs.
Context `{BindingCodec} {W : Type}.

(** C23: a topic nobody registered yields an empty list, not an error
    (spec 8.4): with a calm service, [GetQServerAndWatch] on an absent
    topic returns [Ok []] after arming only the existence watch; it
    fetches no children and starts no dispatch loop. *)
Theorem GetQServerAndWatch_absent topic (nw : Watcher W) z :
  zk_env z = [] → valid_path (KITEQ_SERVER ++ "/" ++ topic)%string = true →
  zk_nodes z !! (KITEQ_SERVER ++ "/" ++ topic)%string = None →
  GetQServerAndWatch topic nw z =
  (Ok [], Session.add_watch WatchExist (KITEQ_SERVER ++ "/" ++ topic)%string (Some (zkwatcher nw)) z).
Proof.
  intros He Hv Hn. unfold GetQServerAndWatch. cbv zeta. unfold st_bind.
  rewrite Exists_calm by done. rewrite Hn. reflexivity.
Qed.

(** C21: a connection error of the existence check is read as an absent
    topic: [GetQServerAndWatch] then returns [Ok []] whatever servers are
    registered, and starts no loop, so the caller cannot tell an outage
    from a topic without servers (spec 7 says discovery never errs for an
    unknown topic; it does not say that it hides failures). *)
Theorem GetQServerAndWatch_fault_hides topic (nw : Watcher W) z es :
  zk_env z = Fault :: es →
  GetQServerAndWatch topic nw z = (Ok [], set_env es z).
Proof.
  intros He. unfold GetQServerAndWatch. cbv zeta. unfold st_bind, Session.Exists.
  by rewrite (call_fault _ _ es He).
Qed.

(** [GetQServerAndWatch] with a calm service on a registered topic: the
    state it leaves. *)
Lemma GetQServerAndWatch_calm topic (nw : Watcher W) z :
  zk_env z = [] → valid_path (KITEQ_SERVER ++ "/" ++ topic)%string = true →
  is_Some (zk_nodes z !! (KITEQ_SERVER ++ "/" ++ topic)%string) →
  GetQServerAndWatch topic nw z =
  (Ok (children_of (zk_nodes z) (KITEQ_SERVER ++ "/" ++ topic)%string),
   set_loops (zk_loops z ++ [((KITEQ_SERVER ++ "/" ++ topic)%string, zkwatcher nw)])
     (Session.add_watch WatchChild (KITEQ_SERVER ++ "/" ++ topic)%string (Some (zkwatcher nw))
        (Session.add_watch WatchExist (KITEQ_SERVER ++ "/" ++ topic)%string (Some (zkwatcher nw)) z))).
Proof.
  intros He Hv [n Hn]. unfold GetQServerAndWatch. cbv zeta. unfold st_bind, st_try, st_bind.
  rewrite Exists_calm by done. rewrite Hn. cbn [exists_ignoring_error negb bool_decide].
  rewrite bool_decide_eq_true_2 by eauto. cbn [negb].
  rewrite Children_calm by done. rewrite add_watch_nodes, Hn. done.
Qed.

(** C22: on a registered topic, with a calm service, [GetQServerAndWatch]
    returns the names of the topic's children, arms an existence and a
    child watch on the topic path with the watcher's channel, and starts
    the dispatch loop of the topic path. *)
Theorem GetQServerAndWatch_present topic (nw : Watcher W) z :
  zk_env z = [] → valid_path (KITEQ_SERVER ++ "/" ++ topic)%string = true →
  is_Some (zk_nodes z !! (KITEQ_SERVER ++ "/" ++ topic)%string) →
  (GetQServerAndWatch topic nw z).1 =
    Ok (children_of (zk_nodes z) (KITEQ_SERVER ++ "/" ++ topic)%string) ∧
  ((KITEQ_SERVER ++ "/" ++ topic)%string, zkwatcher nw) ∈ zk_loops (GetQServerAndWatch topic nw z).2 ∧
  {| w_kind := WatchExist; w_path := (KITEQ_SERVER ++ "/" ++ topic)%string; w_chan := zkwatcher nw |}
    ∈ zk_watches (GetQServerAndWatch topic nw z).2 ∧
  {| w_kind := WatchChild; w_path := (KITEQ_SERVER ++ "/" ++ topic)%string; w_chan := zkwatcher nw |}
    ∈ zk_watches (GetQServerAndWatch topic nw z).2.
Proof.
  intros He Hv Hn. rewrite GetQServerAndWatch_calm by done. simpl.
  split_and!; [done|set_solver|set_solver|set_solver].
Qed.

(** [GetBindAndWatch] with a calm service on a registered topic. *)
Lemma GetBindAndWatch_calm topic (nw : Watcher W) z :
  wf z → zk_env z = [] → seg_ok topic = true →
  is_Some (zk_nodes z !! (KITEQ_SUB ++ "/" ++ topic)%string) →
  (GetBindAndWatch topic nw z).1 =
    Ok (bind_aggregate (zk_nodes z) (KITEQ_SUB ++ "/" ++ topic)%string
          (children_of (zk_nodes z) (KITEQ_SUB ++ "/" ++ topic)%string)) ∧
  ((KITEQ_SUB ++ "/" ++ topic)%string, zkwatcher nw) ∈ zk_loops (GetBindAndWatch topic nw z).2.
Proof.
  intros Hwf He Ht [n Hn].
  assert (valid_path (KITEQ_SUB ++ "/" ++ topic)%string = true) as Hv.
  { change (KITEQ_SUB ++ "/" ++ topic)%string with (node_of (sub_dir topic)).
    apply valid_node_of; [done|]. simpl. by rewrite Ht. }
  unfold GetBindAndWatch. cbv zeta. unfold st_bind, st_try, st_bind.
  rewrite Exists_calm by done. rewrite Hn. cbn [exists_ignoring_error].
  rewrite bool_decide_eq_true_2 by eauto. cbn [negb].
  rewrite Children_calm by (rewrite ?add_watch_env; done). rewrite add_watch_nodes, Hn.
  cbn [fst snd]. rewrite addWatch_run. cbn [fst snd].
  set (z1 := set_loops _ _).
  destruct (collect_binds_calm (KITEQ_SUB ++ "/" ++ topic)%string (zkwatcher nw)
              (children_of (zk_nodes z) (KITEQ_SUB ++ "/" ++ topic)%string) [] z1)
    as (R1 & R2 & R3 & R4).
  { unfold z1. simpl. by destruct (zkwatcher nw). }
  { intros g Hg. apply (children_of_key (zk_nodes z)); [apply Hwf| |done].
    change (KITEQ_SUB ++ "/" ++ topic)%string with (node_of (sub_dir topic)).
    apply node_of_not_root; [done|]. simpl. by rewrite Ht. }
  destruct (collect_binds _ _ _ [] z1) as [hps z2] eqn:Ec. cbn [fst snd] in R1, R4.
  cbn [st_ret fst snd].
  assert (zk_nodes z1 = zk_nodes z) as Hz1.
  { unfold z1. cbn [zk_nodes set_loops]. by rewrite !add_watch_nodes. }
  rewrite R1, Hz1, R4. split; [done|]. unfold z1. simpl. set_solver.
Qed.

(** With a calm service on a registered topic, [GetBindAndWatch] arms,
    all with the watcher's channel, an existence and a child watch on the
    topic and a data watch on every group leaf, starts the loop, and
    changes nothing else. *)
Lemma GetBindAndWatch_state topic (nw : Watcher W) z :
  wf z → zk_env z = [] → seg_ok topic = true →
  is_Some (zk_nodes z !! (KITEQ_SUB ++ "/" ++ topic)%string) →
  (GetBindAndWatch topic nw z).2 =
    set_watches (zk_watches z ++
                 [ {| w_kind := WatchExist; w_path := (KITEQ_SUB ++ "/" ++ topic)%string; w_chan := zkwatcher nw |};
                   {| w_kind := WatchChild; w_path := (KITEQ_SUB ++ "/" ++ topic)%string; w_chan := zkwatcher nw |} ] ++
                 map (data_watch (KITEQ_SUB ++ "/" ++ topic) (zkwatcher nw))
                     (children_of (zk_nodes z) (KITEQ_SUB ++ "/" ++ topic)%string))
      (set_loops (zk_loops z ++ [((KITEQ_SUB ++ "/" ++ topic)%string, zkwatcher nw)]) z).
Proof.
  intros Hwf He Ht [n Hn].
  assert (valid_path (KITEQ_SUB ++ "/" ++ topic)%string = true) as Hv.
  { change (KITEQ_SUB ++ "/" ++ topic)%string with (node_of (sub_dir topic)).
    apply valid_node_of; [done|]. simpl. by rewrite Ht. }
  unfold GetBindAndWatch. cbv zeta. unfold st_bind, st_try, st_bind.
  rewrite Exists_calm by done. rewrite Hn. cbn [exists_ignoring_error].
  rewrite bool_decide_eq_true_2 by eauto. cbn [negb].
  rewrite Children_calm by (rewrite ?add_watch_env; done). rewrite add_watch_nodes, Hn.
  cbn [fst snd]. rewrite addWatch_run. cbn [fst snd].
  set (z1 := set_loops _ _).
  pose proof (collect_binds_state (KITEQ_SUB ++ "/" ++ topic) (zkwatcher nw)
                (children_of (zk_nodes z) (KITEQ_SUB ++ "/" ++ topic)%string) [] z1) as Hs.
  destruct (collect_binds _ _ _ [] z1) as [hps z2]. cbn [snd st_ret] in *. rewrite Hs.
  - unfold z1. cbn. unfold set_watches, set_loops. cbn. by rewrite <- !app_assoc.
  - unfold z1. simpl. by destruct (zkwatcher nw).
  - intros g Hg. unfold z1. simpl. apply (children_of_key (zk_nodes z)); [apply Hwf| |done].
    change (KITEQ_SUB ++ "/" ++ topic)%string with (node_of (sub_dir topic)).
    apply node_of_not_root; [done|]. simpl. by rewrite Ht.
Qed.

(** C8: partial-success aggregation (spec 4.6 and 8.6): with a calm
    service on a well-formed namespace, [GetBindAndWatch] on a registered
    topic returns the concatenation, in the order of the children, of the
    decoded bindings of the groups whose leaf decodes; a group whose leaf
    does not decode is left out and the call still succeeds.  It starts
    the loop of the topic path. *)
Theorem GetBindAndWatch_aggregates topic (nw : Watcher W) z :
  wf z → zk_env z = [] → seg_ok topic = true →
  is_Some (zk_nodes z !! (KITEQ_SUB ++ "/" ++ topic)%string) →
  (GetBindAndWatch topic nw z).1 =
    Ok (bind_aggregate (zk_nodes z) (KITEQ_SUB ++ "/" ++ topic)%string
          (children_of (zk_nodes z) (KITEQ_SUB ++ "/" ++ topic)%string)) ∧
  ((KITEQ_SUB ++ "/" ++ topic)%string, zkwatcher nw) ∈ zk_loops (GetBindAndWatch topic nw z).2.
Proof. apply GetBindAndWatch_calm. Qed.

(** C3: publish/discover round trip (spec 4.5 and 4.6): after
    [PublishBindings] of a group with a calm service (for every iteration
    order of the Go map), [GetBindAndWatch] on any topic of that group
    succeeds, and its result contains, as one contiguous block, a
    permutation of that topic's bindings (decoding gives back what
    encoding was given, up to order); the blocks of the other groups of the
    topic surround it. *)
Theorem publish_discover_roundtrip `{!BindingCodecLaws} range groupId bindings z (nw : Watcher W) t l :
  (∀ m, range m ≡ₚ map_to_list m) →
  wf z → zk_env z = [] → seg_ok (groupId ++ "-bind")%string = true →
  Forall (λ b, seg_ok (Topic b) = true) bindings →
  (∀ b, b ∈ bindings → dirs_persistent (zk_nodes z) (prefix_paths [] (sub_dir (Topic b)))) →
  (∀ t l, groupBind groupId bindings !! t = Some l → is_ok (MarshalBinds l) = true) →
  groupBind groupId bindings !! t = Some l →
  ∃ pre l' post,
    (GetBindAndWatch t nw (PublishBindings range groupId bindings z).2).1 = Ok (pre ++ l' ++ post) ∧
    l' ≡ₚ l.
Proof.
  intros Hr Hwf He Hc Htop Hd Hm Ht.
  destruct (PublishBindings_calm range groupId bindings z) as (_ & He' & Hleaf); try done.
  assert (wf (PublishBindings range groupId bindings z).2) as Hwf' by (by apply PublishBindings_wf).
  set (z' := (PublishBindings range groupId bindings z).2) in *.
  assert (seg_ok t = true) as Hst.
  { destruct (groupBind_Some _ _ _ _ Ht) as (b & Hb & <-). rewrite Forall_forall in Htop. by apply Htop. }
  specialize (Hm t l Ht). destruct (MarshalBinds l) as [data|] eqn:Hmar; [|done].
  specialize (Hleaf t l data Ht Hmar).
  assert (forallb seg_ok (sub_dir t ++ [(groupId ++ "-bind")%string]) = true) as Hok
    by (simpl; by rewrite Hst, Hc).
  destruct (wf_parent _ Hwf' _ _ Hleaf) as (pn & Hpn & _);
    [apply node_of_not_root; [by destruct (sub_dir t)|done]|].
  rewrite parent_node_of in Hpn by done.
  destruct (GetBindAndWatch_calm t nw z') as [R _]; [done|done|done|by exists pn|].
  rewrite R. change (KITEQ_SUB ++ "/" ++ t)%string with (node_of (sub_dir t)).
  pose proof (children_of_elem (zk_nodes z') (sub_dir t) _ _ Hok Hleaf) as Hin.
  apply list_elem_of_split in Hin as (c1 & c2 & ->).
  destruct (codec_roundtrip l data Hmar) as (l' & Hdec & Hp).
  unfold bind_aggregate. rewrite flat_map_app. cbn [flat_map].
  eexists _, l', _. split; [|done]. do 3 f_equal.
  unfold group_binds. rewrite node_of_snoc_child, Hleaf by done. simpl. by rewrite Hdec.
Qed.

End DiscoveryProofs.

(** ** Examples for the witnesses *)

#[local] Existing Instance ByteCodec.byte_codec.
#[local] Existing Instance ByteCodec.byte_codec_laws.

(** Group ["G"] publishes [example_bindings] (topics ["A"] and ["B"]). *)
Definition discovery_example : Zk :=
  (PublishBindings map_to_list "G" example_bindings (zk_init [])).2.

(** ** Witnesses *)

Lemma GetQServerAndWatch_absent_witness :
  GetQServerAndWatch "A" (NewWatcher tt 0) discovery_example =
  (Ok [], Session.add_watch WatchExist (KITEQ_SERVER ++ "/" ++ "A")%string (Some 0) discovery_example).
Proof. apply GetQServerAndWatch_absent; vm_compute; reflexivity. Defined.

Lemma GetQServerAndWatch_fault_hides_witness :
  GetQServerAndWatch "A" (NewWatcher tt 0) (set_env [Fault] discovery_example) =
  (Ok [], set_env [] (set_env [Fault] discovery_example)).
Proof. apply GetQServerAndWatch_fault_hides; reflexivity. Defined.

Definition served_example : Zk := (PublishQServer "h:1" ["A"%string] (zk_init [])).2.

Lemma GetQServerAndWatch_present_witness :
  (GetQServerAndWatch "A" (NewWatcher tt 0) served_example).1 =
    Ok (children_of (zk_nodes served_example) (KITEQ_SERVER ++ "/" ++ "A")%string) ∧
  ((KITEQ_SERVER ++ "/" ++ "A")%string, 0) ∈ zk_loops (GetQServerAndWatch "A" (NewWatcher tt 0) served_example).2 ∧
  {| w_kind := WatchExist; w_path := (KITEQ_SERVER ++ "/" ++ "A")%string; w_chan := 0 |}
    ∈ zk_watches (GetQServerAndWatch "A" (NewWatcher tt 0) served_example).2 ∧
  {| w_kind := WatchChild; w_path := (KITEQ_SERVER ++ "/" ++ "A")%string; w_chan := 0 |}
    ∈ zk_watches (GetQServerAndWatch "A" (NewWatcher tt 0) served_example).2.
Proof. apply GetQServerAndWatch_present; vm_compute; [reflexivity|reflexivity|eexists; reflexivity]. Defined.

Lemma GetBindAndWatch_aggregates_witness :
  (GetBindAndWatch "A" (NewWatcher tt 0) discovery_example).1 =
    Ok (bind_aggregate (zk_nodes discovery_example) (KITEQ_SUB ++ "/" ++ "A")%string
          (children_of (zk_nodes discovery_example) (KITEQ_SUB ++ "/" ++ "A")%string)) ∧
  ((KITEQ_SUB ++ "/" ++ "A")%string, 0) ∈ zk_loops (GetBindAndWatch "A" (NewWatcher tt 0) discovery_example).2.
Proof.
  apply GetBindAndWatch_aggregates;
    [apply PublishBindings_wf, zk_init_wf|reflexivity|reflexivity|vm_compute; eexists; reflexivity].
Defined.

Lemma publish_discover_roundtrip_witness :
  ∃ pre l' post,
    (GetBindAndWatch "A" (NewWatcher tt 0)
       (PublishBindings map_to_list "G" example_bindings (zk_init [])).2).1 = Ok (pre ++ l' ++ post) ∧
    l' ≡ₚ [ {| GroupId := "G"; Topic := "A"; Rule := "rule1"; Persistent := true |};
            {| GroupId := "G"; Topic := "A"; Rule := "rule2"; Persistent := false |} ]%string.
Proof.
  apply (publish_discover_roundtrip map_to_list "G" example_bindings (zk_init []) (NewWatcher tt 0) "A");
    [intros; reflexivity|apply zk_init_wf|reflexivity|reflexivity|repeat constructor
    |intros; apply zk_init_dirs|intros; reflexivity|vm_compute; reflexivity].
Defined.
