(* ===== verification/System.v ===== *)
(** * The running system: dispatch loops against the service

    The goroutines [addWatch] starts (Watch.v) run forever next to other
    clients of the service.  [sys_step] is one move of that system: another
    client's update, or one iteration of one started loop.  This file
    proves what holds along every run:
    - every started loop can always drain its channel, whatever the
      service answers, and stays started ([loop_drains], a liveness
      property: a run exists that empties the channel);
    - the events pending on a channel (queued, or armed as watches with
      that channel) never increase ([sys_star_pending]), which bounds the
      queue by the watches a query armed; [GetBindAndWatch] arms two plus
      one per group on the loop's one channel, more than its capacity 10
      exactly for a topic of more than eight groups
      ([GetBindAndWatch_pending]);
    - discovery, the service and the loop composed: a broker's ephemeral
      leaf vanishing is reported to [ChildWatcher] with the new list of
      servers ([server_departure_notified]); a group re-publishing its
      bindings is delivered to the topic's loop but never reported
      ([binding_update_not_notified]); a group leaving a topic is
      reported as the deletion of the topic
      ([group_leaf_delete_reported_as_topic_delete]). *)

From S2P Require Import Prelude GoStrings Coord Registrar Binding Publisher Watch Discovery.

(** ** One event handled: exactly one read call, or nothing *)

Section OneEvent.
Context `{BindingCodec} {W : Type} `{IWatcher W}.

Lemma handle_event_state p c (w : W) e z :
  (ev_type e = EventSession ∧ (handle_event p c w e z).2 = z) ∨
  ∃ k, (handle_event p c w e z).2 = read_state k p (Some c) z.
Proof.
  unfold handle_event. destruct (ev_type e); unfold st_bind, st_ret; [right..|left; done].
  - exists WatchExist. simpl. by destruct (Session.Exists p (Some c) z).
  - exists WatchExist. simpl. by destruct (Session.Exists p (Some c) z).
  - destruct (is_bind_path p); simpl.
    + exists WatchData. unfold getBindData, st_try, st_bind. simpl.
      destruct (Session.Get p (Some c) z) as [[]] ; simpl; [by case_match|done].
    + exists WatchExist. simpl. by destruct (Session.Exists p (Some c) z).
  - exists WatchChild. simpl. destruct (Session.Children p (Some c) z) as [[]]; done.
Qed.

Lemma handle_event_loops p c (w : W) e z :
  zk_loops (handle_event p c w e z).2 = zk_loops z.
Proof.
  destruct (handle_event_state p c w e z) as [[_ ->]|[k ->]]; [done|apply read_state_loops].
Qed.

(** Handling an event either consumes an entry of the oracle, or leaves
    the oracle and the channels untouched. *)
Lemma handle_event_progress p c (w : W) e z :
  length (zk_env (handle_event p c w e z).2) < length (zk_env z) ∨
  (zk_env (handle_event p c w e z).2 = zk_env z ∧ zk_chans (handle_event p c w e z).2 = zk_chans z).
Proof.
  destruct (handle_event_state p c w e z) as [[_ ->]|[k ->]]; [by right|].
  destruct (zk_env z) as [|x es] eqn:He.
  - right. apply read_state_calm, He.
  - left. rewrite (read_state_env _ _ _ _ x es He). simpl. lia.
Qed.

Lemma handle_event_wf p c (w : W) e : preserves wf (handle_event p c w e).
Proof.
  unfold handle_event. destruct (ev_type e); [preserves_tac..| |preserves_tac].
  apply preserves_bind; [preserves_tac|intros; preserves_tac].
Qed.

End OneEvent.

(** ** Runs of the system *)

Section Runs.
Context `{BindingCodec} {W : Type} `{IWatcher W}.

Lemma star_trans {A} (R : A → A → Prop) a b c : star R a b → star R b c → star R a c.
Proof. induction 1; [done|]. intros. eapply star_step; eauto. Qed.

Lemma chan_pop_loops c z e z1 : chan_pop c z = Some (e, z1) → zk_loops z1 = zk_loops z.
Proof. unfold chan_pop. case_match; [done|]. by intros [= <- <-]. Qed.

Lemma chan_pop_env c z e z1 : chan_pop c z = Some (e, z1) → zk_env z1 = zk_env z.
Proof. unfold chan_pop. case_match; [done|]. by intros [= <- <-]. Qed.

Lemma chan_pop_wf c z e z1 : chan_pop c z = Some (e, z1) → wf z → wf z1.
Proof. unfold chan_pop. case_match; [done|]. intros [= <- <-]. apply wf_nodes_eq. done. Qed.

Lemma sys_step_loops (s s' : Zk * W) : sys_step s s' → zk_loops s'.1 = zk_loops s.1.
Proof.
  destruct 1 as [o z w|p c z w w' z' Hl Hd]; simpl; [apply apply_ext_loops|].
  unfold dispatch in Hd. destruct (chan_pop c z) as [[e z1]|] eqn:Hp; [|done].
  injection Hd as Hd. rewrite <- (chan_pop_loops c z e z1 Hp).
  replace z' with (handle_event p c w e z1).2 by (by rewrite Hd). apply handle_event_loops.
Qed.

Lemma sys_step_wf (s s' : Zk * W) : sys_step s s' → wf s.1 → wf s'.1.
Proof.
  destruct 1 as [o z w|p c z w w' z' Hl Hd]; simpl; [apply apply_ext_wf|intros Hz].
  unfold dispatch in Hd. destruct (chan_pop c z) as [[e z1]|] eqn:Hp; [|done].
  injection Hd as Hd. replace z' with (handle_event p c w e z1).2 by (by rewrite Hd).
  by apply handle_event_wf, (chan_pop_wf c z e).
Qed.

(** One iteration of a started loop with a non-empty channel is a step. *)
Lemma dispatch_step p c (w : W) z e q :
  (p, c) ∈ zk_loops z → chan_queue (zk_chans z) c = e :: q →
  sys_step (z, w)
    ((handle_event p c w e (set_chans (<[c := q]> (zk_chans z)) z)).2,
     (handle_event p c w e (set_chans (<[c := q]> (zk_chans z)) z)).1).
Proof.
  intros Hl Hq. eapply sys_dispatch; [done|]. unfold dispatch.
  rewrite (chan_pop_cons c z e q Hq). by destruct (handle_event _ _ _ _ _).
Qed.

Lemma drain_aux p c (n : nat) :
  ∀ m (w : W) z, length (zk_env z) = n → length (chan_queue (zk_chans z) c) = m →
  (p, c) ∈ zk_loops z →
  ∃ z' w', star sys_step (z, w) (z', w') ∧ chan_queue (zk_chans z') c = [].
Proof.
  induction n as [n IHn] using lt_wf_ind. intros m.
  induction m as [|m IHm]; intros w z Hn Hm Hl.
  { exists z, w. split; [apply star_refl|]. by apply nil_length_inv. }
  destruct (chan_queue (zk_chans z) c) as [|e q] eqn:Hq; [done|]. simpl in Hm.
  set (z1 := set_chans (<[c := q]> (zk_chans z)) z).
  pose proof (dispatch_step p c w z e q Hl Hq) as Hs. fold z1 in Hs.
  assert (zk_loops (handle_event p c w e z1).2 = zk_loops z) as Hl'
    by (rewrite handle_event_loops; done).
  destruct (handle_event_progress p c w e z1) as [Hlt|[Henv Hch]].
  - destruct (IHn (length (zk_env (handle_event p c w e z1).2)))
      with (m := length (chan_queue (zk_chans (handle_event p c w e z1).2) c))
           (w := (handle_event p c w e z1).1) (z := (handle_event p c w e z1).2)
      as (z' & w' & Hr & He); [by rewrite <- Hn|done|done|by rewrite Hl'|].
    exists z', w'. split; [|done]. eapply star_step; [exact Hs|exact Hr].
  - destruct (IHm (handle_event p c w e z1).1 (handle_event p c w e z1).2)
      as (z' & w' & Hr & He).
    + rewrite Henv. done.
    + rewrite Hch. unfold z1, chan_queue. simpl. rewrite lookup_insert_eq. by injection Hm.
    + by rewrite Hl'.
    + exists z', w'. split; [|done]. eapply star_step; [exact Hs|exact Hr].
Qed.

End Runs.

(** ** Accounting of the events of a channel

    An event reaches channel [c] only through a watch armed with [c];
    [pending c z] counts both the events queued on [c] and the watches
    that can still deliver to it. *)

Definition nwatch (c : nat) (ws : list Watch) : nat := length (filter (λ wt, w_chan wt = c) ws).

Definition pending (c : nat) (z : Zk) : nat :=
  length (chan_queue (zk_chans z) c) + nwatch c (zk_watches z).

Definition one_if (b : bool) : nat := if b then 1 else 0.

Lemma enqueue_fold_len e cs ch c :
  length (chan_queue (fold_left (enqueue e) cs ch) c) =
  length (chan_queue ch c) + length (filter (λ c', c' = c) cs).
Proof.
  revert ch. induction cs as [|c' cs IH]; intros ch; simpl; [lia|]. rewrite IH.
  destruct (decide (c' = c)) as [->|Hne].
  - rewrite filter_cons_True by done. unfold enqueue, chan_queue at 1.
    rewrite lookup_insert_eq. simpl. rewrite length_app. simpl. lia.
  - rewrite filter_cons_False by done. unfold enqueue, chan_queue at 1.
    by rewrite lookup_insert_ne.
Qed.

Lemma filter_map_chan c ws : length (filter (λ c', c' = c) (map w_chan ws)) = nwatch c ws.
Proof.
  unfold nwatch. induction ws as [|wt ws IH]; [done|]. simpl.
  destruct (decide (w_chan wt = c)).
  - rewrite !filter_cons_True by done. simpl. by rewrite IH.
  - rewrite !filter_cons_False by done. done.
Qed.

Lemma nwatch_split c (P : Watch → bool) ws :
  nwatch c (filter (λ wt, P wt = true) ws) + nwatch c (filter (λ wt, P wt = false) ws) = nwatch c ws.
Proof.
  unfold nwatch. induction ws as [|wt ws IH]; [done|].
  destruct (P wt) eqn:HP.
  - rewrite (filter_cons_True (λ wt, P wt = true)), (filter_cons_False (λ wt, P wt = false))
      by (rewrite HP; done).
    destruct (decide (w_chan wt = c)).
    + rewrite !filter_cons_True by done. simpl. lia.
    + rewrite !filter_cons_False by done. done.
  - rewrite (filter_cons_False (λ wt, P wt = true)), (filter_cons_True (λ wt, P wt = false))
      by (rewrite HP; done).
    destruct (decide (w_chan wt = c)).
    + rewrite !filter_cons_True by done. simpl. lia.
    + rewrite !filter_cons_False by done. done.
Qed.

(** Firing a watch moves it from the watches to the queue. *)
Lemma fire_pending c t p z : pending c (fire t p z) = pending c z.
Proof.
  unfold pending, fire. cbn [zk_chans zk_watches set_chans set_watches].
  rewrite enqueue_fold_len, filter_map_chan, <- (nwatch_split c (triggers t p) (zk_watches z)). lia.
Qed.

Lemma apply_ext_pending c o z : pending c (Server.apply_ext o z) = pending c z.
Proof.
  destruct o as [p d m|p d|p]; simpl.
  - unfold Server.create. repeat case_match; cbn [snd]; rewrite ?fire_pending; done.
  - unfold Server.set. repeat case_match; cbn [snd]; rewrite ?fire_pending; done.
  - unfold Server.delete. repeat case_match; cbn [snd]; rewrite ?fire_pending; done.
Qed.

Lemma add_watch_pending c k p c' z :
  pending c (Session.add_watch k p (Some c') z) = pending c z + one_if (bool_decide (c' = c)).
Proof.
  unfold pending, nwatch, one_if. simpl. rewrite filter_app, length_app.
  case_bool_decide as E.
  - rewrite filter_cons_True by done. simpl. lia.
  - rewrite filter_cons_False by done. simpl. lia.
Qed.

Lemma call_pending {A} c k (op : Zk → res A * Zk) z :
  (∀ z, pending c (op z).2 ≤ pending c z + k) → pending c (Session.call op z).2 ≤ pending c z + k.
Proof.
  intros Hop. unfold Session.call, Session.env_step.
  destruct (zk_env z) as [|[| |o] es]; simpl.
  - apply Hop.
  - etransitivity; [apply Hop|]. change (pending c (set_env es z)) with (pending c z). lia.
  - change (pending c (set_env es z)) with (pending c z). lia.
  - etransitivity; [apply Hop|]. rewrite apply_ext_pending.
    change (pending c (set_env es z)) with (pending c z). lia.
Qed.

Lemma read_state_pending c k p c' z :
  pending c (read_state k p (Some c') z) ≤ pending c z + one_if (bool_decide (c' = c)).
Proof.
  destruct k; simpl; [unfold Session.Exists|unfold Session.Get|unfold Session.Children];
    apply call_pending; intros z'; repeat case_match; cbn [snd]; try lia;
    rewrite add_watch_pending; lia.
Qed.

(** ** Properties of the running system *)

(** What a fired event puts on a channel: one copy per triggered watch
    of that channel, after what was queued. *)
Lemma enqueue_fold_queue e cs ch c :
  chan_queue (fold_left (enqueue e) cs ch) c =
  chan_queue ch c ++ repeat e (length (filter (λ c', c' = c) cs)).
Proof.
  revert ch. induction cs as [|c' cs IH]; intros ch; simpl; [by rewrite app_nil_r|]. rewrite IH.
  destruct (decide (c' = c)) as [->|Hne].
  - rewrite filter_cons_True by done. unfold enqueue, chan_queue at 1.
    rewrite lookup_insert_eq. simpl. by rewrite <- app_assoc.
  - rewrite filter_cons_False by done. unfold enqueue, chan_queue at 1.
    by rewrite lookup_insert_ne.
Qed.

Lemma fire_queue c t p z :
  chan_queue (zk_chans (fire t p z)) c =
  chan_queue (zk_chans z) c ++
    repeat {| ev_type := t; ev_path := p |} (nwatch c (filter (λ w, triggers t p w = true) (zk_watches z))).
Proof. unfold fire. cbn [zk_chans set_chans set_watches]. by rewrite enqueue_fold_queue, filter_map_chan. Qed.

Lemma fire_watches t p z :
  zk_watches (fire t p z) = filter (λ w, triggers t p w = false) (zk_watches z).
Proof. done. Qed.

Lemma nwatch_app c l1 l2 : nwatch c (l1 ++ l2) = nwatch c l1 + nwatch c l2.
Proof. unfold nwatch. by rewrite filter_app, length_app. Qed.

Lemma nwatch_other c (P : Watch → Prop) `{∀ w, Decision (P w)} ws :
  (∀ w, w ∈ ws → w_chan w ≠ c) → nwatch c (filter P ws) = 0.
Proof.
  unfold nwatch. induction ws as [|w ws IH]; intros Hc; [done|].
  destruct (decide (P w)).
  - rewrite filter_cons_True by done. rewrite filter_cons_False by (apply Hc; set_solver).
    apply IH. intros; apply Hc; set_solver.
  - rewrite filter_cons_False by done. apply IH. intros; apply Hc; set_solver.
Qed.

Section RunProps.
Context `{BindingCodec} {W : Type} `{IWatcher W}.

Lemma star_sys_loops (s s' : Zk * W) : star sys_step s s' → zk_loops s'.1 = zk_loops s.1.
Proof. induction 1 as [|a b d Hab _ IH]; [done|]. rewrite IH. by apply sys_step_loops. Qed.

Lemma handle_event_pending c p c' (w : W) e z :
  pending c (handle_event p c' w e z).2 ≤ pending c z + one_if (bool_decide (c' = c)).
Proof.
  destruct (handle_event_state p c' w e z) as [[_ ->]|[k ->]]; [lia|apply read_state_pending].
Qed.

Lemma chan_pop_pending c c' z e z1 :
  chan_pop c' z = Some (e, z1) → pending c z1 + one_if (bool_decide (c' = c)) = pending c z.
Proof.
  unfold chan_pop. destruct (chan_queue (zk_chans z) c') as [|e' q] eqn:Hq; [done|].
  intros [= <- <-]. unfold pending, one_if, chan_queue in *. simpl.
  case_bool_decide as E.
  - subst c'. rewrite lookup_insert_eq, Hq. simpl. lia.
  - by rewrite lookup_insert_ne.
Qed.

Lemma sys_step_pending c (s s' : Zk * W) : sys_step s s' → pending c s'.1 ≤ pending c s.1.
Proof.
  destruct 1 as [o z w|p c' z w w' z' Hl Hd]; simpl; [by rewrite apply_ext_pending|].
  unfold dispatch in Hd. destruct (chan_pop c' z) as [[e z1]|] eqn:Hp; [|done].
  injection Hd as Hd. replace z' with (handle_event p c' w e z1).2 by (by rewrite Hd).
  rewrite <- (chan_pop_pending c c' z e z1 Hp). apply handle_event_pending.
Qed.

(** C10: every started loop is live: from any state, whatever the
    service answers (the oracle may fault or let other clients' updates
    fire further watches), there is a run of the system that empties the
    loop's channel, and the loop is still started at its end.  The run
    only takes iterations of this loop: each iteration either consumes an
    answer of the oracle or, once the oracle is calm, shortens the
    queue. *)
Theorem loop_drains p c (w : W) z :
  (p, c) ∈ zk_loops z →
  ∃ z' w', star sys_step (z, w) (z', w') ∧ chan_queue (zk_chans z') c = [] ∧
           (p, c) ∈ zk_loops z'.
Proof.
  intros Hl. destruct (drain_aux p c (length (zk_env z)) (length (chan_queue (zk_chans z) c)) w z)
    as (z' & w' & Hr & He); [done..|].
  exists z', w'. split_and!; [done|done|]. pose proof (star_sys_loops _ _ Hr) as E. simpl in E. by rewrite E.
Qed.

End RunProps.

Section PendingProps.
Context `{BindingCodec} {W : Type} `{IWatcher W}.

(** C11: along every run of the system, the events pending on a channel
    (queued on it, or armed as watches that deliver to it) never
    increase: each iteration of a loop takes one event and re-arms at
    most one watch, and a fired watch turns into exactly one queued
    event.  So the queue of a channel never holds more events than were
    pending on it when the run started. *)
Theorem sys_star_pending c (s s' : Zk * W) :
  star sys_step s s' →
  pending c s'.1 ≤ pending c s.1 ∧ length (chan_queue (zk_chans s'.1) c) ≤ pending c s.1.
Proof.
  intros Hs. assert (pending c s'.1 ≤ pending c s.1) as Hp.
  { induction Hs as [|a b d Hab _ IH]; [done|].
    etransitivity; [exact IH|]. by apply sys_step_pending. }
  split; [done|]. unfold pending in *. lia.
Qed.

(** Other clients' updates, one after the other, are a run. *)
Lemma star_ext_ops os z (w : W) :
  star sys_step (z, w) (fold_left (λ z o, Server.apply_ext o z) os z, w).
Proof.
  revert z. induction os as [|o os IH]; intros z; [apply star_refl|].
  eapply star_step; [apply sys_ext|apply IH].
Qed.

End PendingProps.

(** ** Presence: a broker leaving is reported to the watcher *)

Lemma filter_none {A} (P : A → Prop) `{∀ x, Decision (P x)} l :
  (∀ x, x ∈ l → ¬ P x) → filter P l = [].
Proof.
  induction l as [|x l IH]; intros Hl; [done|].
  rewrite filter_cons_False by (apply Hl; set_solver). apply IH. set_solver.
Qed.

(** The existence and child watches a query arms on a topic path [p]:
    an event of another path fires neither, and a children event of [p]
    fires the child watch only. *)
Lemma topic_watches_untouched t p q c :
  q ≠ p →
  filter (λ w, triggers t q w = true)
    [ {| w_kind := WatchExist; w_path := p; w_chan := c |};
      {| w_kind := WatchChild; w_path := p; w_chan := c |} ] = [].
Proof.
  intros Hne. apply filter_none. intros w Hw. unfold triggers. rewrite bool_decide_eq_true.
  intros [Hp _]. apply elem_of_cons in Hw as [->|Hw]; [|apply list_elem_of_singleton in Hw as ->];
    simpl in Hp; congruence.
Qed.

Lemma topic_watches_kept t p q c :
  q ≠ p →
  filter (λ w, triggers t q w = false)
    [ {| w_kind := WatchExist; w_path := p; w_chan := c |};
      {| w_kind := WatchChild; w_path := p; w_chan := c |} ] =
    [ {| w_kind := WatchExist; w_path := p; w_chan := c |};
      {| w_kind := WatchChild; w_path := p; w_chan := c |} ].
Proof.
  intros Hne. rewrite !filter_cons_True, filter_nil; [done|..];
    unfold triggers; apply bool_decide_eq_false_2; intros [Hp _]; simpl in Hp; congruence.
Qed.

Lemma topic_child_watch p c :
  filter (λ w, triggers EventNodeChildrenChanged p w = true)
    [ {| w_kind := WatchExist; w_path := p; w_chan := c |};
      {| w_kind := WatchChild; w_path := p; w_chan := c |} ] =
    [ {| w_kind := WatchChild; w_path := p; w_chan := c |} ].
Proof.
  unfold triggers. rewrite filter_cons_False, filter_cons_True, filter_nil; [done| |].
  - apply bool_decide_eq_true_2. split; [done|]. simpl. set_solver.
  - rewrite bool_decide_eq_true. intros [_ Hk]. simpl in Hk. set_solver.
Qed.

Section Presence.
Context `{BindingCodec} {W : Type} `{IWatcher W}.

(** C13: composition of discovery, the service and the loop: after
    [GetQServerAndWatch topic] started the loop of the topic's server
    directory on a fresh channel, another client deleting a broker's leaf
    ([Server.apply_ext (ExtDelete leaf)], the ephemeral node vanishing with
    its session) queues one children event on the channel, and two
    iterations of the loop (the second blocks) hand [ChildWatcher] the
    children list without that broker. *)
Theorem server_departure_notified topic host (nw : Watcher W) n z :
  zk_env z = [] → seg_ok topic = true → seg_ok host = true →
  is_Some (zk_nodes z !! node_of (server_dir topic)) →
  zk_nodes z !! node_of (server_dir topic ++ [host]) = Some n →
  child_entries (zk_nodes z) (node_of (server_dir topic ++ [host])) = [] →
  (∀ wt, wt ∈ zk_watches z → w_chan wt ≠ zkwatcher nw) →
  chan_queue (zk_chans z) (zkwatcher nw) = [] →
  let z2 := Server.apply_ext (ExtDelete (node_of (server_dir topic ++ [host])))
              (GetQServerAndWatch topic nw z).2 in
  (node_of (server_dir topic), zkwatcher nw) ∈ zk_loops z2 ∧
  (dispatch_loop 2 (node_of (server_dir topic)) (zkwatcher nw) (watcher nw) z2).1 =
    ChildWatcher (watcher nw) (node_of (server_dir topic))
      (children_of (delete (node_of (server_dir topic ++ [host])) (zk_nodes z))
                   (node_of (server_dir topic))).
Proof.
  intros He Ht Hh Hd Hn Hc Hw Hq z2.
  assert (forallb seg_ok (server_dir topic ++ [host]) = true) as Hok by (simpl; by rewrite Ht, Hh).
  assert (valid_path (node_of (server_dir topic)) = true) as Hvp
    by (apply valid_node_of; [done|simpl; by rewrite Ht]).
  assert (valid_path (node_of (server_dir topic ++ [host])) = true) as Hvl
    by (apply valid_node_of; [by destruct (server_dir topic)|done]).
  assert (node_of (server_dir topic ++ [host]) ≠ "/"%string) as Hlr
    by (apply node_of_not_root; [by destruct (server_dir topic)|done]).
  assert (node_of (server_dir topic) ≠ node_of (server_dir topic ++ [host])) as Hpl
    by (apply node_of_neq; simpl; rewrite ?Ht, ?Hh; done).
  unfold z2. change (node_of (server_dir topic)) with (KITEQ_SERVER ++ "/" ++ topic)%string in *.
  rewrite GetQServerAndWatch_calm by done.
  cbn [snd Server.apply_ext].
  rewrite (delete_ok _ _ n) by (rewrite ?set_loops_nodes, ?add_watch_nodes; done).
  rewrite parent_node_of by done.
  change (node_of (server_dir topic)) with (KITEQ_SERVER ++ "/" ++ topic)%string.
  set (path := (KITEQ_SERVER ++ "/" ++ topic)%string) in *.
  set (leaf := node_of (server_dir topic ++ [host])) in *.
  set (c := zkwatcher nw) in *.
  cbn [snd]. split; [rewrite !fire_loops; simpl; set_solver|].
  assert (∀ o, chan_queue (zk_chans (fire EventNodeChildrenChanged path (fire EventNodeDeleted leaf
     (set_own o (set_nodes (delete leaf (zk_nodes z)) (set_loops (zk_loops z ++ [(path, c)])
       (Session.add_watch WatchChild path (Some c) (Session.add_watch WatchExist path (Some c) z)))))))) c
     = [{| ev_type := EventNodeChildrenChanged; ev_path := path |}]) as Hq3.
  { intros o. rewrite !fire_queue, fire_watches.
    cbn [zk_chans zk_watches set_own set_nodes set_loops Session.add_watch set_watches].
    rewrite <- (app_assoc (zk_watches z)). cbn [app].
    rewrite Hq, !filter_app, !nwatch_app.
    rewrite (nwatch_other c _ (zk_watches z)) by done.
    rewrite (nwatch_other c _ (filter _ (zk_watches z))) by (intros ?; rewrite list_elem_of_filter; naive_solver).
    rewrite topic_watches_untouched, topic_watches_kept, topic_child_watch by congruence.
    unfold nwatch. rewrite filter_cons_True, filter_nil by done. done. }
  change (zk_nodes (set_loops _ _)) with (zk_nodes z).
  set (z3 := fire EventNodeChildrenChanged path _) in *.
  assert (chan_queue (zk_chans z3) c = [{| ev_type := EventNodeChildrenChanged; ev_path := path |}])
    as Hq4 by (unfold z3; apply Hq3).
  cbn [dispatch_loop]. unfold dispatch. rewrite (chan_pop_cons _ _ _ _ Hq4).
  rewrite handle_event_calm_eq by (simpl; rewrite ?fire_env; done).
  assert (zk_nodes (set_chans (<[c:=[]]> (zk_chans z3)) z3) = delete leaf (zk_nodes z)) as ->
    by (unfold z3; cbn [zk_nodes set_chans]; by rewrite !fire_nodes).
  unfold handle_spec; cbn [ev_type]. rewrite lookup_delete_ne by done.
  destruct Hd as [m ->]. cbn [rearm fst snd].
  unfold chan_pop, chan_queue. cbn [zk_chans Session.add_watch set_watches set_chans].
  rewrite lookup_insert_eq. done.
Qed.

End Presence.

(** ** The loop of a binding topic *)

Lemma filter_eq_NoDup {A} `{EqDecision A} (l : list A) x :
  NoDup l → x ∈ l → filter (λ y, y = x) l = [x].
Proof.
  induction 1 as [|y l Hy Hnd IH]; intros Hx; [set_solver|].
  destruct (decide (y = x)) as [->|Hne].
  - rewrite filter_cons_True, filter_none by (done || (intros ? ? ->; done)). done.
  - rewrite filter_cons_False by done. apply IH. set_solver.
Qed.

Lemma nwatch_fresh c ws : (∀ w, w ∈ ws → w_chan w ≠ c) → nwatch c ws = 0.
Proof. intros Hw. unfold nwatch. by rewrite filter_none. Qed.

Lemma nwatch_data p c gs : nwatch c (map (data_watch p c) gs) = length gs.
Proof. induction gs as [|g gs IH]; [done|]. unfold nwatch in *. simpl. rewrite filter_cons_True by done. simpl. by rewrite IH. Qed.

(** A data watch on a group leaf fires on an event of that leaf only, and
    never on an event of the topic node. *)
Lemma data_watch_triggers t p c g g' :
  WatchData ∈ kinds_of t → triggers t (p ++ "/" ++ g) (data_watch p c g') = bool_decide (g' = g).
Proof.
  intros Hk. unfold triggers, data_watch. cbn [w_path w_kind]. apply bool_decide_ext. split.
  - intros [E _]. by apply str_app_inv_l, str_app_inv_l in E.
  - by intros ->.
Qed.

Lemma data_watch_not_at t p c g : triggers t p (data_watch p c g) = false.
Proof.
  unfold triggers, data_watch. cbn [w_path]. apply bool_decide_eq_false_2. intros [E _].
  change (p ++ "/" ++ g)%string with (p ++ String "/" g)%string in E. by apply str_app_neq in E.
Qed.

Lemma filter_data_watches t p c gs g :
  WatchData ∈ kinds_of t → NoDup gs → g ∈ gs →
  filter (λ w, triggers t (p ++ "/" ++ g) w = true) (map (data_watch p c) gs) = [data_watch p c g].
Proof.
  intros Hk. induction 1 as [|g' gs Hg' Hnd IH]; intros Hg; [set_solver|]. cbn [map].
  destruct (decide (g' = g)) as [->|Hne].
  - rewrite filter_cons_True by (rewrite data_watch_triggers by done; by apply bool_decide_eq_true_2).
    rewrite filter_none; [done|]. intros w (g'' & -> & Hin)%list_elem_of_fmap.
    rewrite data_watch_triggers, bool_decide_eq_true by done. by intros ->.
  - rewrite filter_cons_False by (rewrite data_watch_triggers, bool_decide_eq_true by done; done).
    apply IH. set_solver.
Qed.

Section BindLoop.
Context `{BindingCodec} {W : Type} `{IWatcher W}.
Variables (topic : string) (nw : Watcher W) (z : Zk).
Hypotheses (Hwf : wf z) (He : zk_env z = []) (Ht : seg_ok topic = true)
  (Hd : is_Some (zk_nodes z !! (KITEQ_SUB ++ "/" ++ topic)%string))
  (Hfresh : ∀ wt, wt ∈ zk_watches z → w_chan wt ≠ zkwatcher nw)
  (Hq : chan_queue (zk_chans z) (zkwatcher nw) = []).

Local Abbreviation tpath := (KITEQ_SUB ++ "/" ++ topic)%string.
Local Abbreviation gs := (children_of (zk_nodes z) tpath).

Lemma bind_path_valid : valid_path tpath = true.
Proof. change tpath with (node_of (sub_dir topic)). apply valid_node_of; [done|]. simpl. by rewrite Ht. Qed.

Lemma bind_path_not_root : tpath ≠ "/"%string.
Proof. change tpath with (node_of (sub_dir topic)). apply node_of_not_root; [done|]. simpl. by rewrite Ht. Qed.

(** The topic path has four pieces, so it is never a binding leaf. *)
Lemma bind_path_not_bind : is_bind_path tpath = false.
Proof.
  change tpath with (node_of (sub_dir topic)). unfold is_bind_path.
  rewrite Split_node_of by (first [done | apply segs_ok_no_sep; simpl; by rewrite Ht]). done.
Qed.

Lemma bind_leaf g :
  g ∈ gs →
  is_Some (zk_nodes z !! (tpath ++ "/" ++ g)%string) ∧ valid_path (tpath ++ "/" ++ g)%string = true ∧
  parent_path (tpath ++ "/" ++ g)%string = tpath ∧ (tpath ++ "/" ++ g)%string ≠ tpath.
Proof.
  intros Hg. destruct (children_of_key (zk_nodes z) tpath g) as [Hs Hv]; [apply Hwf|apply bind_path_not_root|done|].
  split_and!; [done|done|by apply (children_of_parent (zk_nodes z)); [apply Hwf|apply bind_path_not_root|]|].
  change (tpath ++ "/" ++ g)%string with (tpath ++ String "/" g)%string. apply str_app_neq.
Qed.

Lemma bind_gs_NoDup : NoDup gs.
Proof. apply children_of_NoDup; [apply Hwf|apply bind_path_not_root]. Qed.

Lemma bind_state :
  (GetBindAndWatch topic nw z).2 =
    set_watches (zk_watches z ++
                 [ {| w_kind := WatchExist; w_path := tpath; w_chan := zkwatcher nw |};
                   {| w_kind := WatchChild; w_path := tpath; w_chan := zkwatcher nw |} ] ++
                 map (data_watch tpath (zkwatcher nw)) gs)
      (set_loops (zk_loops z ++ [(tpath, zkwatcher nw)]) z).
Proof. by apply GetBindAndWatch_state. Qed.

(** C12: the capacity of [NewWatcher]'s channel is exceeded by a topic of
    nine groups (spec 4.5 gives the capacity 10 and says nothing of a
    full channel).  With a calm service on a registered topic and a fresh
    channel, [GetBindAndWatch] queues nothing but arms on the loop's one
    channel an existence and a child watch on the topic and a data watch
    on every group leaf: [2 + n] events are pending for [n] groups, more
    than the capacity exactly when the topic has more than eight. *)
Theorem GetBindAndWatch_pending :
  pending (zkwatcher nw) (GetBindAndWatch topic nw z).2 = 2 + length gs ∧
  chan_queue (zk_chans (GetBindAndWatch topic nw z).2) (zkwatcher nw) = [] ∧
  (zkwatcher_cap < pending (zkwatcher nw) (GetBindAndWatch topic nw z).2 ↔ 8 < length gs).
Proof.
  rewrite bind_state. unfold pending. cbn [zk_chans zk_watches set_watches set_loops]. rewrite Hq.
  rewrite !nwatch_app, nwatch_fresh, nwatch_data by done.
  assert (nwatch (zkwatcher nw) [ {| w_kind := WatchExist; w_path := tpath; w_chan := zkwatcher nw |};
                                  {| w_kind := WatchChild; w_path := tpath; w_chan := zkwatcher nw |} ] = 2) as ->
    by (unfold nwatch; by rewrite !filter_cons_True). 
  unfold zkwatcher_cap. simpl. split_and!; [done|done|lia].
Qed.

(** C19: a binding update is never reported (spec 4.5 promises
    [EventNotify(.., Changed, binds)] with the new bindings).  After
    [GetBindAndWatch] on a registered topic with a fresh channel, another
    client setting the leaf of any group [g] (a re-published binding)
    queues exactly one data-change event on the topic loop's channel; the
    loop, started on the four-segment topic path, is not at a binding
    leaf, so it makes no callback and re-arms only the topic's existence
    watch: no watch of the channel is left on the leaf, so later updates
    are not even queued. *)
Theorem binding_update_not_notified g d :
  g ∈ gs →
  let z2 := Server.apply_ext (ExtSet (tpath ++ "/" ++ g) d) (GetBindAndWatch topic nw z).2 in
  chan_queue (zk_chans z2) (zkwatcher nw) =
    [ {| ev_type := EventNodeDataChanged; ev_path := (tpath ++ "/" ++ g)%string |} ] ∧
  (dispatch_loop 1 tpath (zkwatcher nw) (watcher nw) z2).1 = watcher nw ∧
  ∀ wt, wt ∈ zk_watches (dispatch_loop 1 tpath (zkwatcher nw) (watcher nw) z2).2 →
        w_chan wt = zkwatcher nw → w_path wt ≠ (tpath ++ "/" ++ g)%string.
Proof.
  intros Hg z2. destruct (bind_leaf g Hg) as ([n Hn] & Hv & _ & Hne).
  assert (z2 = fire EventNodeDataChanged (tpath ++ "/" ++ g)
                 (set_nodes (<[(tpath ++ "/" ++ g)%string := {| n_data := d; n_mode := n_mode n |}]> (zk_nodes z))
                    (GetBindAndWatch topic nw z).2)) as Hz2.
  { unfold z2. cbn [Server.apply_ext]. rewrite bind_state. unfold Server.set. rewrite Hv. simpl. by rewrite Hn. }
  assert (chan_queue (zk_chans z2) (zkwatcher nw) =
    [ {| ev_type := EventNodeDataChanged; ev_path := (tpath ++ "/" ++ g)%string |} ]) as Hq2.
  { rewrite Hz2, fire_queue, bind_state. cbn [zk_chans zk_watches set_nodes set_watches set_loops].
    rewrite Hq, !filter_app, !nwatch_app, (nwatch_other _ _ (zk_watches z)) by done.
    rewrite topic_watches_untouched, filter_data_watches by (first [apply bind_gs_NoDup | done | set_solver]).
    unfold nwatch. simpl. rewrite filter_cons_True by done. done. }
  split; [done|].
  cbn [dispatch_loop]. unfold dispatch. rewrite (chan_pop_cons _ _ _ _ Hq2).
  rewrite handle_event_calm_eq by (rewrite ?Hz2; simpl; rewrite ?fire_env; try apply bind_path_valid;
                                    rewrite ?bind_state; done).
  unfold handle_spec. cbn [ev_type]. rewrite bind_path_not_bind. cbn [negb fst snd rearm dispatch_loop].
  split; [done|]. intros wt Hin Hc Hp.
  cbn [Session.add_watch zk_watches set_watches set_chans] in Hin.
  apply elem_of_app in Hin as [Hin|Hin]; [|apply list_elem_of_singleton in Hin as ->; simpl in Hp; congruence].
  rewrite Hz2 in Hin. rewrite fire_watches, bind_state in Hin. cbn [zk_watches set_nodes set_watches set_loops] in Hin.
  apply list_elem_of_filter in Hin as [Htr Hin].
  apply elem_of_app in Hin as [Hin|Hin]; [by apply (Hfresh wt)|].
  apply elem_of_app in Hin as [Hin|(g' & -> & _)%list_elem_of_fmap].
  - apply elem_of_cons in Hin as [->|Hin]; [|apply list_elem_of_singleton in Hin as ->]; simpl in Hp; congruence.
  - unfold triggers in Htr. rewrite bool_decide_eq_false in Htr. apply Htr. split; [done|]. simpl. set_solver.
Qed.

(** C20: a group leaving a topic is reported as the topic's deletion.
    After [GetBindAndWatch] on a registered topic with a fresh channel,
    another client deleting the leaf of any group [g] queues on the
    topic loop's channel the leaf's deletion (from the data watch on the
    leaf) and then the topic's children change; the loop ignores
    [change.Path], so its two iterations call
    [EventNotify(topic, Deleted)], although the topic node still exists,
    and then [ChildWatcher] with the remaining groups. *)
Theorem group_leaf_delete_reported_as_topic_delete g :
  g ∈ gs → child_entries (zk_nodes z) (tpath ++ "/" ++ g) = [] →
  let z2 := Server.apply_ext (ExtDelete (tpath ++ "/" ++ g)) (GetBindAndWatch topic nw z).2 in
  is_Some (zk_nodes z2 !! tpath) ∧
  chan_queue (zk_chans z2) (zkwatcher nw) =
    [ {| ev_type := EventNodeDeleted; ev_path := (tpath ++ "/" ++ g)%string |};
      {| ev_type := EventNodeChildrenChanged; ev_path := tpath |} ] ∧
  (dispatch_loop 2 tpath (zkwatcher nw) (watcher nw) z2).1 =
    ChildWatcher (EventNotify (watcher nw) tpath Deleted []) tpath
      (children_of (delete (tpath ++ "/" ++ g)%string (zk_nodes z)) tpath).
Proof.
  intros Hg Hc z2. destruct (bind_leaf g Hg) as ([n Hn] & Hv & Hpar & Hne).
  assert ((tpath ++ "/" ++ g)%string ≠ "/"%string) as Hr.
  { intros E. rewrite E in Hpar. apply bind_path_not_root. by rewrite <- Hpar. }
  assert (z2 = fire EventNodeChildrenChanged tpath (fire EventNodeDeleted (tpath ++ "/" ++ g)
                 (set_own (zk_own (GetBindAndWatch topic nw z).2 ∖ {[(tpath ++ "/" ++ g)%string]})
                   (set_nodes (delete (tpath ++ "/" ++ g)%string (zk_nodes z)) (GetBindAndWatch topic nw z).2))))
    as Hz2.
  { unfold z2. cbn [Server.apply_ext]. rewrite bind_state, (delete_ok _ _ n) by (simpl; done).
    by rewrite Hpar. }
  assert (zk_nodes z2 = delete (tpath ++ "/" ++ g)%string (zk_nodes z)) as Hn2 by (by rewrite Hz2).
  assert (is_Some (zk_nodes z2 !! tpath)) as Hp2 by (rewrite Hn2, lookup_delete_ne by done; done).
  assert (chan_queue (zk_chans z2) (zkwatcher nw) =
    [ {| ev_type := EventNodeDeleted; ev_path := (tpath ++ "/" ++ g)%string |};
      {| ev_type := EventNodeChildrenChanged; ev_path := tpath |} ]) as Hq2.
  { rewrite Hz2, !fire_queue, fire_watches, bind_state.
    cbn [zk_chans zk_watches set_own set_nodes set_watches set_loops].
    rewrite Hq, !filter_app, !nwatch_app, (nwatch_other _ _ (zk_watches z)) by done.
    rewrite (nwatch_other _ _ (filter _ (zk_watches z)))
      by (intros ?; rewrite list_elem_of_filter; naive_solver).
    rewrite topic_watches_untouched, filter_data_watches by (first [apply bind_gs_NoDup | done | set_solver]).
    rewrite (filter_none _ (filter _ (map _ gs))).
    2:{ intros w Hw. apply list_elem_of_filter in Hw as [_ (g' & -> & _)%list_elem_of_fmap].
        by rewrite data_watch_not_at. }
    rewrite topic_watches_kept, topic_child_watch by done.
    unfold nwatch. rewrite !filter_cons_True, !filter_nil by done. done. }
  split_and!; [done|done|].
  rewrite (proj1 (dispatch_loop_calm 2 tpath (zkwatcher nw) (watcher nw) z2
                    ltac:(rewrite Hz2, bind_state; simpl; done) bind_path_valid ltac:(by rewrite Hq2))).
  rewrite Hq2, Hn2. simpl. unfold handle_spec. cbn [ev_type].
  rewrite lookup_delete_ne by done. destruct Hd as [m ->]. done.
Qed.

End BindLoop.

(** ** Nine groups bound to one topic *)

#[local] Existing Instance ByteCodec.byte_codec.

Definition nine_groups : list string := ["G1"; "G2"; "G3"; "G4"; "G5"; "G6"; "G7"; "G8"; "G9"]%string.

(** Nine groups each bound to topic ["A"]. *)
Definition nine_bound : Zk :=
  fold_left (λ z g, (PublishBindings map_to_list g
     [ {| GroupId := ""; Topic := "A"; Rule := "r"; Persistent := true |} ]%string z).2)
    nine_groups (zk_init []).

(** A broker has queried the bindings of ["A"] on channel 0. *)
Definition nine_watched : Zk :=
  (GetBindAndWatch "A" (NewWatcher ([] : list Callback) 0) nine_bound).2.

(** The groups leave, then the topic node is removed. *)
Definition nine_removals : list ExtOp :=
  map (λ g, ExtDelete ("/kiteq/sub/A/" ++ g ++ "-bind")%string) nine_groups ++
  [ExtDelete "/kiteq/sub/A"%string].

Definition nine_deleted : Zk := fold_left (λ z o, Server.apply_ext o z) nine_removals nine_watched.

(** ** Witnesses *)

Lemma loop_drains_witness :
  ∃ z' (w' : list Callback), star sys_step (nine_deleted, []) (z', w') ∧
    chan_queue (zk_chans z') 0 = [] ∧ ("/kiteq/sub/A"%string, 0) ∈ zk_loops z'.
Proof.
  apply loop_drains. apply list_elem_of_In. vm_compute. left. reflexivity.
Defined.

Lemma sys_star_pending_witness :
  pending 0 (nine_deleted, ([] : list Callback)).1 ≤ pending 0 (nine_watched, ([] : list Callback)).1 ∧
  length (chan_queue (zk_chans (nine_deleted, ([] : list Callback)).1) 0)
    ≤ pending 0 (nine_watched, ([] : list Callback)).1.
Proof.
  apply (sys_star_pending 0 (nine_watched, ([] : list Callback)) (nine_deleted, [])).
  unfold nine_deleted. apply star_ext_ops.
Defined.

Lemma server_departure_notified_witness :
  let z2 := Server.apply_ext (ExtDelete (node_of (server_dir "A" ++ ["h:1"])))
              (GetQServerAndWatch "A" (NewWatcher ([] : list Callback) 0) served_example).2 in
  (node_of (server_dir "A"), 0) ∈ zk_loops z2 ∧
  (dispatch_loop 2 (node_of (server_dir "A")) 0 (watcher (NewWatcher ([] : list Callback) 0)) z2).1 =
    ChildWatcher (watcher (NewWatcher ([] : list Callback) 0)) (node_of (server_dir "A"))
      (children_of (delete (node_of (server_dir "A" ++ ["h:1"])) (zk_nodes served_example))
                   (node_of (server_dir "A"))).
Proof.
  eapply (server_departure_notified "A" "h:1" (NewWatcher ([] : list Callback) 0));
    [reflexivity|reflexivity|reflexivity|vm_compute; eexists; reflexivity|vm_compute; reflexivity
    |vm_compute; reflexivity|vm_compute; intros ? Hin; by apply elem_of_nil in Hin|vm_compute; reflexivity].
Defined.

Lemma nine_bound_wf : wf nine_bound.
Proof.
  unfold nine_bound, nine_groups. cbn [fold_left].
  repeat apply PublishBindings_wf. apply zk_init_wf.
Qed.

Lemma GetBindAndWatch_pending_witness :
  (pending 0 (GetBindAndWatch "A" (NewWatcher ([] : list Callback) 0) nine_bound).2 =
     2 + length (children_of (zk_nodes nine_bound) (KITEQ_SUB ++ "/" ++ "A")%string) ∧
   chan_queue (zk_chans (GetBindAndWatch "A" (NewWatcher ([] : list Callback) 0) nine_bound).2) 0 = [] ∧
   (zkwatcher_cap < pending 0 (GetBindAndWatch "A" (NewWatcher ([] : list Callback) 0) nine_bound).2 ↔
    8 < length (children_of (zk_nodes nine_bound) (KITEQ_SUB ++ "/" ++ "A")%string))) ∧
  8 < length (children_of (zk_nodes nine_bound) (KITEQ_SUB ++ "/" ++ "A")%string).
Proof.
  split; [|vm_compute; lia].
  apply (GetBindAndWatch_pending "A" (NewWatcher ([] : list Callback) 0) nine_bound);
    [apply nine_bound_wf|reflexivity|reflexivity|vm_compute; eexists; reflexivity
    |vm_compute; intros ? Hin; by apply elem_of_nil in Hin|reflexivity].
Defined.

Lemma discovery_example_wf : wf discovery_example.
Proof. apply PublishBindings_wf, zk_init_wf. Qed.

Lemma binding_update_not_notified_witness :
  let z2 := Server.apply_ext (ExtSet ((KITEQ_SUB ++ "/" ++ "A") ++ "/" ++ "G-bind") [])
              (GetBindAndWatch "A" (NewWatcher ([] : list Callback) 0) discovery_example).2 in
  chan_queue (zk_chans z2) 0 =
    [ {| ev_type := EventNodeDataChanged; ev_path := ((KITEQ_SUB ++ "/" ++ "A") ++ "/" ++ "G-bind")%string |} ] ∧
  (dispatch_loop 1 (KITEQ_SUB ++ "/" ++ "A") 0 (watcher (NewWatcher ([] : list Callback) 0)) z2).1 =
    watcher (NewWatcher ([] : list Callback) 0) ∧
  ∀ wt, wt ∈ zk_watches (dispatch_loop 1 (KITEQ_SUB ++ "/" ++ "A") 0 (watcher (NewWatcher ([] : list Callback) 0)) z2).2 →
        w_chan wt = 0 → w_path wt ≠ ((KITEQ_SUB ++ "/" ++ "A") ++ "/" ++ "G-bind")%string.
Proof.
  apply (binding_update_not_notified "A" (NewWatcher ([] : list Callback) 0) discovery_example);
    [apply discovery_example_wf|reflexivity|reflexivity|vm_compute; eexists; reflexivity
    |vm_compute; intros ? Hin; by apply elem_of_nil in Hin|reflexivity
    |apply list_elem_of_In; vm_compute; left; reflexivity].
Defined.

Lemma group_leaf_delete_reported_as_topic_delete_witness :
  let z2 := Server.apply_ext (ExtDelete ((KITEQ_SUB ++ "/" ++ "A") ++ "/" ++ "G-bind"))
              (GetBindAndWatch "A" (NewWatcher ([] : list Callback) 0) discovery_example).2 in
  is_Some (zk_nodes z2 !! (KITEQ_SUB ++ "/" ++ "A")%string) ∧
  chan_queue (zk_chans z2) 0 =
    [ {| ev_type := EventNodeDeleted; ev_path := ((KITEQ_SUB ++ "/" ++ "A") ++ "/" ++ "G-bind")%string |};
      {| ev_type := EventNodeChildrenChanged; ev_path := (KITEQ_SUB ++ "/" ++ "A")%string |} ] ∧
  (dispatch_loop 2 (KITEQ_SUB ++ "/" ++ "A") 0 (watcher (NewWatcher ([] : list Callback) 0)) z2).1 =
    ChildWatcher (EventNotify (watcher (NewWatcher ([] : list Callback) 0)) (KITEQ_SUB ++ "/" ++ "A") Deleted [])
      (KITEQ_SUB ++ "/" ++ "A")
      (children_of (delete ((KITEQ_SUB ++ "/" ++ "A") ++ "/" ++ "G-bind")%string (zk_nodes discovery_example))
         (KITEQ_SUB ++ "/" ++ "A")).
Proof.
  apply (group_leaf_delete_reported_as_topic_delete "A" (NewWatcher ([] : list Callback) 0) discovery_example);
    [apply discovery_example_wf|reflexivity|reflexivity|vm_compute; eexists; reflexivity
    |vm_compute; intros ? Hin; by apply elem_of_nil in Hin|reflexivity
    |apply list_elem_of_In; vm_compute; left; reflexivity|vm_compute; reflexivity].
Defined.
