(* ===== verification/Manager.v ===== *)
(** * ZKManager: [NewZKManager] and [Close]

    zk_manager.go lines 18-20 ([ZKManager]), 48-79 ([NewZKManager]) and
    348-350 ([Close]).  [NewZKManager] defaults the host list, splits it
    on [","], dials, and makes sure [/kiteq] exists, creating it
    persistent when [Exists] says it is absent; each failure is a
    [panic], modelled as the outcome [Panicked] with the site and the
    error.  [Close] ends the session; the service then removes the
    ephemeral nodes this session created (spec 4.1: an ephemeral node is
    bound to the liveness of the session that created it), which the
    state records in [zk_own], and the session's watches.  Section
    [OwnSince] follows that record through the presence registration. *)

From S2P Require Import Prelude GoStrings Coord Registrar Binding Publisher.
Open Scope string_scope.

(** [zk.Config{Addrs, Timeout}]; the timeout in milliseconds. *)
Record Config := { Addrs : list string; Timeout : nat }.

(** [ZKManager{session}]: the session is the [Zk] state every operation
    threads; the manager keeps the configuration it dialled. *)
Record ZKManager := { session_conf : Config }.

(** The three [panic] calls of [NewZKManager]. *)
Inductive PanicSite := PanicDial | PanicExistsRoot | PanicCreateRoot.

(** A Go call that returns or panics. *)
Inductive Outcome (A : Type) := Returned (a : A) | Panicked (site : PanicSite) (e : error).
Arguments Returned {A}.
Arguments Panicked {A}.

(** [zk.Dial(conf)]: connects or fails; the oracle decides. *)
Definition Dial (conf : Config) : St Zk (res unit) := Session.call (λ z, (Ok tt, z)).

(** The host list after the [len(zkhosts) <= 0] test (lines 49-54). *)
Definition default_zkhosts (zkhosts : string) : string :=
  if (String.length zkhosts <=? 0)%nat then "localhost:2181" else zkhosts.

(** [NewZKManager(zkhosts)] (lines 48-79); [exist'] is the code's [exist],
    a constructor name in Rocq. *)
Definition NewZKManager (zkhosts : string) : St Zk (Outcome ZKManager) :=
  let zkhosts := default_zkhosts zkhosts in
  let conf := {| Addrs := Split zkhosts ","; Timeout := 5000 |} in
  d <- Dial conf ;;
  match d with
  | Err e => st_ret (Panicked PanicDial e)
  | Ok _ =>
      r <- Session.Exists KITEQ None ;;
      match r with
      | Err e => st_ret (Panicked PanicExistsRoot e)
      | Ok exist' =>
          if negb exist' then
            c <- Session.Create KITEQ [] CreatePersistent ;;
            match c with
            | Err e => st_ret (Panicked PanicCreateRoot e)
            | Ok _ => st_ret (Returned {| session_conf := conf |})
            end
          else st_ret (Returned {| session_conf := conf |})
      end
  end.

(** [self.session.Close()] (lines 348-350): the service removes the
    ephemeral nodes the session created and the session's watches; the
    session owns nothing afterwards. *)
Definition Close : St Zk unit := λ z,
  (tt, set_own ∅ (set_watches [] (set_nodes
     (filter (λ kv : string * Node, ¬ (kv.1 ∈ zk_own z ∧ n_mode kv.2 = CreateEphemeral))
             (zk_nodes z)) z))).

Close Scope string_scope.

Arguments Dial : simpl never.

(** ** Lemmas *)

Lemma valid_KITEQ : valid_path KITEQ = true.
Proof. reflexivity. Qed.

Lemma parent_KITEQ : parent_path KITEQ = "/"%string.
Proof. reflexivity. Qed.

Lemma Dial_calm conf z : zk_env z = [] → Dial conf z = (Ok tt, z).
Proof. apply call_calm. Qed.

Lemma Dial_nodes conf z : zk_nodes (Dial conf z).2 = zk_nodes z ∨ ∃ o, (Dial conf z).2 = Server.apply_ext o (Session.env_step z).2.
Proof.
  unfold Dial, Session.call, Session.env_step.
  destruct (zk_env z) as [|[| |o] es]; simpl; eauto.
Qed.

(** Every [Returned] manager carries the same configuration. *)
Lemma NewZKManager_Returned zkhosts z m :
  (NewZKManager zkhosts z).1 = Returned m →
  m = {| session_conf := {| Addrs := Split (default_zkhosts zkhosts) ","; Timeout := 5000 |} |}.
Proof.
  unfold NewZKManager. cbv zeta. unfold st_bind.
  destruct (Dial _ z) as [[[]|e] z1]; cbn [fst snd]; [|done].
  destruct (Session.Exists _ _ z1) as [[[]|e] z2]; cbn [fst snd negb]; try done; [by intros [= <-]|].
  destruct (Session.Create _ _ _ z2) as [[q|e] z3]; cbn [fst snd]; [by intros [= <-]|done].
Qed.

Lemma Close_lookup z p n :
  zk_nodes (Close z).2 !! p = Some n ↔
  zk_nodes z !! p = Some n ∧ ¬ (p ∈ zk_own z ∧ n_mode n = CreateEphemeral).
Proof. cbn [Close snd zk_nodes set_own set_watches set_nodes]. by rewrite map_lookup_filter_Some. Qed.

(** Only ephemeral nodes go, and they are leaves: the namespace stays a
    tree. *)
Lemma Close_wf z : wf z → wf (Close z).2.
Proof.
  intros [[r [Hr Hrm]] Hv Hp]. split.
  - exists r. rewrite Close_lookup, Hrm. naive_solver.
  - intros q n [Hq _]%Close_lookup. by eapply Hv.
  - intros q n [Hq _]%Close_lookup Hne.
    destruct (Hp q n Hq Hne) as (pn & Hpn & Hm). exists pn. rewrite Close_lookup, Hm. naive_solver.
Qed.

(** ** Properties of the manager's construction *)

(** C28: with a calm service on a well-formed namespace, [NewZKManager]
    returns a manager dialled with the host list split on [","] (the
    default ["localhost:2181"] for an empty list) and a 5 s timeout;
    afterwards [/kiteq] exists, persistent when it was created by this
    call, and the namespace is still well formed. *)
Theorem NewZKManager_calm zkhosts z :
  wf z → zk_env z = [] →
  (NewZKManager zkhosts z).1 =
    Returned {| session_conf := {| Addrs := Split (default_zkhosts zkhosts) ","; Timeout := 5000 |} |} ∧
  wf (NewZKManager zkhosts z).2 ∧
  ∃ n, zk_nodes (NewZKManager zkhosts z).2 !! KITEQ = Some n ∧
       (zk_nodes z !! KITEQ = None → n_mode n = CreatePersistent).
Proof.
  intros Hwf He. unfold NewZKManager. cbv zeta. unfold st_bind.
  rewrite Dial_calm by done. cbn [fst snd].
  rewrite Exists_calm by done. cbn [fst snd Session.add_watch].
  destruct (zk_nodes z !! KITEQ) as [n|] eqn:Hk.
  - rewrite bool_decide_eq_true_2 by eauto. cbn [negb st_ret fst snd].
    split_and!; [done|done|]. exists n. by split.
  - rewrite bool_decide_eq_false_2 by (by intros []). cbn [negb].
    destruct (wf_root _ Hwf) as (r & Hr & Hrm).
    rewrite Create_calm by done.
    rewrite (create_ok KITEQ [] CreatePersistent z r) by (rewrite ?parent_KITEQ; done).
    cbn [Session.own_created fst snd st_ret]. split_and!; [done| |].
    + apply wf_fire, wf_fire, wf_insert_fresh; try done. rewrite parent_KITEQ. eauto.
    + rewrite !fire_nodes. cbn [zk_nodes set_nodes]. rewrite lookup_insert_eq. by eexists.
Qed.

(** C30: whatever the service answers (faults, other clients' updates),
    a [NewZKManager] that returns leaves [/kiteq] in the namespace: every
    other path ends in a [panic]. *)
Theorem NewZKManager_root_present zkhosts z m :
  (NewZKManager zkhosts z).1 = Returned m →
  is_Some (zk_nodes (NewZKManager zkhosts z).2 !! KITEQ).
Proof.
  unfold NewZKManager. cbv zeta. unfold st_bind.
  destruct (Dial _ z) as [[[]|e] z1]; cbn [fst snd]; [|done].
  destruct (Session.Exists KITEQ None z1) as [[[]|e] z2] eqn:Ex; cbn [fst snd negb]; try done.
  - intros _. pose proof (Exists_true_present KITEQ None z1) as H. rewrite Ex in H. by apply H.
  - destruct (Session.Create KITEQ [] CreatePersistent z2) as [[q|e] z3] eqn:Ec; cbn [fst snd]; [|done].
    intros _. pose proof (Create_ok_present KITEQ [] CreatePersistent z2 q) as H.
    rewrite Ec in H. by apply H.
Qed.

(** C29: two brokers starting together can crash one of them.  When
    another client creates [/kiteq] between this [NewZKManager]'s
    [Exists] and its [Create], the [Create] fails with [ErrNodeExists]
    and [NewZKManager] panics, although the node it needed now exists
    (spec 5: creation of the shared namespace should tolerate a
    concurrent creator). *)
Theorem NewZKManager_root_race zkhosts d' m' es z :
  wf z → zk_env z = Calm :: Calm :: Race (ExtCreate KITEQ d' m') :: es →
  zk_nodes z !! KITEQ = None →
  (NewZKManager zkhosts z).1 = Panicked PanicCreateRoot ErrNodeExists ∧
  is_Some (zk_nodes (NewZKManager zkhosts z).2 !! KITEQ).
Proof.
  intros Hwf He Hk. destruct (wf_root _ Hwf) as (r & Hr & Hrm).
  unfold NewZKManager. cbv zeta. unfold st_bind, Dial.
  rewrite (call_calm_cons _ _ _ He). cbn [fst snd].
  unfold Session.Exists. rewrite (call_calm_cons _ _ (Race (ExtCreate KITEQ d' m') :: es)) by done.
  cbn [zk_nodes set_env negb valid_path]. rewrite valid_KITEQ. cbn [negb fst snd Session.add_watch].
  rewrite bool_decide_eq_false_2 by (cbn [zk_nodes set_env]; rewrite Hk; by intros []). cbn [negb].
  unfold Session.Create. rewrite (call_race _ _ _ es) by done. cbn [Server.apply_ext].
  rewrite (create_ok KITEQ d' m' _ r) by (rewrite ?parent_KITEQ; done). cbn [fst snd].
  rewrite (create_exists _ _ _ _ {| n_data := d'; n_mode := m' |}) by
    (done || (rewrite !fire_nodes; cbn [zk_nodes set_nodes]; apply lookup_insert_eq)).
  cbn [Session.own_created fst snd st_ret]. split; [done|].
  rewrite !fire_nodes. cbn [zk_nodes set_nodes]. rewrite lookup_insert_eq. by eexists.
Qed.

(** The manager's address list is the host string cut at its
    commas: joining it back with [","] gives the host string the code
    dialled (the default one for an empty string). *)
Lemma NewZKManager_addrs_roundtrip zkhosts z m :
  (NewZKManager zkhosts z).1 = Returned m →
  Join (Addrs (session_conf m)) "," = default_zkhosts zkhosts ∧ Addrs (session_conf m) ≠ [].
Proof.
  intros H. apply NewZKManager_Returned in H as ->. cbn [Addrs session_conf].
  split; [apply Join_Split|apply Split_not_nil].
Qed.

(** ** What [Close] removes after a calm registration *)

(** The node a presence registration leaves at a path that is not one of
    its directories is the old one or a node of the registration's mode. *)
Lemma register_spec_mode m segs c ct q n :
  register_spec m segs c None ct !! q = Some n → q ∉ prefix_paths [] segs →
  m !! q = Some n ∨ n_mode n = ct.
Proof.
  intros H Hq. unfold register_spec in H.
  destruct (decide (q = node_of (segs ++ [c]))) as [->|Hne].
  - rewrite put_node_lookup_eq, ensure_dirs_not_in in H by done. injection H as <-.
    destruct (m !! _); [by left|by right].
  - rewrite put_node_lookup_ne, ensure_dirs_not_in in H by done. by left.
Qed.

Lemma fold_server_mode hostport topics m q n :
  fold_left (λ m t, register_spec m (server_dir t) hostport None CreateEphemeral) topics m !! q = Some n →
  (∀ t, t ∈ topics → q ∉ prefix_paths [] (server_dir t)) →
  m !! q = Some n ∨ n_mode n = CreateEphemeral.
Proof.
  revert m. induction topics as [|t ts IH]; intros m H Hq; simpl in H; [by left|].
  destruct (IH _ H) as [H1|]; [set_solver| |by right].
  apply register_spec_mode in H1; [done|]. apply Hq. set_solver.
Qed.

Section OwnSince.
Variable z0 : Zk.

(** Since [z0], with no other client acting, the session has only added
    nodes, has recorded as its own every ephemeral node it added, and owns
    nothing else that existed in [z0] without being its own there. *)
Record own_since (z : Zk) : Prop := {
  os_env : zk_env z = [];
  os_keep : ∀ p, is_Some (zk_nodes z0 !! p) → is_Some (zk_nodes z !! p);
  os_new : ∀ p n, zk_nodes z !! p = Some n → n_mode n = CreateEphemeral →
                  zk_nodes z0 !! p = None → p ∈ zk_own z;
  os_old : ∀ p, p ∈ zk_own z → p ∈ zk_own z0 ∨ zk_nodes z0 !! p = None
}.

Lemma own_since_frame z z' :
  zk_nodes z' = zk_nodes z → zk_own z' = zk_own z → zk_env z' = zk_env z →
  own_since z → own_since z'.
Proof. intros Hn Ho He [H1 H2 H3 H4]. split; rewrite ?Hn, ?Ho, ?He; done. Qed.

Lemma Exists_own_since p w : preserves own_since (Session.Exists p w).
Proof.
  intros z Hz. unfold Session.Exists. rewrite call_calm by apply Hz.
  destruct (valid_path p); simpl; [|done].
  apply (own_since_frame z); [apply add_watch_nodes|by destruct w|apply add_watch_env|done].
Qed.

Lemma sleep_own_since ms : preserves own_since (Session.sleep ms).
Proof. intros z Hz. by apply (own_since_frame z). Qed.

Lemma SetData_own_since p d : preserves own_since (Session.SetData p d).
Proof.
  intros z [He Hk Hn Ho]. unfold Session.SetData. rewrite call_calm by done.
  unfold Server.set. destruct (valid_path p); simpl; [|by split].
  destruct (zk_nodes z !! p) as [n|] eqn:Hp; simpl; [|by split].
  split; rewrite ?fire_nodes, ?fire_own, ?fire_env; cbn [zk_nodes zk_own zk_env set_nodes]; [done| | |done].
  - intros q Hq. rewrite lookup_insert_is_Some'. auto.
  - intros q n' [[<- <-]|[_ Hq]]%lookup_insert_Some; [|by apply Hn].
    cbn [n_mode]. by eapply Hn.
Qed.

Lemma Create_own_since p d m : preserves own_since (Session.Create p d m).
Proof.
  intros z [He Hk Hn Ho]. rewrite Create_calm by done.
  unfold Server.create. destruct (valid_path p); simpl; [|by split].
  destruct (zk_nodes z !! p) as [n|] eqn:Hp; simpl; [by split|].
  destruct (zk_nodes z !! parent_path p) as [pn|]; simpl; [|by split].
  case_bool_decide; simpl; [by split|].
  assert (zk_nodes z0 !! p = None) as Hp0.
  { destruct (zk_nodes z0 !! p) eqn:E; [|done]. destruct (Hk p) as [? Hx]; [by eexists|]. congruence. }
  destruct m; cbn [Session.own_created fst snd];
    split; cbn [zk_nodes zk_own zk_env set_own]; rewrite ?fire_nodes, ?fire_own, ?fire_env;
    cbn [zk_nodes zk_own zk_env set_nodes]; try done; try (intros q Hq; rewrite lookup_insert_is_Some'; by auto).
  - intros q n' [[<- <-]|[_ Hq]]%lookup_insert_Some; [discriminate|by eapply Hn].
  - intros q n' [[<- <-]|[_ Hq]]%lookup_insert_Some ? ?; [set_solver|].
    apply elem_of_union_r. by eapply Hn.
  - intros q [->%elem_of_singleton|Hq]%elem_of_union; [by right|by apply Ho].
Qed.

#[local] Hint Resolve Exists_own_since sleep_own_since SetData_own_since Create_own_since : kiteq.

Lemma confirm_loop_own_since p i n : preserves own_since (confirm_loop p i n).
Proof. revert i; induction n; intros i; simpl; preserves_tac. Qed.
#[local] Hint Resolve confirm_loop_own_since : kiteq.

Lemma innerCreatePath_own_since p data ct : preserves own_since (innerCreatePath p data ct).
Proof. unfold innerCreatePath. preserves_tac. Qed.
#[local] Hint Resolve innerCreatePath_own_since : kiteq.

Lemma traverse_loop_own_since t segs : preserves own_since (traverse_loop t segs).
Proof. revert t; induction segs as [|v [|w segs] IH]; intros t; simpl; preserves_tac. Qed.
#[local] Hint Resolve traverse_loop_own_since : kiteq.

Lemma PublishQServer_own_since hostport topics : preserves own_since (PublishQServer hostport topics).
Proof.
  unfold PublishQServer. apply preserves_for. intros t. cbv zeta.
  unfold registePath, traverseCreatePath. preserves_tac.
Qed.

End OwnSince.

Lemma own_since_refl z : zk_env z = [] → own_since z z.
Proof. intros He. split; try done. - intros p n Hp _ E. congruence. - by left. Qed.

(** C32: closing the session after a calm presence registration removes
    exactly what the session brought and nothing of anyone else's.
    After [PublishQServer] on a well-formed namespace with a calm
    service, [Close] leaves a well-formed namespace without watches; the
    presence node [/kiteq/server/<topic>/<hostport>] of every topic that
    did not have one before existed after the registration and is gone
    after [Close]; and every node that existed before and was not one of
    this session's ephemeral nodes, ephemeral nodes of other clients
    included, is still there. *)
Theorem PublishQServer_Close hostport topics z :
  wf z → zk_env z = [] → seg_ok hostport = true → forallb seg_ok topics = true →
  (∀ t, t ∈ topics → dirs_persistent (zk_nodes z) (prefix_paths [] (server_dir t))) →
  let z1 := (PublishQServer hostport topics z).2 in
  wf (Close z1).2 ∧ zk_watches (Close z1).2 = [] ∧
  (∀ t, t ∈ topics → zk_nodes z !! node_of (server_dir t ++ [hostport]) = None →
     is_Some (zk_nodes z1 !! node_of (server_dir t ++ [hostport])) ∧
     zk_nodes (Close z1).2 !! node_of (server_dir t ++ [hostport]) = None) ∧
  (∀ p, is_Some (zk_nodes z !! p) → p ∉ zk_own z → is_Some (zk_nodes (Close z1).2 !! p)).
Proof.
  intros Hwf He Hh Hts Hd z1.
  destruct (register_each_refines server_dir hostport CreateEphemeral (λ _, None) topics 3
              ltac:(intros t Ht; split_and!; [done|done|]; simpl; by rewrite (seg_ok_forallb_mem topics t), Hh)
              z ltac:(done)) as (_ & R2 & R3).
  rewrite <- PublishQServer_each in R2, R3. fold z1 in R2, R3.
  assert (own_since z z1) as Hos by (apply PublishQServer_own_since, own_since_refl, He).
  split_and!; [apply Close_wf, PublishQServer_wf, Hwf|done| |].
  - intros t Ht Hnone. split; [by apply R3|].
    destruct (zk_nodes (Close z1).2 !! _) as [n|] eqn:E; [|done].
    apply Close_lookup in E as [E1 E2]. exfalso. apply E2.
    assert (n_mode n = CreateEphemeral) as Hm.
    { rewrite R2 in E1. apply fold_server_mode in E1 as [?|?]; [congruence|done|].
      intros t' Ht'. apply longer_not_prefix; [simpl; lia| |].
      - simpl. by rewrite (seg_ok_forallb_mem topics t), Hh.
      - simpl. by rewrite (seg_ok_forallb_mem topics t'). }
    split; [|done]. by apply (os_new _ _ Hos _ n).
  - intros p Hp Hown. destruct (os_keep _ _ Hos p Hp) as [n Hn]. exists n.
    apply Close_lookup. split; [done|]. intros [Hin _].
    destruct (os_old _ _ Hos p Hin) as [?|?]; [done|]. destruct Hp. congruence.
Qed.

(** ** Witnesses *)

#[local] Existing Instance ByteCodec.byte_codec.

Definition two_hosts : string := "zk1:2181,zk2:2181".

Lemma NewZKManager_calm_witness :
  (NewZKManager "" (zk_init [])).1 =
    Returned {| session_conf := {| Addrs := ["localhost:2181"%string]; Timeout := 5000 |} |} ∧
  wf (NewZKManager "" (zk_init [])).2 ∧
  ∃ n, zk_nodes (NewZKManager "" (zk_init [])).2 !! KITEQ = Some n ∧
       (zk_nodes (zk_init []) !! KITEQ = None → n_mode n = CreatePersistent).
Proof. apply (NewZKManager_calm "" (zk_init [])); [apply zk_init_wf|reflexivity]. Defined.

Lemma NewZKManager_root_present_witness :
  is_Some (zk_nodes (NewZKManager two_hosts (zk_init [Calm; Race (ExtCreate KITEQ [] CreatePersistent)])).2
             !! KITEQ).
Proof.
  apply (NewZKManager_root_present _ _
           {| session_conf := {| Addrs := ["zk1:2181"; "zk2:2181"]%string; Timeout := 5000 |} |}).
  vm_compute. reflexivity.
Defined.

Lemma NewZKManager_root_race_witness :
  (NewZKManager two_hosts (zk_init [Calm; Calm; Race (ExtCreate KITEQ [] CreatePersistent)])).1 =
    Panicked PanicCreateRoot ErrNodeExists ∧
  is_Some (zk_nodes (NewZKManager two_hosts
                       (zk_init [Calm; Calm; Race (ExtCreate KITEQ [] CreatePersistent)])).2 !! KITEQ).
Proof. apply (NewZKManager_root_race _ [] CreatePersistent []); [apply zk_init_wf|reflexivity|reflexivity]. Defined.

(** Another client's ephemeral node ["/other"] exists when a broker
    registers for topic ["A"]. *)
Definition other_ephemeral : Zk := Server.apply_ext (ExtCreate "/other" [] CreateEphemeral) (zk_init []).

Lemma PublishQServer_Close_witness :
  wf other_ephemeral ∧ zk_env other_ephemeral = [] ∧
  (let z1 := (PublishQServer "h:1" ["A"%string] other_ephemeral).2 in
   wf (Close z1).2 ∧ zk_watches (Close z1).2 = [] ∧
   (∀ t, t ∈ ["A"%string] → zk_nodes other_ephemeral !! node_of (server_dir t ++ ["h:1"%string]) = None →
      is_Some (zk_nodes z1 !! node_of (server_dir t ++ ["h:1"%string])) ∧
      zk_nodes (Close z1).2 !! node_of (server_dir t ++ ["h:1"%string]) = None) ∧
   (∀ p, is_Some (zk_nodes other_ephemeral !! p) → p ∉ zk_own other_ephemeral →
      is_Some (zk_nodes (Close z1).2 !! p))) ∧
  is_Some (zk_nodes other_ephemeral !! "/other"%string) ∧ "/other"%string ∉ zk_own other_ephemeral.
Proof.
  assert (wf other_ephemeral) as Hwf by (apply apply_ext_wf, zk_init_wf).
  split_and!; [done|reflexivity| |eexists; reflexivity|set_solver].
  apply (PublishQServer_Close "h:1" ["A"%string] other_ephemeral); [done|reflexivity|reflexivity|reflexivity|].
  intros t Ht. apply list_elem_of_singleton in Ht as ->.
  apply dirs_persistentb_sound. vm_compute. reflexivity.
Defined.
