(* ===== verification/Store.v ===== *)
(** * MessageStore: [MessageEntity] and the [IKiteStore] contract

    kite_store.go.  [MessageEntity] (lines 9-28) and its constructors
    [NewStringMessageEntity] / [NewBytesMessageEntity] (lines 39-72),
    [String] and [GetBody] (lines 30-36); the interface [IKiteStore]
    (lines 75-82) as a class of state-passing operations.  The engine
    behind the interface is not in the repository: its contract (spec
    4.7 and 8.7) is the class [KiteStoreContract]; [MemStore] is an
    in-memory store that meets it.  The theorem on the constructors is
    proved against the contract, for every store that meets it.

    The protocol messages (package [kiteq/protocol], not in the
    repository) are records holding what the constructors read. *)

From S2P Require Import Prelude.
Open Scope string_scope.

(** [protocol.Header], through its getters. *)
Record ProtoHeader := {
  GetMessageId : string;
  GetTopic : string;
  GetMessageType : string;
  GetExpiredTime : Z;
  GetGroupId : string;
  GetCommit : bool
}.

(** [protocol.StringMessage] and [protocol.BytesMessage]. *)
Record StringMessage := { sm_Header : ProtoHeader; sm_Body : string }.
Record BytesMessage := { bm_Header : ProtoHeader; bm_Body : bytes }.

(** The message kinds [protocol.CMD_STRING_MESSAGE] and
    [protocol.CMD_BYTES_MESSAGE] ([uint8] codes in the protocol). *)
Inductive MsgType := CMD_STRING_MESSAGE | CMD_BYTES_MESSAGE.
#[export] Instance MsgType_eq_dec : EqDecision MsgType.
Proof. solve_decision. Defined.

(** [MessageEntity] (lines 9-28); [int64] fields as [Z]. *)
Record MessageEntity := {
  Header : ProtoHeader;
  body : bytes;
  msgType : MsgType;
  messageId : string;
  topic : string;
  messageType : string;
  publishGroup : string;
  commit : bool;
  expiredTime : Z;
  kiteQServer : string;
  failGroupTags : list string;
  nextDeliverTime : Z
}.

(** [fmt.Sprintf("%t", b)]. *)
Definition format_bool (b : bool) : string := if b then "true" else "false".

(** method [String] of [*MessageEntity] (lines 30-32), named [String_]:
    [String] is the constructor of [string]. *)
Definition String_ (self : MessageEntity) : string :=
  "id:" ++ messageId self ++ " topic:" ++ topic self ++ " commit:" ++ format_bool (commit self) ++
  " body:" ++ string_of_list_byte (body self).

(** method [GetBody] of [*MessageEntity] (lines 34-36). *)
Definition GetBody (self : MessageEntity) : bytes := body self.

(** [NewStringMessageEntity(msg)] (lines 39-54); the fields the literal
    leaves out have Go's zero values. *)
Definition NewStringMessageEntity (msg : StringMessage) : MessageEntity :=
  {| Header := sm_Header msg;
     messageId := GetMessageId (sm_Header msg);
     topic := GetTopic (sm_Header msg);
     publishGroup := GetGroupId (sm_Header msg);
     messageType := GetMessageType (sm_Header msg);
     commit := GetCommit (sm_Header msg);
     expiredTime := GetExpiredTime (sm_Header msg);
     msgType := CMD_STRING_MESSAGE;
     body := list_byte_of_string (sm_Body msg);
     kiteQServer := "";
     failGroupTags := [];
     nextDeliverTime := 0 |}.

(** [NewBytesMessageEntity(msg)] (lines 56-72). *)
Definition NewBytesMessageEntity (msg : BytesMessage) : MessageEntity :=
  {| Header := bm_Header msg;
     messageId := GetMessageId (bm_Header msg);
     topic := GetTopic (bm_Header msg);
     publishGroup := GetGroupId (bm_Header msg);
     messageType := GetMessageType (bm_Header msg);
     commit := GetCommit (bm_Header msg);
     expiredTime := GetExpiredTime (bm_Header msg);
     msgType := CMD_BYTES_MESSAGE;
     body := bm_Body msg;
     kiteQServer := "";
     failGroupTags := [];
     nextDeliverTime := 0 |}.

(** [IKiteStore] (lines 75-82): the store's state [S] is passed and
    returned; every operation but [Query] answers success. *)
Class IKiteStore (S : Type) := {
  Query : S → string → option MessageEntity;
  Save : MessageEntity → S → bool * S;
  Commit : string → S → bool * S;
  Rollback : string → S → bool * S;
  UpdateEntity : MessageEntity → S → bool * S;
  Delete : string → S → bool * S
}.

Close Scope string_scope.

(** ** The storage contract (spec 4.7 and 8.7)

    What the rest of the broker may assume of any [IKiteStore]: [Save]
    refuses a duplicate [messageId] and stores the entity it accepts;
    [Commit] fails on an unknown id and is the only operation that marks
    an entry committed; [Rollback] fails on a committed entry and never
    adds or commits one; [UpdateEntity] keeps the identity fields and the
    commit flag; [Delete] only removes.  Each operation leaves the other
    ids alone. *)
Class KiteStoreContract (S : Type) `{IKiteStore S} := {
  save_duplicate e s : is_Some (Query s (messageId e)) → (Save e s).1 = false;
  save_stores e s : (Save e s).1 = true → Query (Save e s).2 (messageId e) = Some e;
  save_failed e s : (Save e s).1 = false → Query (Save e s).2 (messageId e) = Query s (messageId e);
  save_other e s id : id ≠ messageId e → Query (Save e s).2 id = Query s id;
  commit_unknown id s : Query s id = None → (Commit id s).1 = false;
  commit_sets id s : (Commit id s).1 = true →
    ∃ e, Query (Commit id s).2 id = Some e ∧ commit e = true;
  commit_other id s id' : id' ≠ id → Query (Commit id s).2 id' = Query s id';
  rollback_committed id s e : Query s id = Some e → commit e = true → (Rollback id s).1 = false;
  rollback_keeps id s id' e' : Query (Rollback id s).2 id' = Some e' →
    ∃ e, Query s id' = Some e ∧ commit e' = commit e;
  update_identity e s id e' : Query (UpdateEntity e s).2 id = Some e' →
    ∃ e0, Query s id = Some e0 ∧ messageId e' = messageId e0 ∧ topic e' = topic e0 ∧
          body e' = body e0 ∧ commit e' = commit e0;
  delete_removes id s id' e' : Query (Delete id s).2 id' = Some e' → Query s id' = Some e'
}.

(** ** An in-memory store that meets the contract *)

Module MemStore.

Definition with_commit (e : MessageEntity) : MessageEntity :=
  {| Header := Header e; body := body e; msgType := msgType e; messageId := messageId e;
     topic := topic e; messageType := messageType e; publishGroup := publishGroup e;
     commit := true; expiredTime := expiredTime e; kiteQServer := kiteQServer e;
     failGroupTags := failGroupTags e; nextDeliverTime := nextDeliverTime e |}.

(** The delivery-tracking fields of [e] on the stored entity [old]. *)
Definition with_delivery (old e : MessageEntity) : MessageEntity :=
  {| Header := Header old; body := body old; msgType := msgType old; messageId := messageId old;
     topic := topic old; messageType := messageType old; publishGroup := publishGroup old;
     commit := commit old; expiredTime := expiredTime old; kiteQServer := kiteQServer e;
     failGroupTags := failGroupTags e; nextDeliverTime := nextDeliverTime e |}.

Abbreviation store := (gmap string MessageEntity).

#[export] Instance mem_store : IKiteStore store := {
  Query s id := s !! id;
  Save e s := match s !! messageId e with
              | Some _ => (false, s)
              | None => (true, <[messageId e := e]> s)
              end;
  Commit id s := match s !! id with
                 | None => (false, s)
                 | Some e => (true, <[id := with_commit e]> s)
                 end;
  Rollback id s := match s !! id with
                   | Some e => if commit e then (false, s) else (true, delete id s)
                   | None => (false, s)
                   end;
  UpdateEntity e s := match s !! messageId e with
                      | None => (false, s)
                      | Some old => (true, <[messageId e := with_delivery old e]> s)
                      end;
  Delete id s := (bool_decide (is_Some (s !! id)), delete id s)
}.

#[export] Instance mem_store_contract : KiteStoreContract store.
Proof.
  split; cbn [Query Save Commit Rollback UpdateEntity Delete mem_store fst snd].
  - intros e s [x ->]. done.
  - intros e s. case_match; cbn [fst snd] in *; [done|]. intros _. apply lookup_insert_eq.
  - intros e s. case_match; cbn [fst snd] in *; [done|done].
  - intros e s id Hne. case_match; cbn [fst snd] in *; [done|]. by apply lookup_insert_ne.
  - intros id s ->. done.
  - intros id s. case_match; cbn [fst snd] in *; [|done]. intros _. eexists; split; [apply lookup_insert_eq|done].
  - intros id s id' Hne. case_match; cbn [fst snd] in *; [|done]. by apply lookup_insert_ne.
  - intros id s e -> ->. done.
  - intros id s id' e'. repeat case_match; cbn [fst snd] in *; cbn [fst snd] in *; try (intros ->; by eexists).
    destruct (decide (id' = id)) as [->|Hne]; [by rewrite lookup_delete_eq|].
    rewrite lookup_delete_ne by done. intros ->. by eexists.
  - intros e s id e'. case_match; cbn [fst snd] in *; [|intros ->; by eexists].
    destruct (decide (id = messageId e)) as [->|Hne].
    + rewrite lookup_insert_eq. intros [= <-]. eexists; split_and!; [done|..]; done.
    + rewrite lookup_insert_ne by done. intros ->. by eexists.
  - intros id s id' e'. destruct (decide (id' = id)) as [->|Hne];
      [by rewrite lookup_delete_eq|by rewrite lookup_delete_ne].
Qed.

End MemStore.

(** ** Clients of the store *)

(** The entry [id], if any, is not committed. *)
Definition uncommitted {S} `{!IKiteStore S} (id : string) (s : S) : Prop :=
  ∀ e, Query s id = Some e → commit e = false.

Section ClientProps.
Context {S : Type} `{!IKiteStore S} `{!KiteStoreContract S}.

(** C31: the entity of a string message starts committed when its
    header says so: [NewStringMessageEntity] copies
    [msg.GetHeader().GetCommit()] into [commit] (line 47), so saving it
    stores a committed entry although [Commit] was never called, and a
    later [Rollback] fails; spec 2 says [commit] starts false and
    becomes true only through [Commit]. *)
Theorem string_entity_committed_on_save msg s :
  GetCommit (sm_Header msg) = true →
  (Save (NewStringMessageEntity msg) s).1 = true →
  ¬ uncommitted (GetMessageId (sm_Header msg)) (Save (NewStringMessageEntity msg) s).2 ∧
  (Rollback (GetMessageId (sm_Header msg)) (Save (NewStringMessageEntity msg) s).2).1 = false.
Proof.
  intros Hc Hs. pose proof (save_stores _ _ Hs) as Hq. cbn [messageId NewStringMessageEntity] in Hq.
  split.
  - intros Hu. specialize (Hu _ Hq). simpl in Hu. congruence.
  - eapply rollback_committed; [exact Hq|done].
Qed.

End ClientProps.

(** ** Witnesses, on the in-memory store *)

#[local] Existing Instances MemStore.mem_store MemStore.mem_store_contract.

Definition example_header (c : bool) : ProtoHeader :=
  {| GetMessageId := "m1"; GetTopic := "trade"; GetMessageType := "pay"; GetExpiredTime := 0;
     GetGroupId := "g"; GetCommit := c |}%string.

Definition example_msg (c : bool) : StringMessage :=
  {| sm_Header := example_header c; sm_Body := "hello" |}%string.

Lemma string_entity_committed_on_save_witness :
  ¬ uncommitted "m1"%string (Save (NewStringMessageEntity (example_msg true)) (∅ : MemStore.store)).2 ∧
  (Rollback "m1"%string (Save (NewStringMessageEntity (example_msg true)) (∅ : MemStore.store)).2).1 = false.
Proof. apply (string_entity_committed_on_save (example_msg true)); vm_compute; reflexivity. Defined.
